(** * AMS orchestrator: manifest registry, context builder, tools, agent loop
      and conversation memory.

    A shallow embedding of the Go sources of the request pipeline, with the
    properties of its specification stated and proved over it.  Go maps are
    [gmap]s, slices are lists, [int] is [Z], strings are byte strings
    ([string]), pointers into a slice are indices, and a Go [(value, error)]
    pair is a sum. *)

From Stdlib Require Import ZArith Lia String Ascii List Permutation.
From stdpp Require Import base option list gmap strings sorting.
From Equations Require Import Equations.
Import ListNotations.

#[local] Open Scope string_scope.
#[local] Open Scope list_scope.
#[local] Open Scope Z_scope.
Set Warnings "-register-all".

(** ** Results and dynamically typed values *)

(** A Go [(T, error)] result. *)
Inductive result (E A : Type) : Type :=
| Ok (a : A)
| Err (e : E).
Arguments Ok {E A} a.
Arguments Err {E A} e.

Definition is_ok {E A} (r : result E A) : bool :=
  match r with Ok _ => true | Err _ => false end.

(** Go's [any] as the pipeline uses it: decoded JSON, plus the
    [map[string]string] values that the orchestrator stores in the workflow
    context (they are not [map[string]any], so a type assertion to the
    latter fails on them). *)
Inductive any : Type :=
| ANil
| ABool (b : bool)
| AInt (z : Z)
| AStr (s : string)
| ASlice (l : list any)
| AMap (m : gmap string any)
| AStrMap (m : gmap string string).

(** ** String helpers (package [strings]) *)

Module Strings.

(** [strings.HasPrefix]. *)
Fixpoint HasPrefix (s p : string) : bool :=
  match p, s with
  | EmptyString, _ => true
  | String c p', String d s' => if Ascii.eqb c d then HasPrefix s' p' else false
  | String _ _, EmptyString => false
  end.

Fixpoint drop (n : nat) (s : string) : string :=
  match n, s with
  | O, _ => s
  | S n', String _ s' => drop n' s'
  | S _, EmptyString => EmptyString
  end.

(** The scanning loop of [strings.ReplaceAll] for a non-empty [old]:
    [skip] counts the characters of a match still to be dropped. *)
Fixpoint replace_go (old new : string) (skip : nat) (s : string) : string :=
  match s with
  | EmptyString => EmptyString
  | String c r =>
      match skip with
      | S k => replace_go old new k r
      | O =>
          if HasPrefix s old
          then new +:+ replace_go old new (String.length old - 1) r
          else String c (replace_go old new 0 r)
      end
  end.

(** [strings.ReplaceAll s old new]: non-overlapping occurrences, leftmost
    first.  With an empty [old] Go inserts [new] before every character and
    at the end; the pipeline never does that (a placeholder has its two
    braces), the case is here for totality on bytes. *)
Fixpoint intersperse (new s : string) : string :=
  match s with
  | EmptyString => new
  | String c r => new +:+ String c (intersperse new r)
  end.

Definition ReplaceAll (s old new : string) : string :=
  match old with
  | EmptyString => intersperse new s
  | String _ _ => replace_go old new 0 s
  end.

(** [strings.Contains]. *)
Fixpoint Contains (s sub : string) : bool :=
  HasPrefix s sub ||
  match s with
  | EmptyString => false
  | String _ r => Contains r sub
  end.

(** [strings.Index]: the offset of the first occurrence ([None] for -1). *)
Fixpoint Index (s sub : string) : option nat :=
  if HasPrefix s sub then Some O
  else match s with
       | EmptyString => None
       | String _ r => S <$> Index r sub
       end.

Fixpoint take (n : nat) (s : string) : string :=
  match n, s with
  | S n', String c s' => String c (take n' s')
  | _, _ => EmptyString
  end.

(** [strings.TrimPrefix]. *)
Definition TrimPrefix (s p : string) : string :=
  if HasPrefix s p then drop (String.length p) s else s.

(** [strings.HasSuffix] and [strings.TrimSuffix]. *)
Definition HasSuffix (s p : string) : bool :=
  (String.length p <=? String.length s)%nat
  && String.eqb (drop (String.length s - String.length p) s) p.

Definition TrimSuffix (s p : string) : string :=
  if HasSuffix s p then take (String.length s - String.length p) s else s.

(** The loop of [strings.Split] on a one-character separator; [cur] is the
    field being read. *)
Fixpoint splitOn (sep : ascii) (cur : string) (s : string) : list string :=
  match s with
  | EmptyString => [cur]
  | String c r =>
      if Ascii.eqb c sep then cur :: splitOn sep "" r
      else splitOn sep (cur +:+ String c "") r
  end.

(** Number of occurrences of a character. *)
Fixpoint countc (c : ascii) (s : string) : nat :=
  match s with
  | EmptyString => O
  | String d r => ((if Ascii.eqb c d then 1 else 0) + countc c r)%nat
  end.

Lemma HasPrefix_app s p : HasPrefix s p = true <-> exists t, s = p +:+ t.
Proof.
  revert s. induction p as [|c p IH]; intros s.
  - split; [intros _; by exists s | by destruct s].
  - destruct s as [|d s]; cbn; [split; [done | intros [t Ht]; discriminate Ht]|].
    destruct (Ascii.eqb_spec c d) as [->|Hne].
    + rewrite IH. split; intros [t Ht]; exists t.
      * by rewrite Ht.
      * by inversion Ht.
    + split; [done | intros [t Ht]; inversion Ht; congruence].
Qed.

Lemma append_cons c s t : String c s +:+ t = String c (s +:+ t).
Proof. reflexivity. Qed.

Lemma append_nil_l s : "" +:+ s = s.
Proof. reflexivity. Qed.

Lemma append_assoc s t u : (s +:+ t) +:+ u = s +:+ (t +:+ u).
Proof.
  induction s as [|c s IH]; [done|]. by rewrite !append_cons, IH.
Qed.

Lemma append_nil_r s : s +:+ "" = s.
Proof. induction s as [|c s IH]; [done|]. by rewrite append_cons, IH. Qed.

Lemma length_append s t :
  String.length (s +:+ t) = (String.length s + String.length t)%nat.
Proof.
  induction s as [|c s IH]; [done|]. rewrite append_cons. cbn. by rewrite IH.
Qed.

Lemma substring_prefix v r : substring 0 (String.length v) (v +:+ r) = v.
Proof.
  induction v as [|c v IH]; [by destruct r|]. rewrite append_cons. cbn. by rewrite IH.
Qed.

(** The text of length [|v|] found at offset [|pre|] of [pre v r]. *)
Lemma substring_middle pre v r :
  substring (String.length pre) (String.length v) (pre +:+ v +:+ r) = v.
Proof.
  induction pre as [|c pre IH]; [rewrite append_nil_l; apply substring_prefix|].
  rewrite append_cons. cbn. apply IH.
Qed.

Lemma countc_app c s t : countc c (s +:+ t) = (countc c s + countc c t)%nat.
Proof. induction s as [|d s IH]; simpl; [done | rewrite IH; lia]. Qed.

(** *** Placeholders in text without braces *)


Lemma HasPrefix_cons c s d p :
  HasPrefix (String c s) (String d p) = (if Ascii.eqb d c then HasPrefix s p else false).
Proof. reflexivity. Qed.

(** A text that does not hold the first character of [old] is copied. *)
Lemma replace_go_absent c old new s t :
  countc c s = O ->
  replace_go (String c old) new 0 (s +:+ t) = s +:+ replace_go (String c old) new 0 t.
Proof.
  induction s as [|d s IH]; intros Hc; [done|].
  cbn [countc] in Hc. destruct (Ascii.eqb_spec c d) as [->|Hne]; [lia|].
  rewrite !append_cons. cbn [replace_go]. rewrite HasPrefix_cons.
  destruct (Ascii.eqb_spec c d); [done|]. by rewrite IH.
Qed.

Lemma replace_go_absent_all c old new s :
  countc c s = O -> replace_go (String c old) new 0 s = s.
Proof.
  intros Hc. rewrite <- (append_nil_r s) at 1.
  by rewrite replace_go_absent, append_nil_r.
Qed.







(** The placeholder of a key. *)
Definition placeholder (key : string) : string := "{" +:+ key +:+ "}".

Lemma placeholder_eq key : placeholder key = String "{" (key +:+ "}").
Proof. reflexivity. Qed.












(** *** Offsets *)

Lemma countc_take_drop c n s :
  (countc c (take n s) + countc c (drop n s))%nat = countc c s.
Proof.
  revert s. induction n as [|n IH]; intros [|d s]; cbn [take drop countc]; try done.
  rewrite <- (IH s). lia.
Qed.

Lemma countc_drop_S c n s : (countc c (drop (S n) s) <= countc c (drop n s))%nat.
Proof.
  revert s. induction n as [|n IH]; intros [|d s]; cbn [drop countc]; try lia.
  apply (IH s).
Qed.

Lemma countc_drop_mono c n m s :
  (n <= m)%nat -> (countc c (drop m s) <= countc c (drop n s))%nat.
Proof.
  induction 1 as [|m Hle IH]; [done|]. pose proof (countc_drop_S c m s). lia.
Qed.

Lemma Index_Some s sub : forall n, Index s sub = Some n -> HasPrefix (drop n s) sub = true.
Proof.
  induction s as [|d s IH]; intros n; cbn [Index].
  - destruct (HasPrefix "" sub) eqn:Hp; [|done]. intros H; inversion H. done.
  - destruct (HasPrefix (String d s) sub) eqn:Hp.
    + intros H; inversion H. done.
    + destruct (Index s sub) as [k|]; [|done]. intros H; inversion H; subst n. cbn [drop].
      by apply IH.
Qed.

Lemma countc_at c p s n :
  HasPrefix (drop n s) (String c p) = true ->
  countc c (drop n s) = S (countc c (drop (S n) s)).
Proof.
  revert s. induction n as [|n IH]; intros [|d s]; cbn [drop]; try done.
  - rewrite HasPrefix_cons. destruct (Ascii.eqb_spec c d) as [->|]; [|done].
    intros _. cbn [countc]. destruct (Ascii.eqb_spec d d); [|done]. by destruct s.
  - apply IH.
Qed.

Lemma Index_first c s post :
  countc c s = O -> Index (s +:+ String c post) (String c "") = Some (String.length s).
Proof.
  induction s as [|d s IH]; intros Hc.
  - rewrite append_nil_l. cbn [Index]. rewrite HasPrefix_cons.
    destruct (Ascii.eqb_spec c c); [|done]. by destruct post.
  - cbn [countc] in Hc. rewrite append_cons. cbn [Index]. rewrite HasPrefix_cons.
    destruct (Ascii.eqb_spec c d) as [->|Hne]; [lia|]. rewrite IH by lia. done.
Qed.

Lemma drop_append s t : drop (String.length s) (s +:+ t) = t.
Proof. induction s as [|c s IH]; [by rewrite append_nil_l|]. rewrite append_cons. apply IH. Qed.

Lemma take_append s t : take (String.length s) (s +:+ t) = s.
Proof.
  induction s as [|c s IH]; [by destruct t|]. rewrite append_cons. cbn. by rewrite IH.
Qed.

Lemma countc_drop_le c n s : (countc c (drop n s) <= countc c s)%nat.
Proof. pose proof (countc_take_drop c n s). lia. Qed.

(** A text without the first character of [p] does not end with [p]. *)
Lemma HasSuffix_absent c p s : countc c s = O -> HasSuffix s (String c p) = false.
Proof.
  intros Hc. unfold HasSuffix. destruct (_ <=? _)%nat; [|done]. cbn [andb].
  apply String.eqb_neq. intros Heq.
  pose proof (countc_drop_le c (String.length s - String.length (String c p)) s) as Hle.
  rewrite Heq in Hle. cbn [countc] in Hle. rewrite Ascii.eqb_refl in Hle. lia.
Qed.

Lemma HasPrefix_absent c p s : countc c s = O -> HasPrefix s (String c p) = false.
Proof.
  destruct s as [|d s]; [done|]. cbn [countc]. rewrite HasPrefix_cons.
  destruct (Ascii.eqb_spec c d); [lia | done].
Qed.

(** A text without the separator is one field. *)
Lemma splitOn_absent sep s : forall cur,
  countc sep s = O -> splitOn sep cur s = [cur +:+ s].
Proof.
  induction s as [|c s IH]; intros cur Hc; cbn [splitOn].
  - by rewrite append_nil_r.
  - cbn [countc] in Hc. rewrite Ascii.eqb_sym.
    destruct (Ascii.eqb_spec sep c); [lia|]. rewrite IH by lia.
    by rewrite append_assoc.
Qed.

(** *** Case and file extensions *)

Definition lowerByte (c : ascii) : ascii :=
  let n := nat_of_ascii c in
  if ((65 <=? n) && (n <=? 90))%nat then ascii_of_nat (n + 32) else c.

Fixpoint mapBytes (f : ascii -> ascii) (s : string) : string :=
  match s with
  | EmptyString => EmptyString
  | String c r => String (f c) (mapBytes f r)
  end.

Fixpoint allASCII (s : string) : bool :=
  match s with
  | EmptyString => true
  | String c r => (nat_of_ascii c <? 128)%nat && allASCII r
  end.

(** [strings.ToLower] on a string of ASCII bytes, where it works byte by
    byte; [None] on any other string, which is not modelled. *)
Definition ToLower (s : string) : option string :=
  if allASCII s then Some (mapBytes lowerByte s) else None.

(** The loop of [filepath.Ext], from the last byte backwards: [before]
    holds the bytes not yet visited, last first, [after] those visited. *)
Fixpoint scanBack (before : list ascii) (after : string) : string :=
  match before with
  | [] => ""
  | c :: before' =>
      if Ascii.eqb c "/" then ""
      else if Ascii.eqb c "." then String c after
      else scanBack before' (String c after)
  end.

(** [filepath.Ext], with [/] as the path separator. *)
Definition Ext (path : string) : string :=
  scanBack (rev (list_ascii_of_string path)) "".

Lemma mapBytes_app f s t : mapBytes f (s +:+ t) = mapBytes f s +:+ mapBytes f t.
Proof. induction s as [|c s IH]; [done|]. rewrite !append_cons. cbn. by rewrite IH. Qed.

Lemma allASCII_app s t : allASCII (s +:+ t) = allASCII s && allASCII t.
Proof.
  induction s as [|c s IH]; [done|]. rewrite append_cons. cbn [allASCII].
  by rewrite IH, andb_assoc.
Qed.

Lemma HasSuffix_app s p : HasSuffix (s +:+ p) p = true.
Proof.
  unfold HasSuffix. rewrite length_append.
  replace (String.length s + String.length p - String.length p)%nat
    with (String.length s) by lia.
  rewrite drop_append, String.eqb_refl, andb_true_r. apply Nat.leb_le. lia.
Qed.

Lemma string_of_list_ascii_app l1 l2 :
  string_of_list_ascii (l1 ++ l2) = string_of_list_ascii l1 +:+ string_of_list_ascii l2.
Proof. induction l1 as [|c l1 IH]; [done|]. cbn [app string_of_list_ascii]. by rewrite append_cons, IH. Qed.

(** The extension is a suffix of the path. *)
Lemma scanBack_suffix before : forall after,
  exists pre, string_of_list_ascii (rev before) +:+ after = pre +:+ scanBack before after.
Proof.
  induction before as [|c before IH]; intros after; cbn [scanBack].
  - exists after. by rewrite append_nil_r.
  - cbn [rev]. rewrite string_of_list_ascii_app. cbn [string_of_list_ascii].
    rewrite append_assoc, append_cons, append_nil_l.
    destruct (Ascii.eqb c "/").
    { eexists. by rewrite append_nil_r. }
    destruct (Ascii.eqb c "."); [by eexists | apply IH].
Qed.

Lemma Ext_suffix path : exists pre, path = pre +:+ Ext path.
Proof.
  destruct (scanBack_suffix (rev (list_ascii_of_string path)) "") as [pre Hpre].
  exists pre. unfold Ext. rewrite <- Hpre, rev_involutive.
  by rewrite string_of_list_ascii_of_string, append_nil_r.
Qed.

Lemma take_drop n : forall s, take n s +:+ drop n s = s.
Proof.
  induction n as [|n IH]; intros [|c s]; cbn [take drop]; try done.
  by rewrite append_cons, IH.
Qed.

Lemma HasSuffix_inv s p : HasSuffix s p = true -> exists pre, s = pre +:+ p.
Proof.
  unfold HasSuffix. intros [_ Heq%String.eqb_eq]%andb_true_iff.
  exists (take (String.length s - String.length p) s).
  pose proof (take_drop (String.length s - String.length p) s) as Htd.
  by rewrite Heq in Htd.
Qed.

Lemma mapBytes_split f : forall s a b,
  mapBytes f s = a +:+ b ->
  exists s1 s2, s = s1 +:+ s2 /\ mapBytes f s1 = a /\ mapBytes f s2 = b.
Proof.
  intros s a. revert s. induction a as [|c a IH]; intros s b Hs.
  - exists "", s. by rewrite append_nil_l in *.
  - rewrite append_cons in Hs. destruct s as [|d s]; [done|].
    cbn [mapBytes] in Hs. injection Hs as Hd Hs.
    destruct (IH _ _ Hs) as (s1 & s2 & -> & H1 & H2).
    exists (String d s1), s2. rewrite append_cons. cbn [mapBytes]. by rewrite Hd, H1.
Qed.

Definition isLower (c : ascii) : bool :=
  let n := nat_of_ascii c in ((97 <=? n) && (n <=? 122))%nat.

Fixpoint allLower (s : string) : bool :=
  match s with
  | EmptyString => true
  | String c r => isLower c && allLower r
  end.

Lemma lowerByte_dot c : lowerByte c = "."%char -> c = "."%char.
Proof. destruct c as [[] [] [] [] [] [] [] []]; vm_compute; congruence. Qed.

Lemma lowerByte_letter c :
  isLower (lowerByte c) = true -> c <> "."%char /\ c <> "/"%char.
Proof. intros H. split; intros ->; vm_compute in H; discriminate. Qed.

Lemma lowered_plain : forall s q,
  mapBytes lowerByte s = q -> allLower q = true ->
  Forall (fun c => c <> "."%char /\ c <> "/"%char) (list_ascii_of_string s).
Proof.
  induction s as [|c s IH]; intros q Hq Hlow; cbn [list_ascii_of_string].
  - constructor.
  - cbn [mapBytes] in Hq. subst q. cbn [allLower] in Hlow.
    apply andb_true_iff in Hlow as [Hc Hs].
    constructor; [by apply lowerByte_letter | by eapply IH].
Qed.

(** The loop stops at the first dot it meets when no separator comes
    before it. *)
Lemma scanBack_dot l : forall after rest,
  Forall (fun c => c <> "."%char /\ c <> "/"%char) l ->
  scanBack (l ++ "."%char :: rest) after
  = String "." (string_of_list_ascii (rev l) +:+ after).
Proof.
  induction l as [|c l IH]; intros after rest Hl.
  - cbn. by rewrite append_nil_l.
  - apply Forall_cons_1 in Hl as [[Hdot Hsep] Hl].
    cbn [app scanBack rev].
    destruct (Ascii.eqb_spec c "/"); [done|].
    destruct (Ascii.eqb_spec c "."); [done|].
    rewrite IH by done. rewrite string_of_list_ascii_app. cbn [string_of_list_ascii].
    by rewrite append_assoc, append_cons, append_nil_l.
Qed.

Lemma Ext_dot pre q :
  Forall (fun c => c <> "."%char /\ c <> "/"%char) (list_ascii_of_string q) ->
  Ext (pre +:+ String "." q) = String "." q.
Proof.
  intros Hq. unfold Ext.
  assert (Hl : list_ascii_of_string (pre +:+ String "." q)
               = list_ascii_of_string pre ++ "."%char :: list_ascii_of_string q).
  { induction pre as [|c pre IH]; [done|]. rewrite append_cons. cbn. by rewrite IH. }
  rewrite Hl, rev_app_distr. cbn [rev]. rewrite <- app_assoc. cbn [app].
  rewrite scanBack_dot by by apply Forall_rev.
  by rewrite rev_involutive, string_of_list_ascii_of_string, append_nil_r.
Qed.

(** Lowered, a path ends in a dot and lower-case letters exactly when its
    lowered extension is that ending. *)
Lemma Ext_lower path q :
  allLower q = true ->
  HasSuffix (mapBytes lowerByte path) (String "." q)
  = String.eqb (mapBytes lowerByte (Ext path)) (String "." q).
Proof.
  intros Hq. apply Bool.eq_iff_eq_true. rewrite String.eqb_eq. split.
  - intros (pre & Hpre)%HasSuffix_inv.
    apply mapBytes_split in Hpre as (s1 & s2 & -> & _ & H2).
    destruct s2 as [|c s2]; [done|]. cbn [mapBytes] in H2. injection H2 as Hc H2.
    apply lowerByte_dot in Hc as ->.
    rewrite Ext_dot by by eapply lowered_plain. cbn [mapBytes]. by rewrite H2.
  - intros Hext. destruct (Ext_suffix path) as [pre Hpre].
    rewrite Hpre at 1. rewrite mapBytes_app, Hext. apply HasSuffix_app.
Qed.

End Strings.

(** ** Package [regexp] *)

(** The registry hands every route pattern to Go's [regexp] package, which
    is not part of the repository.  The registry is therefore modelled over
    any implementation of the two functions it calls, [regexp.Compile] and
    the method [FindStringSubmatch] of a compiled expression; what is proved
    of it holds whatever these do.  This module gives one implementation, used where a statement is
    about what an expression matches and for the examples: the fragment of
    the (RE2) syntax made of literal ASCII characters, [.], [^], [$],
    capturing groups, the one-segment atom [[^/]+] and text quoted between
    [\Q] and [\E].  Matching is leftmost-first with greedy repetition and
    steps over the subject rune by rune, as in Go; offsets are bytes. *)
Module Regexp.

(** *** Runes *)

Definition inRange (lo hi : nat) (c : ascii) : bool :=
  let n := nat_of_ascii c in ((lo <=? n) && (n <=? hi))%nat.

(** The table [first] of package [utf8] for the bytes that start a sequence
    of several: the length of the sequence and the range of its second
    byte.  [None] is an ASCII byte or one that starts no sequence. *)
Definition first (c : ascii) : option (nat * (nat * nat)) :=
  let n := nat_of_ascii c in
  if ((194 <=? n) && (n <=? 223))%nat then Some (2, (128, 191))%nat
  else if (n =? 224)%nat then Some (3, (160, 191))%nat
  else if ((225 <=? n) && (n <=? 236))%nat then Some (3, (128, 191))%nat
  else if (n =? 237)%nat then Some (3, (128, 159))%nat
  else if ((238 <=? n) && (n <=? 239))%nat then Some (3, (128, 191))%nat
  else if (n =? 240)%nat then Some (4, (144, 191))%nat
  else if ((241 <=? n) && (n <=? 243))%nat then Some (4, (128, 191))%nat
  else if (n =? 244)%nat then Some (4, (128, 143))%nat
  else None.

(** The width in bytes of the first rune of a string, as
    [utf8.DecodeRuneInString] finds it: 1 for an ASCII byte and for a byte
    that does not start a well-formed sequence, 0 for the empty string. *)
Definition runeWidth (s : string) : nat :=
  match s with
  | EmptyString => 0
  | String s0 t =>
      match first s0 with
      | None => 1
      | Some (sz, (lo, hi)) =>
          if (String.length s <? sz)%nat then 1
          else
            match t with
            | String s1 t1 =>
                if negb (inRange lo hi s1) then 1
                else if (sz <=? 2)%nat then 2
                else
                  match t1 with
                  | String s2 t2 =>
                      if negb (inRange 128 191 s2) then 1
                      else if (sz <=? 3)%nat then 3
                      else
                        match t2 with
                        | String s3 _ => if negb (inRange 128 191 s3) then 1 else 4
                        | EmptyString => 1
                        end
                  | EmptyString => 1
                  end
            | EmptyString => 1
            end
      end
  end%nat.

(** *** Syntax *)

Inductive token := TChar (c : ascii) | TAny | TBol | TEol | TSeg | TOpen | TClose.

Definition isMeta (c : ascii) : bool :=
  existsb (Ascii.eqb c) (list_ascii_of_string "\.+*?()|[]{}^$").

Definition isASCII (c : ascii) : bool := (nat_of_ascii c <? 128)%nat.

(** Lexing; [skip] counts the characters of a recognised [[^/]+], [\Q] or
    [\E] still to be passed over, [quoted] tells whether the text stands
    between [\Q] and [\E] (or the end), where every character is a
    literal. *)
Fixpoint lex (skip : nat) (quoted : bool) (s : string) : option (list token) :=
  match s with
  | EmptyString => Some []
  | String c r =>
      match skip with
      | S k => lex k quoted r
      | O =>
          if quoted then
            if Strings.HasPrefix s "\E" then lex 1 false r
            else if isASCII c then cons (TChar c) <$> lex 0 true r
            else None
          else if Strings.HasPrefix s "\Q" then lex 1 true r
          else if Strings.HasPrefix s "[^/]+" then cons TSeg <$> lex 4 false r
          else if Ascii.eqb c "(" then
            if Strings.HasPrefix r "?" then None else cons TOpen <$> lex 0 false r
          else if Ascii.eqb c ")" then cons TClose <$> lex 0 false r
          else if Ascii.eqb c "^" then cons TBol <$> lex 0 false r
          else if Ascii.eqb c "$" then cons TEol <$> lex 0 false r
          else if Ascii.eqb c "." then cons TAny <$> lex 0 false r
          else if isMeta c || negb (isASCII c) then None
          else cons (TChar c) <$> lex 0 false r
      end
  end.

(** Instructions of a compiled expression; group [g] (numbered from 1 in
    the order of the opening parentheses) records its bounds. *)
Inductive inst :=
| IChar (c : ascii) | IAny | IBol | IEol | ISeg | IOpen (g : nat) | IClose (g : nat).

(** Group numbering and the parenthesis check: [next] is the number of the
    next group, [stack] the groups still open.  [None] is a syntax error
    (an unexpected or a missing closing parenthesis). *)
Fixpoint number (toks : list token) (next : nat) (stack : list nat)
  : option (list inst * nat) :=
  match toks with
  | [] => match stack with [] => Some ([], next) | _ :: _ => None end
  | TChar c :: ts => prod_map (cons (IChar c)) id <$> number ts next stack
  | TAny :: ts => prod_map (cons IAny) id <$> number ts next stack
  | TBol :: ts => prod_map (cons IBol) id <$> number ts next stack
  | TEol :: ts => prod_map (cons IEol) id <$> number ts next stack
  | TSeg :: ts => prod_map (cons ISeg) id <$> number ts next stack
  | TOpen :: ts => prod_map (cons (IOpen next)) id <$> number ts (S next) (next :: stack)
  | TClose :: ts =>
      match stack with
      | [] => None
      | g :: st => prod_map (cons (IClose g)) id <$> number ts next st
      end
  end.

Record Regexp := { prog : list inst; NumSubexp : nat }.

Inductive parsed := CompileOk (re : Regexp) | CompileError | NotModelled.

(** The parser: an expression of the fragment compiles or has a syntax
    error; any other expression is [NotModelled]. *)
Definition parse (expr : string) : parsed :=
  match lex 0 false expr with
  | None => NotModelled
  | Some toks =>
      match number toks 1 [] with
      | None => CompileError
      | Some (p, next) => CompileOk {| prog := p; NumSubexp := (next - 1)%nat |}
      end
  end.

(** [regexp.Compile] of this implementation: [None] is its error.  It
    refuses what it does not model. *)
Definition Compile (expr : string) : option Regexp :=
  match parse expr with
  | CompileOk re => Some re
  | CompileError | NotModelled => None
  end.

(** *** Matching *)

Abbreviation caps := (gmap nat nat).

(** One or more runes other than [/], the longest run first; [fuel] bounds
    the number of runes. *)
Fixpoint segMore (fuel : nat) (k : nat -> string -> caps -> option (nat * caps))
    (pos : nat) (rest : string) (cs : caps) : option (nat * caps) :=
  match fuel with
  | O => k pos rest cs
  | S fuel' =>
      match rest with
      | String d _ =>
          if Ascii.eqb d "/" then k pos rest cs
          else
            let w := runeWidth rest in
            match segMore fuel' k (pos + w) (Strings.drop w rest) cs with
            | Some res => Some res
            | None => k pos rest cs
            end
      | EmptyString => k pos rest cs
      end
  end.

Definition seg (k : nat -> string -> caps -> option (nat * caps))
    (pos : nat) (rest : string) (cs : caps) : option (nat * caps) :=
  match rest with
  | String d _ =>
      if Ascii.eqb d "/" then None
      else
        let w := runeWidth rest in
        segMore (String.length rest) k (pos + w) (Strings.drop w rest) cs
  | EmptyString => None
  end.

(** The line feed, which [.] does not match. *)
Definition newline : ascii := "010".

(** Backtracking run of a program at offset [pos] of the subject, [rest]
    being the text from there on; the result is the end offset and the
    group bounds (slot [2g] the start of group [g], slot [2g+1] its end).
    A literal is an ASCII character: it matches the rune that is this
    byte. *)
Fixpoint run (p : list inst) (pos : nat) (rest : string) (cs : caps)
  : option (nat * caps) :=
  match p with
  | [] => Some (pos, cs)
  | IChar c :: p' =>
      match rest with
      | String d r => if Ascii.eqb c d then run p' (S pos) r cs else None
      | EmptyString => None
      end
  | IAny :: p' =>
      match rest with
      | String d _ =>
          if Ascii.eqb d newline then None
          else let w := runeWidth rest in run p' (pos + w) (Strings.drop w rest) cs
      | EmptyString => None
      end
  | IBol :: p' => if Nat.eqb pos 0 then run p' pos rest cs else None
  | IEol :: p' => match rest with EmptyString => run p' pos rest cs | _ => None end
  | ISeg :: p' => seg (run p') pos rest cs
  | IOpen g :: p' => run p' pos rest (<[(2 * g)%nat := pos]> cs)
  | IClose g :: p' => run p' pos rest (<[(2 * g + 1)%nat := pos]> cs)
  end.

(** The leftmost start offset at which the program matches; [fuel] bounds
    the number of runes stepped over. *)
Fixpoint search (fuel : nat) (p : list inst) (pos : nat) (rest : string)
  : option (nat * (nat * caps)) :=
  match run p pos rest ∅ with
  | Some res => Some (pos, res)
  | None =>
      match fuel, rest with
      | S fuel', String _ _ =>
          let w := runeWidth rest in search fuel' p (pos + w) (Strings.drop w rest)
      | _, _ => None
      end
  end.

(** The text of group [g]; a group that took no part in the match yields
    the empty string. *)
Definition group (s : string) (cs : caps) (g : nat) : string :=
  match cs !! (2 * g)%nat, cs !! (2 * g + 1)%nat with
  | Some b, Some e => substring b (e - b) s
  | _, _ => ""
  end.

(** [Regexp.FindStringSubmatch]: [None] is Go's nil slice (no match);
    otherwise the whole match followed by the text of every group. *)
Definition FindStringSubmatch (re : Regexp) (s : string) : option (list string) :=
  match search (String.length s) (prog re) 0 s with
  | None => None
  | Some (b, (e, cs)) =>
      Some (substring b (e - b) s :: map (group s cs) (seq 1 (NumSubexp re)))
  end.

(** *** Facts about the implementation *)

Lemma first_Some c sz lo hi :
  first c = Some (sz, (lo, hi)) -> (128 <= lo)%nat /\ (sz = 2 \/ sz = 3 \/ sz = 4)%nat.
Proof.
  unfold first.
  repeat match goal with
         | |- context [if ?b then _ else _] => destruct b
         end; intros H; inversion H; subst; lia.
Qed.


(** The first rune of a string that is not empty has one byte at least and
    lies within the string. *)
Lemma runeWidth_bounds d t :
  (1 <= runeWidth (String d t) <= String.length (String d t))%nat.
Proof.
  unfold runeWidth. destruct (first d) as [[sz [lo hi]]|] eqn:Hf; [|cbn; lia].
  destruct (first_Some _ _ _ _ Hf) as [_ Hsz].
  destruct (Nat.ltb_spec (String.length (String d t)) sz) as [|Hlen]; [cbn; lia|].
  destruct t as [|s1 t1]; [cbn; lia|].
  destruct (inRange lo hi s1); cbn [negb]; [|cbn; lia].
  destruct (Nat.leb_spec sz 2); [cbn; lia|].
  destruct t1 as [|s2 t2]; [cbn; lia|].
  destruct (inRange 128 191 s2); cbn [negb]; [|cbn; lia].
  destruct (Nat.leb_spec sz 3); [cbn; lia|].
  destruct t2 as [|s3 t3]; [cbn; lia|].
  destruct (inRange 128 191 s3); cbn [negb]; cbn; lia.
Qed.


Lemma length_drop n : forall s,
  String.length (Strings.drop n s) = (String.length s - n)%nat.
Proof. induction n as [|n IH]; intros [|c s]; cbn; auto. Qed.

(** The bound on the runes of a segment is never reached: more fuel
    changes nothing. *)
Lemma segMore_fuel k fuel : forall pos rest cs,
  (String.length rest <= fuel)%nat ->
  segMore (S fuel) k pos rest cs = segMore fuel k pos rest cs.
Proof.
  induction fuel as [|fuel IH]; intros pos rest cs Hlen.
  - destruct rest as [|d t]; [done | cbn in Hlen; lia].
  - cbn [segMore]. destruct rest as [|d t]; [done|].
    destruct (Ascii.eqb d "/"); [done|].
    pose proof (runeWidth_bounds d t) as Hw.
    assert (Hshort : (String.length (Strings.drop (runeWidth (String d t)) (String d t))
                      <= fuel)%nat) by (rewrite length_drop; lia).
    pose proof (IH (pos + runeWidth (String d t))%nat _ cs Hshort) as Heq.
    cbn [segMore] in Heq. by rewrite Heq.
Qed.






(** A match comes with the whole text and one entry per group. *)
Lemma FindStringSubmatch_length re s groups :
  FindStringSubmatch re s = Some groups -> length groups = S (NumSubexp re).
Proof.
  unfold FindStringSubmatch. destruct (search _ _ _ _) as [[b [e cs]]|]; [|done].
  intros H; inversion H. cbn. by rewrite length_map, length_seq.
Qed.

(** The segment atom takes whole runes: of two parameters in a row the
    second gets the last rune of the segment, not its last byte, and a
    segment of one rune cannot be split between them. *)
Example FindStringSubmatch_runes :
  let e_acute := String "195" (String "169" "") in
  match Compile "^/([^/]+)([^/]+)$" with
  | Some re =>
      FindStringSubmatch re ("/x" +:+ e_acute) = Some ["/x" +:+ e_acute; "x"; e_acute]
      /\ FindStringSubmatch re ("/" +:+ e_acute) = None
  | None => False
  end.
Proof. by vm_compute. Qed.

End Regexp.

(** ** Package [manifest] *)

Module Manifest.

(** *** Data model (manifest.go) *)

Record Provider := {
  Type_ : string;
  Name : string;
  URL : string;
  Method : string;
  Headers : gmap string string;
  Body : option any;
  Timeout : string;
  Params : gmap string any;
  Condition : string;
  Optional : bool
}.

Record Context := { Providers : list Provider }.

Record ToolParameter := {
  ParamName : string;
  ParamType : string;
  ParamDescription : string;
  Required : bool;
  Source : string;
  ContextPath : string;
  Enum : list string;
  Default : any
}.

Record ToolConfig := {
  ToolMethod : string;
  ToolURL : string;
  ToolHeaders : gmap string string;
  ToolBody : option any;
  ToolTimeout : string;
  ResponsePath : string
}.

Record Tool := {
  ToolName : string;
  ToolDescription : string;
  ToolType : string;
  Config : ToolConfig;
  Parameters : list ToolParameter
}.

Record Route := {
  Pattern : string;
  RouteName : string;
  Description : string;
  RouteContext : Context;
  Tools : list Tool;
  AgentInstructions : string
}.

Record Manifest := {
  Version : string;
  Routes : list Route;
  Fallback : option Route
}.

(** *** Errors (errors.go) *)

Inductive Error : Type :=
| MissingVersionError
| MissingRoutesError
| InvalidPatternError (pattern : string)
| MissingRouteNameError (pattern : string)
| MissingRoutePatternError (routeName : string)
| DuplicateRouteNameError (routeName : string)
| MissingProviderTypeError (providerName : string)
| MissingProviderNameError
| MissingProviderURLError (providerName providerType : string)
| RouteNotFoundError (path : string)
| ManifestNotLoadedError
| RouteCompileError (pattern : string)
| MultipleValidationErrors (errors : list Error).

(** *** Validation (loader.go) *)

Definition validateProvider (provider : Provider) : option Error :=
  if String.eqb (Type_ provider) "" then Some (MissingProviderTypeError (Name provider))
  else if String.eqb (Name provider) "" then Some MissingProviderNameError
  else if String.eqb (Type_ provider) "http" && String.eqb (URL provider) ""
       then Some (MissingProviderURLError (Name provider) (Type_ provider))
  else None.

(** The provider loop of [validateRoute]: the first error is returned. *)
Fixpoint validateProviders (ps : list Provider) : option Error :=
  match ps with
  | [] => None
  | p :: ps' =>
      match validateProvider p with
      | Some e => Some e
      | None => validateProviders ps'
      end
  end.

Definition validateRoute (route : Route) : option Error :=
  if String.eqb (Pattern route) "" then Some (MissingRoutePatternError (RouteName route))
  else if String.eqb (RouteName route) "" then Some (MissingRouteNameError (Pattern route))
  else validateProviders (Providers (RouteContext route)).

(** [compileRoutePattern]: the surface check made during validation. *)
Definition compileRoutePattern (route : Route) : result Error string :=
  if negb (Strings.HasPrefix (Pattern route) "/") && negb (String.eqb (Pattern route) "")
  then Err (InvalidPatternError (Pattern route))
  else Ok (Pattern route).

Definition opt_to_list {A} (o : option A) : list A :=
  match o with Some a => [a] | None => [] end.

Definition err_to_list {A} (r : result Error A) : list Error :=
  match r with Ok _ => [] | Err e => [e] end.

(** One iteration of the route loop of [ValidateManifest]: the errors it
    appends, given the names seen so far. *)
Definition routeErrors (routeNames : gset string) (route : Route) : list Error :=
  opt_to_list (validateRoute route)
  ++ (if decide (RouteName route ∈ routeNames)
      then [DuplicateRouteNameError (RouteName route)] else [])
  ++ err_to_list (compileRoutePattern route).

Fixpoint validateRoutes (routeNames : gset string) (routes : list Route) : list Error :=
  match routes with
  | [] => []
  | route :: rest =>
      routeErrors routeNames route
      ++ validateRoutes ({[RouteName route]} ∪ routeNames) rest
  end.

Definition ValidateManifest (manifest : Manifest) : option Error :=
  if String.eqb (Version manifest) "" then Some MissingVersionError
  else if Nat.eqb (length (Routes manifest)) 0 then Some MissingRoutesError
  else
    let validationErrors :=
      validateRoutes ∅ (Routes manifest)
      ++ match Fallback manifest with
         | Some fb => opt_to_list (validateRoute fb)
         | None => []
         end in
    if Nat.ltb 0 (length validationErrors)
    then Some (MultipleValidationErrors validationErrors)
    else None.

(** *** Route patterns (manifest.go) *)

(** [\w] of the parameter expression: [[0-9A-Za-z_]]. *)
Definition isWord (c : ascii) : bool :=
  let n := nat_of_ascii c in
  ((48 <=? n) && (n <=? 57) || (65 <=? n) && (n <=? 90)
   || (97 <=? n) && (n <=? 122) || (n =? 95))%nat.

(** A pattern as [paramRegex] (a colon and one or more word characters, the
    word captured) cuts it: the matches, and the characters between them. *)
Inductive piece := PLit (c : ascii) | PParam (name : string).

Definition flush (cur : option string) : list piece :=
  match cur with
  | None => []
  | Some EmptyString => [PLit ":"]
  | Some w => [PParam w]
  end.

(** The leftmost, longest, non-overlapping matches of [paramRegex]; [cur]
    holds the word read since a colon, when inside a candidate match. *)
Fixpoint scan (cur : option string) (s : string) : list piece :=
  match s with
  | EmptyString => flush cur
  | String c r =>
      match cur with
      | Some w =>
          if isWord c then scan (Some (w +:+ String c "")) r
          else flush cur ++
               (if Ascii.eqb c ":" then scan (Some "") r else PLit c :: scan None r)
      | None =>
          if Ascii.eqb c ":" then scan (Some "") r else PLit c :: scan None r
      end
  end.

(** [paramRegex.FindAllStringSubmatch(pattern, -1)], keeping [match[1]]. *)
Definition paramNames (pieces : list piece) : list string :=
  omap (fun p => match p with PParam w => Some w | PLit _ => None end) pieces.

(** [paramRegex.ReplaceAllString(pattern, repl)]. *)
Fixpoint replaceParams (repl : string) (pieces : list piece) : string :=
  match pieces with
  | [] => ""
  | PLit c :: ps => String c (replaceParams repl ps)
  | PParam _ :: ps => repl +:+ replaceParams repl ps
  end.

(** The expression [compileRoute] hands to [regexp.Compile]. *)
Definition regexPattern (pat : string) : string :=
  "^" +:+ replaceParams "([^/]+)" (scan None pat) +:+ "$".

(** *** The construction of the specification *)

(** The specification builds the expression of a pattern by converting
    each [:identifier] into [([^/]+)] and anchoring the result between [^]
    and [$], and takes the identifiers as the parameter names.  These
    definitions follow its words: an identifier is the longest run of
    letters, digits and underscores after a colon, and a colon that none of
    these follows stands for itself. *)
Definition identChar (c : ascii) : bool :=
  existsb (Ascii.eqb c)
    (list_ascii_of_string
       "0123456789ABCDEFGHIJKLMNOPQRSTUVWXYZabcdefghijklmnopqrstuvwxyz_").

Definition beginsWord (s : string) : bool :=
  match s with
  | String c _ => identChar c
  | EmptyString => false
  end.

Fixpoint wordLen (s : string) : nat :=
  match s with
  | String c r => if identChar c then S (wordLen r) else O
  | EmptyString => O
  end.

(** [skip] counts the characters of an identifier still to pass over. *)
Fixpoint specExpression (skip : nat) (pat : string) : string :=
  match pat with
  | EmptyString => ""
  | String c r =>
      match skip with
      | S k => specExpression k r
      | O =>
          if Ascii.eqb c ":" && beginsWord r
          then "([^/]+)" +:+ specExpression (wordLen r) r
          else String c (specExpression 0 r)
      end
  end.


Definition specRegex (pat : string) : string :=
  "^" +:+ specExpression 0 pat +:+ "$".

(** *** Matches (manifest.go) *)

(** The route a match points to: the pointer [&manifest.Routes[i]], kept as
    the index [i], or the fallback. *)
Inductive RouteRef := Declared (i : nat) | FallbackRoute.

Record RouteMatch := {
  MatchRoute : RouteRef;
  MatchParams : gmap string string;
  MatchQuery : gmap string string
}.

(** The binding loop of [Match]: [params[param] = match[i+1]]; [None] is
    the run-time panic of an index out of range. *)
Fixpoint bindParams (names : list string) (i : nat) (groups : list string)
    (acc : gmap string string) : option (gmap string string) :=
  match names with
  | [] => Some acc
  | param :: rest =>
      match groups !! S i with
      | None => None
      | Some v => bindParams rest (S i) groups (<[param := v]> acc)
      end
  end.

Inductive outcome (A : Type) := Returns (a : A) | Panics.
Arguments Returns {A} a.
Arguments Panics {A}.

(** The match has a group for every parameter: entry [k + 1] for the
    parameter at position [k]. *)
Definition groupsFor (names groups : list string) : Prop :=
  forall k, (k < length names)%nat -> is_Some (groups !! S k).

(** [ps] binds the names to the groups of a match by position: the name at
    position [k] gets group [k+1], a later position overriding an earlier
    one of the same name, and no other name is bound. *)
Definition boundByPosition (names groups : list string) (ps : gmap string string) : Prop :=
  (forall n, n ∉ names -> ps !! n = None)
  /\ (forall k n, names !! k = Some n ->
        (forall k', (k < k')%nat -> names !! k' <> Some n) ->
        is_Some (groups !! S k) /\ ps !! n = groups !! S k).

(** A character that stands for itself in an expression. *)
Definition plainChar (c : ascii) : bool :=
  negb (Regexp.isMeta c) && Regexp.isASCII c.

(** A pattern of literal text, dots, slashes and [:name] segments: apart
    from the dot it has no character that is special to [regexp]. *)
Definition plainPattern (pat : string) : bool :=
  forallb (fun c => plainChar c || Ascii.eqb c ".") (list_ascii_of_string pat).



(** [ValidateManifest]'s result reports the error [e]: it is the error
    returned, or one of those gathered in a multiple-validation error. *)
Definition reports (r : option Error) (e : Error) : Prop :=
  r = Some e \/ exists errs, r = Some (MultipleValidationErrors errs) /\ e ∈ errs.

(** A provider, a route as [validateProvider] and [validateRoute] want
    them. *)
Definition validProvider (p : Provider) : Prop :=
  Type_ p <> "" /\ Name p <> "" /\ (Type_ p = "http" -> URL p <> "").

Definition validRoute (R : Route) : Prop :=
  Pattern R <> "" /\ RouteName R <> ""
  /\ forall p, p ∈ Providers (RouteContext R) -> validProvider p.

(** *** The construction of the code is that of the specification *)









(** A pattern cut into its pieces: letters, digits and underscores make
    the name, a hyphen or a slash ends it, and a colon that no name follows
    stands for itself. *)
Example regexPattern_example :
  regexPattern "/v1/:user_id9-:x/:" = "^/v1/([^/]+)-([^/]+)/:$"
  /\ paramNames (scan None "/v1/:user_id9-:x/:") = ["user_id9"; "x"].
Proof. by vm_compute. Qed.

(** *** The registry (manifest.go) *)

Section Registry.

(** Package [regexp] lies outside the repository.  The registry is written
    over any implementation of what it calls: [regexp.Compile] ([None] is
    its error) and the method [FindStringSubmatch] of a compiled expression
    ([None] is the nil slice of no match). *)
Context {Regexp : Type}.
Variable Compile : string -> option Regexp.
Variable FindStringSubmatch : Regexp -> string -> option (list string).

(** A compiled route; [route] is the pointer [&manifest.Routes[i]], kept
    as the index [i]. *)
Record routeEntry := {
  route : nat;
  pattern : Regexp;
  params : list string
}.

Record Registry := {
  manifest : option Manifest;
  routes : list routeEntry;
  fallback : option Route
}.

Definition NewRegistry : Registry :=
  {| manifest := None; routes := []; fallback := None |}.

(** [compileRoute], for the route at index [i]. *)
Definition compileRoute (i : nat) (r : Route) : result Error routeEntry :=
  let params := paramNames (scan None (Pattern r)) in
  match Compile (regexPattern (Pattern r)) with
  | None => Err (RouteCompileError (Pattern r))
  | Some compiled => Ok {| route := i; pattern := compiled; params := params |}
  end.

(** The compile loop of [Load], from index [i] on, appending to [acc]: the
    entries compiled and the error that stopped the loop, if any. *)
Fixpoint compileAll (i : nat) (rs : list Route) (acc : list routeEntry)
  : list routeEntry * option Error :=
  match rs with
  | [] => (acc, None)
  | r :: rest =>
      match compileRoute i r with
      | Err e => (acc, Some e)
      | Ok entry => compileAll (S i) rest (acc ++ [entry])
      end
  end.

(** [Load]: the new state of the registry and the error returned.  A
    compile error leaves the manifest set, the entries compiled so far and
    the previous fallback. *)
Definition Load (r : Registry) (m : Manifest) : Registry * option Error :=
  match compileAll 0 (Routes m) [] with
  | (entries, Some e) =>
      ({| manifest := Some m; routes := entries; fallback := fallback r |}, Some e)
  | (entries, None) =>
      ({| manifest := Some m; routes := entries; fallback := Fallback m |}, None)
  end.

(** The route loop of [Match]. *)
Fixpoint matchEntries (entries : list routeEntry) (path : string)
  : option (outcome RouteMatch) :=
  match entries with
  | [] => None
  | entry :: rest =>
      match FindStringSubmatch (pattern entry) path with
      | Some groups =>
          match bindParams (params entry) 0 groups ∅ with
          | Some ps =>
              Some (Returns {| MatchRoute := Declared (route entry);
                               MatchParams := ps; MatchQuery := ∅ |})
          | None => Some Panics
          end
      | None => matchEntries rest path
      end
  end.

Definition Match (r : Registry) (path : string) : outcome (result Error RouteMatch) :=
  match manifest r with
  | None => Returns (Err ManifestNotLoadedError)
  | Some _ =>
      match matchEntries (routes r) path with
      | Some (Returns rm) => Returns (Ok rm)
      | Some Panics => Panics
      | None =>
          match fallback r with
          | Some _ =>
              Returns (Ok {| MatchRoute := FallbackRoute;
                             MatchParams := ∅; MatchQuery := ∅ |})
          | None => Returns (Err (RouteNotFoundError path))
          end
      end
  end.

(** The route [R] at index [i] of the manifest is the first declared route
    whose expression, built as the specification says, matches [path], and
    [groups] is its match. *)
Definition firstDeclaredMatch (m : Manifest) (i : nat) (R : Route) (path : string)
    (groups : list string) : Prop :=
  Routes m !! i = Some R
  /\ (exists re, Compile (specRegex (Pattern R)) = Some re
                 /\ FindStringSubmatch re path = Some groups)
  /\ forall j R', (j < i)%nat -> Routes m !! j = Some R' ->
       exists re', Compile (specRegex (Pattern R')) = Some re'
                   /\ FindStringSubmatch re' path = None.


(** *** Registry queries (manifest.go) *)

(** What the route pointer of an entry points to: the route at that index
    of the loaded manifest. *)
Definition entryRoute (r : Registry) (entry : routeEntry) : option Route :=
  match manifest r with
  | Some m => Routes m !! route entry
  | None => None
  end.

(** [MatchOrFallback]: the error of [Match] is dropped, a nil match is
    returned in its place. *)
Definition MatchOrFallback (r : Registry) (path : string) : outcome (option RouteMatch) :=
  match Match r path with
  | Returns (Ok rm) => Returns (Some rm)
  | Returns (Err _) => Returns None
  | Panics => Panics
  end.

(** [GetRouteContext]; a nil [query] leaves the empty map of [Match]. *)
Definition GetRouteContext (r : Registry) (path : string)
    (query : option (gmap string string)) : outcome (result Error RouteMatch) :=
  match Match r path with
  | Returns (Ok rm) =>
      Returns (Ok match query with
                  | Some q => {| MatchRoute := MatchRoute rm;
                                 MatchParams := MatchParams rm; MatchQuery := q |}
                  | None => rm
                  end)
  | other => other
  end.

(** The loop of [GetByName]; the route found is returned as its pointer. *)
Fixpoint findByName (r : Registry) (entries : list routeEntry) (name : string)
  : option nat :=
  match entries with
  | [] => None
  | entry :: rest =>
      match entryRoute r entry with
      | Some R =>
          if String.eqb (RouteName R) name then Some (route entry)
          else findByName r rest name
      | None => findByName r rest name
      end
  end.

Definition GetByName (r : Registry) (name : string) : option nat :=
  findByName r (routes r) name.

Definition ListRoutes (r : Registry) : list string :=
  omap (fun entry => Pattern <$> entryRoute r entry) (routes r).

Definition ListRouteConfigs (r : Registry) : list nat := route <$> routes r.

(** The map [Stats] returns, by its keys. *)
Record stats := {
  version : string;
  total_routes : nat;
  total_providers : nat;
  total_tools : nat;
  has_fallback : bool
}.

(** [Stats]: the counting loop, then [r.manifest.Version], a nil
    dereference on a registry that was never loaded. *)
Definition Stats (r : Registry) : outcome stats :=
  let '(totalProviders, totalTools) :=
    foldl (fun '(totalProviders, totalTools) entry =>
             match entryRoute r entry with
             | Some R => ((totalProviders + length (Providers (RouteContext R)))%nat,
                          (totalTools + length (Tools R))%nat)
             | None => (totalProviders, totalTools)
             end)
          (O, O) (routes r) in
  match manifest r with
  | None => Panics
  | Some m =>
      Returns {| version := Version m; total_routes := length (routes r);
                 total_providers := totalProviders; total_tools := totalTools;
                 has_fallback := bool_decide (is_Some (fallback r)) |}
  end.

(** *** Properties of route compilation and matching *)

(** The binding loop panics exactly when a parameter has no group. *)
Lemma bindParams_Some names : forall i groups acc,
  is_Some (bindParams names i groups acc)
  <-> forall k, (k < length names)%nat -> is_Some (groups !! S (i + k)).
Proof.
  induction names as [|n names IH]; intros i groups acc; cbn [bindParams length].
  - split; [intros _ k Hk; lia | done].
  - destruct (groups !! S i) as [v|] eqn:Hv.
    + rewrite IH. split.
      * intros H [|k] Hk; [by rewrite Nat.add_0_r, Hv|].
        replace (i + S k)%nat with (S i + k)%nat by lia. apply H. lia.
      * intros H k Hk. replace (S i + k)%nat with (i + S k)%nat by lia. apply H. lia.
    + split; [by intros [? ?]|]. intros H. specialize (H O ltac:(lia)).
      rewrite Nat.add_0_r, Hv in H. by destruct H.
Qed.

Lemma bindParams_groupsFor names groups :
  is_Some (bindParams names 0 groups ∅) <-> groupsFor names groups.
Proof. apply bindParams_Some. Qed.



(** The last position of a name in a list that holds it. *)
Lemma last_position (names : list string) n :
  n ∈ names ->
  exists k, names !! k = Some n /\ forall k', (k < k')%nat -> names !! k' <> Some n.
Proof.
  induction names as [|n0 names IH]; intros Hin; [by apply elem_of_nil in Hin|].
  destruct (decide (n ∈ names)) as [Hin'|Hnot].
  - destruct (IH Hin') as [k [Hk Hlast]]. exists (S k). split; [done|].
    intros [|k'] Hlt; [lia|]. apply Hlast. lia.
  - apply elem_of_cons in Hin as [->|Hin]; [|done]. exists O. split; [done|].
    intros [|k'] Hlt; [lia|]. cbn. intros Hk'. apply Hnot.
    apply list_elem_of_lookup. eauto.
Qed.


(** The binding is determined by the names and the groups. *)
Lemma boundByPosition_unique names groups ps ps' :
  boundByPosition names groups ps -> boundByPosition names groups ps' -> ps = ps'.
Proof.
  intros [Ho Hl] [Ho' Hl']. apply map_eq. intros n.
  destruct (decide (n ∈ names)) as [Hin|Hnot].
  - destruct (last_position _ _ Hin) as [k [Hk Hlast]].
    destruct (Hl _ _ Hk Hlast) as [_ ->]. by destruct (Hl' _ _ Hk Hlast) as [_ ->].
  - by rewrite Ho, Ho'.
Qed.

Lemma compileRoute_Ok i R e :
  compileRoute i R = Ok e ->
  route e = i
  /\ Compile (regexPattern (Pattern R)) = Some (pattern e)
  /\ params e = paramNames (scan None (Pattern R)).
Proof.
  unfold compileRoute. destruct (Compile _) as [re|]; [|done].
  intros H; inversion H; subst e. by cbn.
Qed.

(** The compile loop of [Load]: the entries of the routes before the first
    one that fails, and its error. *)
Lemma compileAll_prefix rs : forall i acc entries err,
  compileAll i rs acc = (entries, err) ->
  exists new, entries = acc ++ new /\ (length new <= length rs)%nat
    /\ (forall k e, new !! k = Some e ->
          exists R, rs !! k = Some R /\ compileRoute (i + k) R = Ok e)
    /\ match err with
       | None => length new = length rs
       | Some e =>
           exists R, rs !! length new = Some R
                     /\ compileRoute (i + length new) R = Err e
       end.
Proof.
  induction rs as [|R0 rs IH]; intros i acc entries err H; cbn [compileAll] in H.
  - inversion H; subst. exists []. rewrite app_nil_r.
    split; [done|]. split; [done|]. split; [|done]. intros k e Hk. done.
  - destruct (compileRoute i R0) as [e0|err0] eqn:Hc.
    + destruct (IH _ _ _ _ H) as (new & -> & Hlen & Hk & Herr).
      exists (e0 :: new). rewrite <- app_assoc. split; [done|]. split; [cbn; lia|]. split.
      * intros [|k] e He; cbn in He.
        -- inversion He; subst e0. exists R0. by rewrite Nat.add_0_r.
        -- destruct (Hk _ _ He) as (R & HR & HcR). exists R. split; [done|].
           by replace (i + S k)%nat with (S i + k)%nat by lia.
      * destruct err as [e|]; [|cbn; lia].
        destruct Herr as (R & HR & HcR). exists R. cbn [length]. split; [done|].
        by replace (i + S (length new))%nat with (S i + length new)%nat by lia.
    + inversion H; subst. exists []. rewrite app_nil_r. split; [done|].
      split; [cbn; lia|]. split; [intros k e Hk; done|].
      exists R0. cbn. by rewrite Nat.add_0_r.
Qed.

Lemma compileAll_entries rs i acc entries :
  compileAll i rs acc = (entries, None) ->
  exists new, entries = acc ++ new /\ length new = length rs
    /\ forall k R, rs !! k = Some R ->
         exists e, new !! k = Some e /\ compileRoute (i + k) R = Ok e.
Proof.
  intros H. destruct (compileAll_prefix _ _ _ _ _ H) as (new & -> & _ & Hk & Hlen).
  exists new. split; [done|]. split; [done|]. intros k R HR.
  destruct (lookup_lt_is_Some_2 new k) as [e He].
  { rewrite Hlen. by apply lookup_lt_Some in HR. }
  exists e. split; [done|]. destruct (Hk _ _ He) as (R' & HR' & Hc). congruence.
Qed.

(** What a successful [Load] leaves in the registry. *)
Lemma Load_Ok r0 m reg :
  Load r0 m = (reg, None) ->
  manifest reg = Some m /\ fallback reg = Fallback m
  /\ length (routes reg) = length (Routes m)
  /\ forall k R, Routes m !! k = Some R ->
       exists e, routes reg !! k = Some e /\ compileRoute k R = Ok e.
Proof.
  unfold Load. destruct (compileAll 0 (Routes m) []) as [entries [err|]] eqn:Hc; [done|].
  intros H; inversion H; subst reg; cbn. clear H.
  destruct (compileAll_entries _ _ _ _ Hc) as (new & -> & Hlen & Hk). cbn. done.
Qed.

Lemma matchEntries_spec es path :
  match matchEntries es path with
  | None => forall k e, es !! k = Some e -> FindStringSubmatch (pattern e) path = None
  | Some out =>
      exists k e groups,
        es !! k = Some e
        /\ FindStringSubmatch (pattern e) path = Some groups
        /\ (forall j e', (j < k)%nat -> es !! j = Some e' ->
              FindStringSubmatch (pattern e') path = None)
        /\ out = match bindParams (params e) 0 groups ∅ with
                 | Some ps => Returns {| MatchRoute := Declared (route e);
                                         MatchParams := ps; MatchQuery := ∅ |}
                 | None => Panics
                 end
  end.
Proof.
  induction es as [|e0 es IH]; cbn [matchEntries]; [done|].
  destruct (FindStringSubmatch (pattern e0) path) as [groups|] eqn:Hm.
  - assert (Hout : forall out, exists k e groups0,
              (e0 :: es) !! k = Some e
              /\ FindStringSubmatch (pattern e) path = Some groups0
              /\ (forall j e', (j < k)%nat -> (e0 :: es) !! j = Some e' ->
                    FindStringSubmatch (pattern e') path = None)
              /\ (out = match bindParams (params e0) 0 groups ∅ with
                        | Some ps => Returns {| MatchRoute := Declared (route e0);
                                                MatchParams := ps; MatchQuery := ∅ |}
                        | None => Panics
                        end ->
                  out = match bindParams (params e) 0 groups0 ∅ with
                        | Some ps => Returns {| MatchRoute := Declared (route e);
                                                MatchParams := ps; MatchQuery := ∅ |}
                        | None => Panics
                        end)).
    { intros out. exists O, e0, groups. repeat split; [done| |done]. intros j e' Hj; lia. }
    destruct (bindParams (params e0) 0 groups ∅) as [ps|] eqn:Hb.
    + destruct (Hout (Returns {| MatchRoute := Declared (route e0);
                                 MatchParams := ps; MatchQuery := ∅ |}))
        as (k & e & g & H1 & H2 & H3 & H4).
      exists k, e, g. auto.
    + destruct (Hout (@Panics RouteMatch)) as (k & e & g & H1 & H2 & H3 & H4).
      exists k, e, g. auto.
  - destruct (matchEntries es path) as [out|].
    + destruct IH as (k & e & groups & Hk & Hg & Hfirst & Hout).
      exists (S k), e, groups. repeat split; [done..| |done].
      intros [|j] e' Hj He'; cbn in He'; [by inversion He'; subst|].
      apply (Hfirst j); [lia | done].
    + intros [|k] e He; cbn in He; [by inversion He; subst|]. by apply (IH k).
Qed.


Lemma Load_entry r0 m reg k e :
  Load r0 m = (reg, None) -> routes reg !! k = Some e ->
  exists R, Routes m !! k = Some R /\ compileRoute k R = Ok e.
Proof.
  intros HL He. destruct (Load_Ok _ _ _ HL) as (_ & _ & Hlen & Hent).
  destruct (lookup_lt_is_Some_2 (Routes m) k) as [R HR].
  - rewrite <- Hlen. by apply lookup_lt_Some in He.
  - exists R. split; [done|]. destruct (Hent _ _ HR) as (e' & He' & Hc). congruence.
Qed.




(** The first declared match is one route with one match. *)
Lemma firstDeclaredMatch_unique m path i R groups i' R' groups' :
  firstDeclaredMatch m i R path groups -> firstDeclaredMatch m i' R' path groups' ->
  i = i' /\ R = R' /\ groups = groups'.
Proof.
  intros (HR & (re & Hre & Hg) & Hfirst) (HR' & (re' & Hre' & Hg') & Hfirst').
  assert (i = i') as <-.
  { destruct (Nat.lt_trichotomy i i') as [Hlt|[Heq|Hgt]]; [|done|].
    - destruct (Hfirst' _ _ Hlt HR) as (re1 & Hre1 & Hnone). congruence.
    - destruct (Hfirst _ _ Hgt HR') as (re1 & Hre1 & Hnone). congruence. }
  assert (R = R') as <- by congruence. split; [done|]. split; [done|]. congruence.
Qed.



(** *** Patterns of literal text, dots and parameters *)
















(** *** The registry after [Load] *)

(** [Load] leaves a manifest in the registry, whatever it returns, and
    the entries of the routes it compiled. *)
Lemma Load_entries r0 m reg err :
  Load r0 m = (reg, err) ->
  is_Some (manifest reg)
  /\ forall k e, routes reg !! k = Some e ->
       exists R, Routes m !! k = Some R /\ compileRoute k R = Ok e.
Proof.
  unfold Load. destruct (compileAll 0 (Routes m) []) as [entries [e|]] eqn:Hc;
    intros H; inversion H; subst; clear H;
    destruct (compileAll_prefix _ _ _ _ _ Hc) as (new & -> & _ & Hk & _);
    (split; [done|]); intros k e' He'; cbn in He'; by apply Hk.
Qed.

(** X2.  Once [Load] has run, with or without a compile error, [Match]
    panics on a path exactly when the first entry whose expression matches
    it has a parameter for which the match holds no group: the binding loop
    then indexes past the groups.  On any other path it returns: a match
    whenever the registry has a fallback, and no other error than
    route-not-found for the path asked. *)
Theorem Match_returns_or_panics (r0 : Registry) (m : Manifest) (reg : Registry)
    (err : option Error) (path : string) :
  Load r0 m = (reg, err) ->
  (Match reg path = Panics
   <-> exists k R e groups,
         Routes m !! k = Some R /\ compileRoute k R = Ok e /\ routes reg !! k = Some e
         /\ FindStringSubmatch (pattern e) path = Some groups
         /\ (forall j e', (j < k)%nat -> routes reg !! j = Some e' ->
               FindStringSubmatch (pattern e') path = None)
         /\ ~ groupsFor (paramNames (scan None (Pattern R))) groups)
  /\ (Match reg path <> Panics ->
      exists res,
        Match reg path = Returns res
        /\ (is_Some (fallback reg) -> is_ok res = true)
        /\ (forall e, res = Err e -> e = RouteNotFoundError path)).
Proof.
  intros HL. destruct (Load_entries _ _ _ _ HL) as [[m' Hman] Hent].
  unfold Match. rewrite Hman.
  pose proof (matchEntries_spec (routes reg) path) as Hspec.
  destruct (matchEntries (routes reg) path) as [out|] eqn:Hme.
  - destruct Hspec as (k & e & groups & Hk & Hg & Hfirst & ->).
    destruct (Hent _ _ Hk) as (R & HR & Hc).
    destruct (compileRoute_Ok _ _ _ Hc) as (_ & _ & Hparams).
    destruct (bindParams (params e) 0 groups ∅) as [ps|] eqn:Hb.
    + split.
      * split; [done|]. intros (k1 & R1 & e1 & g1 & _ & Hc1 & Hk1 & Hg1 & Hfirst1 & Hno).
        exfalso. assert (k1 = k) as ->.
        { destruct (Nat.lt_trichotomy k1 k) as [Hlt|[Heq|Hgt]]; [|done|].
          - specialize (Hfirst _ _ Hlt Hk1). congruence.
          - specialize (Hfirst1 _ _ Hgt Hk). congruence. }
        assert (e1 = e) as -> by congruence. assert (g1 = groups) as -> by congruence.
        destruct (compileRoute_Ok _ _ _ Hc1) as (_ & _ & Hparams1).
        apply Hno. rewrite <- Hparams1. apply bindParams_groupsFor. by rewrite Hb.
      * intros _. eexists. split; [done|]. split; [done|]. intros e0 He0. discriminate He0.
    + split; [|done]. split; [|done]. intros _.
      exists k, R, e, groups. repeat split; try done.
      rewrite <- Hparams. intros Hgroups. apply bindParams_groupsFor in Hgroups.
      rewrite Hb in Hgroups. by destruct Hgroups.
  - split.
    + split; [by destruct (fallback reg)|].
      intros (k & R & e & groups & _ & _ & Hk & Hg & _). specialize (Hspec _ _ Hk). congruence.
    + intros _. destruct (fallback reg) as [fb|].
      * eexists. split; [done|]. split; [done|]. intros e He. discriminate He.
      * eexists. split; [done|]. split; [intros [? ?]; done|].
        intros e He. by inversion He.
Qed.

Lemma findByName_other r es name :
  (forall e R, e ∈ es -> entryRoute r e = Some R -> RouteName R <> name) ->
  findByName r es name = None.
Proof.
  induction es as [|e es IH]; intros Hes; cbn [findByName]; [done|].
  destruct (entryRoute r e) as [R|] eqn:HR.
  - assert (RouteName R <> name) as Hne by (apply (Hes e); [by left | done]).
    apply String.eqb_neq in Hne. rewrite Hne. apply IH.
    intros e' R' He'. apply Hes. by right.
  - apply IH. intros e' R' He'. apply Hes. by right.
Qed.

Lemma Load_entryRoute r0 m reg k e :
  Load r0 m = (reg, None) -> routes reg !! k = Some e ->
  route e = k /\ entryRoute reg e = Routes m !! k.
Proof.
  intros HL He. destruct (Load_entry _ _ _ _ _ HL He) as (R & HR & Hc).
  destruct (compileRoute_Ok _ _ _ Hc) as (Hroute & _).
  destruct (Load_Ok _ _ _ HL) as (Hman & _).
  unfold entryRoute. by rewrite Hman, Hroute.
Qed.

Lemma omap_pointwise {A B} (f : A -> option B) (es : list A) : forall rs : list B,
  length es = length rs -> (forall k e, es !! k = Some e -> f e = rs !! k) ->
  omap f es = rs.
Proof.
  induction es as [|e es IH]; intros [|r rs] Hlen Hk; try done.
  cbn [omap list_omap]. pose proof (Hk O e eq_refl) as H0. cbn in H0. rewrite H0.
  f_equal. apply IH; [by inversion Hlen|]. intros k e' He'. apply (Hk (S k) e' He').
Qed.

Lemma findByName_first r name es : forall i e R,
  es !! i = Some e -> entryRoute r e = Some R -> RouteName R = name ->
  (forall j e' R', (j < i)%nat -> es !! j = Some e' -> entryRoute r e' = Some R' ->
     RouteName R' <> name) ->
  findByName r es name = Some (route e).
Proof.
  induction es as [|e0 es IH]; intros i e R Hi HR Hname Hfirst; [done|].
  cbn [findByName]. destruct i as [|i]; cbn in Hi.
  - inversion Hi; subst e0. rewrite HR, Hname, String.eqb_refl. done.
  - destruct (entryRoute r e0) as [R0|] eqn:HR0.
    + assert (RouteName R0 <> name) as Hne by (apply (Hfirst O e0); [lia | done..]).
      apply String.eqb_neq in Hne. rewrite Hne. apply (IH i e R); try done.
      intros j e' R' Hj. apply (Hfirst (S j)). lia.
    + apply (IH i e R); try done. intros j e' R' Hj. apply (Hfirst (S j)). lia.
Qed.

(** X3.  After a successful [Load] the registry lists the routes of the
    manifest in their order of declaration, and [GetByName] finds the first
    declared route of a name; a name no declared route has is not found,
    even when it is the name of the fallback. *)
Theorem Load_lists_routes (r0 : Registry) (m : Manifest) (reg : Registry) :
  Load r0 m = (reg, None) ->
  ListRoutes reg = Pattern <$> Routes m
  /\ ListRouteConfigs reg = seq 0 (length (Routes m))
  /\ (forall i R, Routes m !! i = Some R ->
        (forall j R', (j < i)%nat -> Routes m !! j = Some R' ->
           RouteName R' <> RouteName R) ->
        GetByName reg (RouteName R) = Some i)
  /\ (forall name, (forall R, R ∈ Routes m -> RouteName R <> name) ->
        GetByName reg name = None).
Proof.
  intros HL. destruct (Load_Ok _ _ _ HL) as (Hman & _ & Hlen & Hent).
  split; [|split; [|split]].
  - unfold ListRoutes. apply omap_pointwise; [by rewrite length_fmap|].
    intros k e He. destruct (Load_entryRoute _ _ _ _ _ HL He) as [_ ->].
    by rewrite list_lookup_fmap.
  - apply list_eq. intros k. unfold ListRouteConfigs. rewrite list_lookup_fmap.
    destruct (routes reg !! k) as [e|] eqn:He.
    + destruct (Load_entryRoute _ _ _ _ _ HL He) as [Hroute _]. cbn. rewrite Hroute.
      symmetry. apply lookup_seq. split; [done|]. rewrite <- Hlen.
      by apply lookup_lt_Some in He.
    + cbn. symmetry. apply lookup_seq_ge. rewrite <- Hlen.
      by apply lookup_ge_None in He.
  - intros i R HR Hfirst. destruct (Hent _ _ HR) as (e & He & Hc).
    destruct (Load_entryRoute _ _ _ _ _ HL He) as [Hroute Her].
    unfold GetByName. rewrite (findByName_first reg (RouteName R) (routes reg) i e R);
      [by rewrite Hroute | done | by rewrite Her | done |].
    intros j e' R' Hj He' HR'.
    destruct (Load_entryRoute _ _ _ _ _ HL He') as [_ Her'].
    apply (Hfirst j); [done|]. by rewrite <- Her'.
  - intros name Hname. unfold GetByName. apply findByName_other.
    intros e R He HR. apply list_elem_of_lookup in He as [k Hk].
    destruct (Load_entryRoute _ _ _ _ _ HL Hk) as [_ Her].
    apply Hname. apply list_elem_of_lookup. exists k. by rewrite <- Her.
Qed.

Lemma compileAll_stops pre R post e : forall i acc,
  (forall k R', pre !! k = Some R' -> exists en, compileRoute (i + k) R' = Ok en) ->
  compileRoute (i + length pre) R = Err e ->
  exists new,
    compileAll i (pre ++ R :: post) acc = (acc ++ new, Some e)
    /\ length new = length pre
    /\ forall k R', pre !! k = Some R' ->
         exists en, new !! k = Some en /\ compileRoute (i + k) R' = Ok en.
Proof.
  induction pre as [|R0 pre IH]; intros i acc Hpre HR; cbn [app compileAll].
  - cbn in HR. rewrite Nat.add_0_r in HR. rewrite HR. exists [].
    rewrite app_nil_r. split; [done|]. split; [done|]. intros k R' Hk. done.
  - destruct (Hpre O R0 eq_refl) as [e0 He0]. rewrite Nat.add_0_r in He0. rewrite He0.
    destruct (IH (S i) (acc ++ [e0])) as (new & Hc & Hlen & Hk).
    + intros k R' Hk. destruct (Hpre (S k) R' Hk) as [en Hen]. exists en.
      by replace (S i + k)%nat with (i + S k)%nat by lia.
    + cbn [length] in HR. by replace (S i + length pre)%nat with (i + S (length pre))%nat by lia.
    + exists (e0 :: new). rewrite Hc, <- app_assoc. split; [done|].
      split; [cbn; lia|]. intros [|k] R' HR'; cbn in HR'.
      * inversion HR'; subst R0. exists e0. by rewrite Nat.add_0_r.
      * destruct (Hk _ _ HR') as (en & Hen & Hcn). exists en. split; [done|].
        by replace (i + S k)%nat with (S i + k)%nat by lia.
Qed.

(** X4.  A [Load] that fails is not undone.  When the routes before the
    route [R] compile and [R] does not, [Load] returns the compile error of
    [R] and leaves the registry with the new manifest, the entries of the
    routes before [R] alone, and the fallback it had before the call. *)
Theorem Load_compile_error (r0 : Registry) (m : Manifest) (pre post : list Route)
    (R : Route) (e : Error) :
  Routes m = pre ++ R :: post ->
  (forall k R', pre !! k = Some R' -> exists en, compileRoute k R' = Ok en) ->
  compileRoute (length pre) R = Err e ->
  exists reg,
    Load r0 m = (reg, Some e)
    /\ e = RouteCompileError (Pattern R)
    /\ manifest reg = Some m /\ fallback reg = fallback r0
    /\ length (routes reg) = length pre
    /\ forall k R', pre !! k = Some R' ->
         exists en, routes reg !! k = Some en /\ compileRoute k R' = Ok en.
Proof.
  intros Hroutes Hpre HR.
  destruct (compileAll_stops pre R post e 0 [] Hpre HR) as (new & Hc & Hlen & Hk).
  unfold Load. rewrite Hroutes, Hc. cbn [app]. eexists. split; [done|]. cbn.
  split; [|done].
  unfold compileRoute in HR. destruct (Compile _); [done|]. by inversion HR.
Qed.

Lemma foldl_counts (f : routeEntry -> option Route) es : forall rs a b,
  length es = length rs -> (forall k e, es !! k = Some e -> f e = rs !! k) ->
  foldl (fun '(totalProviders, totalTools) entry =>
           match f entry with
           | Some R => ((totalProviders + length (Providers (RouteContext R)))%nat,
                        (totalTools + length (Tools R))%nat)
           | None => (totalProviders, totalTools)
           end) (a, b) es
  = ((a + sum_list_with (fun R => length (Providers (RouteContext R))) rs)%nat,
     (b + sum_list_with (fun R => length (Tools R)) rs)%nat).
Proof.
  induction es as [|e es IH]; intros [|R rs] a b Hlen Hk; try done.
  - cbn. f_equal; lia.
  - cbn [foldl]. pose proof (Hk O e eq_refl) as H0. cbn in H0. rewrite H0.
    rewrite (IH rs); [|by inversion Hlen|intros k e' He'; apply (Hk (S k) e' He')].
    cbn [sum_list_with]. f_equal; lia.
Qed.

(** X5.  After a successful [Load], [Stats] reports the version of the
    manifest, the number of its routes, the providers and the tools summed
    over the routes (those of the fallback are not counted) and whether
    there is a fallback.  On a registry that holds no manifest [Stats] does
    not return: it dereferences the nil manifest. *)
Theorem Stats_counts (r0 : Registry) (m : Manifest) (reg : Registry) :
  (Load r0 m = (reg, None) ->
   Stats reg
   = Returns {| version := Version m;
                total_routes := length (Routes m);
                total_providers :=
                  sum_list_with (fun R => length (Providers (RouteContext R))) (Routes m);
                total_tools := sum_list_with (fun R => length (Tools R)) (Routes m);
                has_fallback := bool_decide (is_Some (Fallback m)) |})
  /\ (manifest r0 = None -> Stats r0 = Panics).
Proof.
  split.
  - intros HL. destruct (Load_Ok _ _ _ HL) as (Hman & Hfb & Hlen & _).
    unfold Stats.
    rewrite (foldl_counts (entryRoute reg) (routes reg) (Routes m) 0 0 Hlen).
    + by rewrite Hman, Hfb, Hlen.
    + intros k e He. by destruct (Load_entryRoute _ _ _ _ _ HL He).
  - intros Hman. unfold Stats. rewrite Hman. by destruct (foldl _ _ _).
Qed.

End Registry.

(** *** The reference implementation as the registry's [regexp] *)


(** *** A manifest with three routes *)

Definition exRoute (pat name : string) : Route :=
  {| Pattern := pat; RouteName := name; Description := "";
     RouteContext := {| Providers := [] |}; Tools := []; AgentInstructions := "" |}.

Definition exManifest : Manifest :=
  {| Version := "1";
     Routes := [exRoute "/products/:id" "product";
                exRoute "/users/:id/orders/:id" "orders";
                exRoute "/products/new" "new"];
     Fallback := None |}.


(** The first declared match wins, and the repeated name takes its last
    capture. *)
Example Match_examples :
  match Load Regexp.Compile NewRegistry exManifest with
  | (reg, None) =>
      Match Regexp.FindStringSubmatch reg "/products/new"
      = Returns (Ok {| MatchRoute := Declared 0; MatchParams := {["id" := "new"]};
                       MatchQuery := ∅ |})
      /\ Match Regexp.FindStringSubmatch reg "/users/7/orders/9"
         = Returns (Ok {| MatchRoute := Declared 1; MatchParams := {["id" := "9"]};
                          MatchQuery := ∅ |})
      /\ Match Regexp.FindStringSubmatch reg "/users/7"
         = Returns (Err (RouteNotFoundError "/users/7"))
  | _ => False
  end.
Proof. vm_compute. repeat split. Qed.




(** A dotted pattern is a plain one: the dot reads any one rune. *)
Example Match_dotted :
  plainPattern "/files/:name.json" = true
  /\ match Load Regexp.Compile NewRegistry
             {| Version := "1"; Routes := [exRoute "/files/:name.json" "file"];
                Fallback := None |} with
     | (reg, None) =>
         Match Regexp.FindStringSubmatch reg "/files/report.json"
         = Returns (Ok {| MatchRoute := Declared 0; MatchParams := {["name" := "report"]};
                          MatchQuery := ∅ |})
         /\ Match Regexp.FindStringSubmatch reg "/files/a/b.json"
            = Returns (Err (RouteNotFoundError "/files/a/b.json"))
     | _ => False
     end.
Proof. vm_compute. repeat split. Qed.

(** *** Properties of validation *)

Lemma validateRoutes_route names routes i r :
  routes !! i = Some r ->
  (forall e, validateRoute r = Some e -> e ∈ validateRoutes names routes)
  /\ (forall e, compileRoutePattern r = Err e -> e ∈ validateRoutes names routes).
Proof.
  revert names i. induction routes as [|r0 rest IH]; intros names i Hi; [done|].
  destruct i as [|i]; cbn [lookup list_lookup] in Hi.
  - inversion Hi; subst r0. cbn [validateRoutes]. unfold routeErrors.
    split; intros e He; rewrite He; cbn [opt_to_list err_to_list];
      rewrite !elem_of_app, !elem_of_cons; tauto.
  - destruct (IH ({[RouteName r0]} ∪ names) i Hi) as [H1 H2].
    split; intros e He; cbn [validateRoutes]; apply elem_of_app; right; auto.
Qed.

Lemma validateRoutes_seen names routes i r :
  routes !! i = Some r -> RouteName r ∈ names ->
  DuplicateRouteNameError (RouteName r) ∈ validateRoutes names routes.
Proof.
  revert names i. induction routes as [|r0 rest IH]; intros names i Hi Hin; [done|].
  destruct i as [|i]; cbn [lookup list_lookup] in Hi.
  - inversion Hi; subst r0. cbn [validateRoutes]. unfold routeErrors.
    destruct (decide (RouteName r ∈ names)) as [_|Hn]; [|done].
    rewrite !elem_of_app, !elem_of_cons; tauto.
  - cbn [validateRoutes]. apply elem_of_app. right. apply (IH _ i Hi). set_solver.
Qed.

Lemma validateRoutes_duplicate names routes i j r r' :
  (j < i)%nat -> routes !! j = Some r' -> routes !! i = Some r ->
  RouteName r' = RouteName r ->
  DuplicateRouteNameError (RouteName r) ∈ validateRoutes names routes.
Proof.
  revert names i j. induction routes as [|r0 rest IH]; intros names i j Hlt Hj Hi Heq; [done|].
  destruct i as [|i]; [lia|]. cbn [lookup list_lookup] in Hi.
  destruct j as [|j]; cbn [lookup list_lookup] in Hj.
  - inversion Hj; subst r0. cbn [validateRoutes]. apply elem_of_app. right.
    apply (validateRoutes_seen _ _ i r Hi). rewrite Heq. set_solver.
  - cbn [validateRoutes]. apply elem_of_app. right. apply (IH _ i j); [lia|done..].
Qed.

(** Where the accumulated list is empty every route passed every check and
    no name was seen twice. *)
Lemma validateRoutes_nil names routes :
  validateRoutes names routes = [] ->
  forall i r, routes !! i = Some r ->
    validateRoute r = None /\ is_ok (compileRoutePattern r) = true
    /\ (RouteName r ∉ names)
    /\ forall j r', (j < i)%nat -> routes !! j = Some r' -> RouteName r' <> RouteName r.
Proof.
  revert names. induction routes as [|r0 rest IH]; intros names Hnil i r Hi; [done|].
  cbn [validateRoutes] in Hnil. apply app_eq_nil in Hnil as [Hhd Htl].
  unfold routeErrors in Hhd.
  apply app_eq_nil in Hhd as [Hv Hhd]. apply app_eq_nil in Hhd as [Hd Hc].
  destruct i as [|i]; cbn [lookup list_lookup] in Hi.
  - inversion Hi; subst r0. repeat split.
    + by destruct (validateRoute r).
    + by destruct (compileRoutePattern r).
    + by destruct (decide (RouteName r ∈ names)).
    + intros j r' Hj; lia.
  - destruct (IH _ Htl i r Hi) as (H1 & H2 & H3 & H4). repeat split; [done..| |].
    + intros Hin. apply H3, elem_of_union. by right.
    + intros [|j] r' Hj Hr'; cbn [lookup list_lookup] in Hr'.
      * inversion Hr'; subst r0. intros Heq. apply H3, elem_of_union. left.
        by apply elem_of_singleton.
      * apply (H4 j r'); [lia|done].
Qed.

(** C6 (as amended).  [ValidateManifest] stops at an empty version, then at
    an empty route list, each reported alone.  Past these two checks the
    errors are gathered: every route contributes the first violation
    [validateRoute] finds in it (and no further one), a duplicate-name
    error when an earlier route has its name, and the pattern error of
    [compileRoutePattern]; the fallback contributes its [validateRoute]
    error; and they come back together in one multiple-validation error,
    or none when there is nothing to report. *)
Theorem ValidateManifest_accumulates_per_route (m : Manifest) :
  (Version m = "" -> ValidateManifest m = Some MissingVersionError)
  /\ (Version m <> "" -> Routes m = [] -> ValidateManifest m = Some MissingRoutesError)
  /\ (Version m <> "" -> Routes m <> [] ->
      match ValidateManifest m with
      | None =>
          (forall i r, Routes m !! i = Some r ->
             validateRoute r = None /\ is_ok (compileRoutePattern r) = true
             /\ forall j r', (j < i)%nat -> Routes m !! j = Some r' ->
                  RouteName r' <> RouteName r)
          /\ (forall fb, Fallback m = Some fb -> validateRoute fb = None)
      | Some (MultipleValidationErrors errs) =>
          errs <> []
          /\ (forall i r, Routes m !! i = Some r ->
               (forall e, validateRoute r = Some e -> e ∈ errs)
               /\ (forall e, compileRoutePattern r = Err e -> e ∈ errs)
               /\ (forall j r', (j < i)%nat -> Routes m !! j = Some r' ->
                    RouteName r' = RouteName r ->
                    DuplicateRouteNameError (RouteName r) ∈ errs))
          /\ (forall fb e, Fallback m = Some fb -> validateRoute fb = Some e -> e ∈ errs)
      | Some _ => False
      end).
Proof.
  unfold ValidateManifest. split; [|split].
  - intros ->. reflexivity.
  - intros Hv ->. apply String.eqb_neq in Hv. rewrite Hv. reflexivity.
  - intros Hv Hr. apply String.eqb_neq in Hv. rewrite Hv.
    destruct (Routes m) as [|r0 rest] eqn:Hroutes; [done|]. cbn [length Nat.eqb].
    rewrite <- Hroutes. clear Hr.
    set (errs := validateRoutes ∅ (Routes m) ++ _).
    destruct errs as [|e0 errs'] eqn:Herrs; cbn [length Nat.ltb Nat.leb].
    + subst errs. apply app_eq_nil in Herrs as [H1 H2]. split.
      * intros i r Hi. destruct (validateRoutes_nil _ _ H1 i r Hi) as (?&?&?&?). auto.
      * intros fb Hfb. rewrite Hfb in H2. by destruct (validateRoute fb).
    + rewrite <- Herrs. split; [by rewrite Herrs|]. subst errs. split.
      * intros i r Hi. destruct (validateRoutes_route ∅ _ i r Hi) as [H1 H2].
        repeat split; intros; apply elem_of_app; left; eauto using validateRoutes_duplicate.
      * intros fb e Hfb He. apply elem_of_app. right. rewrite Hfb, He.
        apply elem_of_cons. by left.
Qed.

Lemma ValidateManifest_accumulates_per_route_witness :
  let m := {| Version := "1";
              Routes := [exRoute "" "a"; exRoute "b" "a"];
              Fallback := Some (exRoute "/f" "") |} in
  Version m <> "" /\ Routes m <> []
  /\ ValidateManifest m
     = Some (MultipleValidationErrors
               [MissingRoutePatternError "a"; DuplicateRouteNameError "a";
                InvalidPatternError "b"; MissingRouteNameError "/f"])
  /\ match ValidateManifest m with
     | None =>
         (forall i r, Routes m !! i = Some r ->
            validateRoute r = None /\ is_ok (compileRoutePattern r) = true
            /\ forall j r', (j < i)%nat -> Routes m !! j = Some r' ->
                 RouteName r' <> RouteName r)
         /\ (forall fb, Fallback m = Some fb -> validateRoute fb = None)
     | Some (MultipleValidationErrors errs) =>
         errs <> []
         /\ (forall i r, Routes m !! i = Some r ->
              (forall e, validateRoute r = Some e -> e ∈ errs)
              /\ (forall e, compileRoutePattern r = Err e -> e ∈ errs)
              /\ (forall j r', (j < i)%nat -> Routes m !! j = Some r' ->
                   RouteName r' = RouteName r ->
                   DuplicateRouteNameError (RouteName r) ∈ errs))
         /\ (forall fb e, Fallback m = Some fb -> validateRoute fb = Some e -> e ∈ errs)
     | Some _ => False
     end.
Proof.
  intros m. split; [discriminate|]. split; [discriminate|]. split; [reflexivity|].
  apply (ValidateManifest_accumulates_per_route m); discriminate.
Defined.

(** C6 as stated fails: a manifest with an empty version and no route
    breaks two rules, and only the first is reported. *)
Lemma ValidateManifest_reports_first_only :
  let m := {| Version := ""; Routes := []; Fallback := None |} in
  Version m = "" /\ Routes m = []
  /\ ~ (reports (ValidateManifest m) MissingVersionError
        /\ reports (ValidateManifest m) MissingRoutesError).
Proof.
  cbn. repeat split. intros [_ [H|[errs [H _]]]]; discriminate H.
Qed.

(** *** What validation accepts *)

Lemma validateProvider_None p : validateProvider p = None <-> validProvider p.
Proof.
  unfold validateProvider, validProvider.
  destruct (String.eqb_spec (Type_ p) ""); [split; [done | tauto]|].
  destruct (String.eqb_spec (Name p) ""); [split; [done | tauto]|].
  destruct (String.eqb_spec (Type_ p) "http"), (String.eqb_spec (URL p) ""); cbn;
    split; try done; tauto.
Qed.

Lemma validateProviders_None ps :
  validateProviders ps = None <-> forall p, p ∈ ps -> validProvider p.
Proof.
  induction ps as [|p ps IH]; cbn [validateProviders].
  - split; [|done]. intros _ p Hp. by apply elem_of_nil in Hp.
  - pose proof (validateProvider_None p) as Hp.
    destruct (validateProvider p) as [e|].
    + split; [done|]. intros Hall.
      assert (validProvider p) as Hv by (apply Hall; by left).
      apply Hp in Hv. done.
    + rewrite IH. split.
      * intros Hall q Hq. apply elem_of_cons in Hq as [->|Hq]; [by apply Hp | by apply Hall].
      * intros Hall q Hq. apply Hall. by right.
Qed.

Lemma validateRoute_None R : validateRoute R = None <-> validRoute R.
Proof.
  unfold validateRoute, validRoute.
  destruct (String.eqb_spec (Pattern R) ""); [split; [done | tauto]|].
  destruct (String.eqb_spec (RouteName R) ""); [split; [done | tauto]|].
  rewrite validateProviders_None. tauto.
Qed.

Lemma validateRoutes_accepts routes : forall names,
  (forall R, R ∈ routes ->
     validRoute R /\ Strings.HasPrefix (Pattern R) "/" = true /\ RouteName R ∉ names) ->
  NoDup (RouteName <$> routes) ->
  validateRoutes names routes = [].
Proof.
  induction routes as [|R rest IH]; intros names Hall Hnd; cbn [validateRoutes]; [done|].
  cbn in Hnd. apply NoDup_cons in Hnd as [Hfresh Hnd].
  destruct (Hall R) as (Hv & Hp & Hn); [by left|].
  unfold routeErrors, compileRoutePattern.
  apply validateRoute_None in Hv. rewrite Hv, Hp.
  destruct (decide (RouteName R ∈ names)); [done|]. cbn.
  apply IH; [|done]. intros R' HR'.
  destruct (Hall R') as (Hv' & Hp' & Hn'); [by right|]. split; [done|]. split; [done|].
  intros Hin. apply elem_of_union in Hin as [Hin|Hin]; [|done].
  apply elem_of_singleton in Hin. apply Hfresh. rewrite <- Hin.
  apply list_elem_of_fmap. by exists R'.
Qed.

(** X1.  [ValidateManifest] returns no error exactly for the manifests with
    a version and at least one route, whose routes each have a name, a
    pattern that starts with a slash and valid providers, no two routes
    sharing a name, and whose fallback, if any, has a pattern, a name and
    valid providers.  The fallback's pattern need not start with a slash
    and its name may be that of a route. *)
Theorem ValidateManifest_accepts (m : Manifest) :
  ValidateManifest m = None
  <-> Version m <> "" /\ Routes m <> []
      /\ (forall R, R ∈ Routes m ->
            validRoute R /\ Strings.HasPrefix (Pattern R) "/" = true)
      /\ NoDup (RouteName <$> Routes m)
      /\ (forall fb, Fallback m = Some fb -> validRoute fb).
Proof.
  unfold ValidateManifest.
  destruct (String.eqb_spec (Version m) "") as [Hv|Hv]; [split; [done | tauto]|].
  destruct (Routes m) as [|R0 rest] eqn:HR; cbn [length Nat.eqb]; [split; [done | tauto]|].
  rewrite <- HR.
  set (errs := validateRoutes ∅ (Routes m) ++ _).
  assert (Hnil : errs = [] <->
            validateRoutes ∅ (Routes m) = []
            /\ forall fb, Fallback m = Some fb -> validRoute fb).
  { unfold errs. split.
    - intros Happ. apply app_eq_nil in Happ as [H1 H2]. split; [done|].
      intros fb Hfb. rewrite Hfb in H2. apply validateRoute_None.
      by destruct (validateRoute fb).
    - intros [H1 H2]. rewrite H1. cbn. destruct (Fallback m) as [fb|]; [|done].
      specialize (H2 fb eq_refl). apply validateRoute_None in H2. by rewrite H2. }
  destruct errs as [|e errs'] eqn:He; cbn [length Nat.ltb Nat.leb].
  - destruct Hnil as [Hnil _]. destruct (Hnil eq_refl) as [Hroutes Hfb].
    split; [|done]. intros _. split; [done|]. split; [by rewrite HR|].
    split; [|split; [|done]].
    + intros R HRin. apply list_elem_of_lookup in HRin as [i Hi].
      destruct (validateRoutes_nil _ _ Hroutes i R Hi) as (H1 & H2 & _).
      split; [by apply validateRoute_None|].
      unfold compileRoutePattern in H2. apply validateRoute_None in H1 as (Hp & _).
      destruct (Strings.HasPrefix (Pattern R) "/"); [done|]. cbn in H2.
      apply String.eqb_neq in Hp. by rewrite Hp in H2.
    + apply NoDup_alt. intros i j n Hi Hj.
      apply list_lookup_fmap_Some in Hi as (Ri & -> & HRi).
      apply list_lookup_fmap_Some in Hj as (Rj & Heq & HRj).
      destruct (Nat.lt_trichotomy i j) as [Hlt|[->|Hgt]]; [|done|].
      * destruct (validateRoutes_nil _ _ Hroutes j Rj HRj) as (_ & _ & _ & Hd).
        by destruct (Hd i Ri Hlt HRi).
      * destruct (validateRoutes_nil _ _ Hroutes i Ri HRi) as (_ & _ & _ & Hd).
        by destruct (Hd j Rj Hgt HRj).
  - split; [done|]. intros (_ & _ & Hall & Hnd & Hfb). exfalso.
    destruct Hnil as [_ Hnil]. discriminate Hnil. split; [|done].
    apply validateRoutes_accepts; [|done].
    intros R HRin. destruct (Hall R HRin). split; [done|]. split; [done|]. set_solver.
Qed.

(** *** A shop with a fallback, and a manifest that does not compile *)

Definition shopRoute (pat name : string) (providers : list Provider) : Route :=
  {| Pattern := pat; RouteName := name; Description := "";
     RouteContext := {| Providers := providers |}; Tools := [];
     AgentInstructions := "" |}.

Definition shopProvider (name : string) : Provider :=
  {| Type_ := "http"; Name := name; URL := "http://backend/" +:+ name; Method := "";
     Headers := ∅; Body := None; Timeout := ""; Params := ∅; Condition := "";
     Optional := false |}.

Definition shopManifest : Manifest :=
  {| Version := "1";
     Routes := [shopRoute "/cart" "cart" [shopProvider "cart"];
                shopRoute "/items/:id" "item" [shopProvider "item"; shopProvider "stock"]];
     Fallback := Some (shopRoute "*" "help" []) |}.

Definition brokenManifest : Manifest :=
  {| Version := "1";
     Routes := [shopRoute "/cart" "cart" []; shopRoute "/items/(:id" "item" [];
                shopRoute "/orders" "orders" []];
     Fallback := Some (shopRoute "*" "help" []) |}.

(** The second route of [brokenManifest] has a syntax error: its
    parenthesis is not closed. *)
Example brokenManifest_syntax_error :
  regexPattern "/items/(:id" = "^/items/(([^/]+)$"
  /\ Regexp.parse (regexPattern "/items/(:id") = Regexp.CompileError.
Proof. vm_compute. by split. Qed.

Lemma Match_returns_or_panics_witness :
  exists reg,
    Load Regexp.Compile NewRegistry shopManifest = (reg, None)
    /\ (Match Regexp.FindStringSubmatch reg "/nowhere" = Panics
        <-> exists k R e groups,
              Routes shopManifest !! k = Some R
              /\ compileRoute Regexp.Compile k R = Ok e /\ routes reg !! k = Some e
              /\ Regexp.FindStringSubmatch (pattern e) "/nowhere" = Some groups
              /\ (forall j e', (j < k)%nat -> routes reg !! j = Some e' ->
                    Regexp.FindStringSubmatch (pattern e') "/nowhere" = None)
              /\ ~ groupsFor (paramNames (scan None (Pattern R))) groups)
    /\ (Match Regexp.FindStringSubmatch reg "/nowhere" <> Panics ->
        exists res,
          Match Regexp.FindStringSubmatch reg "/nowhere" = Returns res
          /\ (is_Some (fallback reg) -> is_ok res = true)
          /\ (forall e, res = Err e -> e = RouteNotFoundError "/nowhere")).
Proof.
  eexists. split; [vm_compute; reflexivity|].
  apply (Match_returns_or_panics Regexp.Compile Regexp.FindStringSubmatch
           NewRegistry shopManifest _ None "/nowhere").
  vm_compute. reflexivity.
Defined.

Lemma Load_lists_routes_witness :
  exists reg,
    Load Regexp.Compile NewRegistry shopManifest = (reg, None)
    /\ ListRoutes reg = Pattern <$> Routes shopManifest
    /\ ListRouteConfigs reg = seq 0 (length (Routes shopManifest))
    /\ (forall i R, Routes shopManifest !! i = Some R ->
          (forall j R', (j < i)%nat -> Routes shopManifest !! j = Some R' ->
             RouteName R' <> RouteName R) ->
          GetByName reg (RouteName R) = Some i)
    /\ (forall name, (forall R, R ∈ Routes shopManifest -> RouteName R <> name) ->
          GetByName reg name = None).
Proof.
  eexists. split; [vm_compute; reflexivity|].
  apply (Load_lists_routes Regexp.Compile NewRegistry shopManifest). vm_compute. reflexivity.
Defined.

Lemma Load_compile_error_witness :
  exists reg,
    Load Regexp.Compile NewRegistry brokenManifest
    = (reg, Some (RouteCompileError "/items/(:id"))
    /\ RouteCompileError "/items/(:id" = RouteCompileError "/items/(:id"
    /\ manifest reg = Some brokenManifest /\ fallback reg = None
    /\ length (routes reg) = 1%nat
    /\ forall k R', [shopRoute "/cart" "cart" []] !! k = Some R' ->
         exists en, routes reg !! k = Some en /\ compileRoute Regexp.Compile k R' = Ok en.
Proof.
  apply (Load_compile_error Regexp.Compile NewRegistry brokenManifest
           [shopRoute "/cart" "cart" []] [shopRoute "/orders" "orders" []]
           (shopRoute "/items/(:id" "item" []) (RouteCompileError "/items/(:id")).
  - reflexivity.
  - intros [|k] R' Hk; [|done]. inversion Hk; subst R'. eexists. vm_compute. reflexivity.
  - vm_compute. reflexivity.
Defined.

Lemma Stats_counts_witness :
  exists reg,
    Load Regexp.Compile NewRegistry shopManifest = (reg, None)
    /\ Stats reg
       = Returns {| version := "1"; total_routes := 2; total_providers := 3;
                    total_tools := 0; has_fallback := true |}.
Proof.
  eexists. split; [vm_compute; reflexivity|].
  apply (proj1 (Stats_counts Regexp.Compile NewRegistry shopManifest _)). vm_compute. reflexivity.
Defined.

(** ** Manifest file formats *)

Inductive Format := FormatYAML | FormatJSON | FormatUnknown.

(** [GetFormatFromPath]; [None] where [strings.ToLower] is not modelled. *)
Definition GetFormatFromPath (path : string) : option Format :=
  ext ← Strings.ToLower (Strings.Ext path);
  Some (if String.eqb ext ".json" then FormatJSON
        else if String.eqb ext ".yaml" || String.eqb ext ".yml" then FormatYAML
        else FormatUnknown).

Section Formats.

(** [strings.TrimSpace]. *)
Variable TrimSpace : string -> string.

(** [DetectFormat]; [data] is the file's content. *)
Definition DetectFormat (filepath data : string) : option Format :=
  ext ← Strings.ToLower filepath;
  Some (if Strings.HasSuffix ext ".json" then FormatJSON
        else if Strings.HasSuffix ext ".yaml" || Strings.HasSuffix ext ".yml"
        then FormatYAML
        else
          let trimmed := TrimSpace data in
          if Strings.HasPrefix trimmed "{" || Strings.HasPrefix trimmed "["
          then FormatJSON
          else FormatYAML).

(** X30. On a path of ASCII bytes the two format detectors agree: when
    [GetFormatFromPath] knows the extension, [DetectFormat] returns that
    format whatever the content is; when it answers [FormatUnknown],
    [DetectFormat] decides by the content alone, JSON if the trimmed content
    starts with a brace or a bracket and YAML otherwise.  [DetectFormat]
    never answers [FormatUnknown]. *)
Theorem DetectFormat_extension (path data : string) :
  Strings.allASCII path = true ->
  exists f,
    GetFormatFromPath path = Some f
    /\ DetectFormat path data
       = Some match f with
              | FormatUnknown =>
                  if Strings.HasPrefix (TrimSpace data) "{"
                     || Strings.HasPrefix (TrimSpace data) "["
                  then FormatJSON else FormatYAML
              | _ => f
              end
    /\ DetectFormat path data <> Some FormatUnknown.
Proof.
  intros Hascii. unfold GetFormatFromPath, DetectFormat, Strings.ToLower.
  destruct (Strings.Ext_suffix path) as [pre Hpre].
  assert (Hext : Strings.allASCII (Strings.Ext path) = true).
  { rewrite Hpre, Strings.allASCII_app in Hascii.
    by apply andb_true_iff in Hascii as [_ ?]. }
  rewrite Hascii, Hext. cbn [mbind option_bind].
  rewrite !Strings.Ext_lower by done.
  destruct (String.eqb _ ".json"); [by eexists|].
  destruct (String.eqb _ ".yaml"); [by eexists|].
  destruct (String.eqb _ ".yml"); [by eexists|].
  eexists. split; [done|]. cbn [orb]. split; [done|].
  by destruct (_ || _).
Qed.

End Formats.

Lemma DetectFormat_extension_witness :
  Strings.allASCII "conf/App.JSON" = true
  /\ exists f,
       GetFormatFromPath "conf/App.JSON" = Some f
       /\ DetectFormat (fun s => s) "conf/App.JSON" "routes: []"
          = Some match f with
                 | FormatUnknown =>
                     if Strings.HasPrefix "routes: []" "{"
                        || Strings.HasPrefix "routes: []" "["
                     then FormatJSON else FormatYAML
                 | _ => f
                 end
       /\ DetectFormat (fun s => s) "conf/App.JSON" "routes: []" <> Some FormatUnknown.
Proof.
  split; [reflexivity|].
  apply (DetectFormat_extension (fun s => s) "conf/App.JSON" "routes: []").
  reflexivity.
Defined.

End Manifest.

(** ** Package [context]: providers and the context builder *)

Module Context.

Inductive Error : Type :=
| ProviderFailedError (providerName : string) (cause : string)
| ProviderNotFoundError (providerName : string)
| ProviderTimeoutError (providerName : string)
| MultipleProvidersFailedError (failedProviders : list string) (errors : list Error)
| BuildFailedError (cause : Error)
| InvalidRouteMatchError
| MissingRouteConfigError
| ProviderLoadFailedError (providerName : string) (cause : Error)
| UnsupportedProviderTypeError (providerType : string)
| InvalidProviderConfigError (providerName reason : string).

(** The [Provider] interface (provider.go): a name and a fetch.  The fetch
    is a function of the parameters; what the network answers is part of
    the provider. *)
Record Provider := {
  Name : string;
  GetContext : gmap string any -> result Error any
}.

Record ProviderClient := { providers : gmap string Provider }.

(** [NewProviderClient]: a later provider replaces an earlier one of the
    same name. *)
Definition NewProviderClient (ps : list Provider) : ProviderClient :=
  {| providers := foldl (fun providerMap provider => <[Name provider := provider]> providerMap) ∅ ps |}.

Definition Get (c : ProviderClient) (name : string) (params : gmap string any)
  : result Error any :=
  match providers c !! name with
  | None => Err (ProviderNotFoundError name)
  | Some provider => GetContext provider params
  end.

(** The collecting loop of [GetAll], over the results in the order in
    which the goroutines send them. *)
Fixpoint collectAll (arrivals : list (string * Provider)) (params : gmap string any)
    (results : gmap string any) (errors : list Error) : gmap string any * list Error :=
  match arrivals with
  | [] => (results, errors)
  | (n, p) :: rest =>
      match GetContext p params with
      | Err e => collectAll rest params results (errors ++ [e])
      | Ok data => collectAll rest params (<[n := data]> results) errors
      end
  end.

(** [getErrorNames] keeps the message of each error; the error stands for
    its message here. *)
Definition getErrorNames (errors : list Error) : list Error := errors.

(** [GetAll]; [arrivals] is the order of arrival of the results, a
    permutation of the entries of the provider map. *)
Definition GetAll (c : ProviderClient) (arrivals : list (string * Provider))
    (params : gmap string any) : gmap string any * option (list Error * list Error) :=
  let '(results, errors) := collectAll arrivals params ∅ [] in
  if (0 <? length errors)%nat
  then (results, Some (getErrorNames errors, errors))
  else (results, None).

(** *** The builder (builder.go) *)

Record User := { ID : string; Email : string; UserName : string; Token : string }.

(** [User.IsAuthenticated], on a possibly nil user. *)
Definition IsAuthenticated (u : option User) : bool :=
  match u with Some u => negb (String.eqb (ID u) "") | None => false end.

Record FrontendContext := { AnonymousID : string; CustomData : gmap string any }.

(** [manifest.RouteMatch] as the builder reads it: the route pointer is
    dereferenced ([None] for nil). *)
Record RouteMatch := {
  Route : option Manifest.Route;
  Params : gmap string string;
  Query : gmap string string
}.

Record RouteInfo := {
  Path : string;
  RouteName : string;
  RouteParams : gmap string string;
  RouteQuery : gmap string string
}.

Record FullContext := {
  RouteOf : RouteInfo;
  UserOf : option User;
  Frontend : option FrontendContext;
  Backend : gmap string any;
  Instructions : string;
  AvailableTools : list string
}.

Definition extractToolNames (tools : list Manifest.Tool) : list string :=
  map Manifest.ToolName tools.

Record HTTPConfig := {
  URL : string;
  Method : string;
  Headers : gmap string string;
  Body : option any;
  Timeout : Z
}.

Definition second : Z := 1000000000.

(** [User.IsAnonymous], on a possibly nil user. *)
Definition IsAnonymous (u : option User) : bool :=
  match u with Some u => Strings.HasPrefix (ID u) "anon_" | None => false end.

(** [ProviderLoader.ValidateProviderConfig] (loader.go). *)
Definition ValidateProviderConfig (config : Manifest.Provider) : option Error :=
  if String.eqb (Manifest.Name config) ""
  then Some (InvalidProviderConfigError "" "provider name is required")
  else if String.eqb (Manifest.Type_ config) ""
  then Some (InvalidProviderConfigError (Manifest.Name config) "provider type is required")
  else if String.eqb (Manifest.Type_ config) "http"
  then
    if String.eqb (Manifest.URL config) ""
    then Some (InvalidProviderConfigError (Manifest.Name config)
                 "URL is required for HTTP provider")
    else None
  else Some (UnsupportedProviderTypeError (Manifest.Type_ config)).

(** [BuildMinimal]: the context of a route without its providers. *)
Definition BuildMinimal (routeMatch : option RouteMatch) (user : option User)
  : result Error FullContext :=
  match routeMatch with
  | None => Err InvalidRouteMatchError
  | Some routeMatch =>
      match Route routeMatch with
      | None => Err MissingRouteConfigError
      | Some route =>
          Ok {| RouteOf := {| Path := Manifest.Pattern route;
                              RouteName := Manifest.RouteName route;
                              RouteParams := Params routeMatch;
                              RouteQuery := Query routeMatch |};
                UserOf := user;
                Frontend := None;
                Backend := ∅;
                Instructions := Manifest.AgentInstructions route;
                AvailableTools := extractToolNames (Manifest.Tools route) |}
      end
  end.

(** The error a provider answers with, if it fails. *)
Definition failure (params : gmap string any) (np : string * Provider) : option Error :=
  match GetContext np.2 params with Err e => Some e | Ok _ => None end.

Section Builder.

(** What lies outside the repository: the order in which Go ranges over
    a map (any enumeration of its entries), [fmt]'s rendering of a value,
    [time.ParseDuration], and the HTTP round trip of a provider with its
    decoding of the answer. *)
Variable rangeOf : gmap string any -> list (string * any).
Hypothesis rangeOf_perm : forall m, rangeOf m ≡ₚ map_to_list m.
Variable Sprint : any -> string.
Variable ParseDuration : string -> option Z.
Variable httpGetContext : string -> HTTPConfig -> gmap string any -> result Error any.
Variable Getenv : string -> string.

(** [NewHTTPProvider], with its defaults. *)
Definition NewHTTPProvider (name : string) (config : HTTPConfig) : Provider :=
  let config :=
    if String.eqb (Method config) ""
    then {| URL := URL config; Method := "GET"; Headers := Headers config;
            Body := Body config; Timeout := Timeout config |}
    else config in
  let config :=
    if Timeout config =? 0
    then {| URL := URL config; Method := Method config; Headers := Headers config;
            Body := Body config; Timeout := 10 * second |}
    else config in
  {| Name := name; GetContext := httpGetContext name config |}.

Definition createHTTPProvider (config : Manifest.Provider) : result Error Provider :=
  if String.eqb (Manifest.URL config) ""
  then Err (InvalidProviderConfigError (Manifest.Name config)
              "URL is required for HTTP provider")
  else
    let timeout :=
      if String.eqb (Manifest.Timeout config) "" then Some (10 * second)
      else ParseDuration (Manifest.Timeout config) in
    match timeout with
    | None => Err (InvalidProviderConfigError (Manifest.Name config)
                     ("invalid timeout format: " +:+ Manifest.Timeout config))
    | Some timeout =>
        let method := if String.eqb (Manifest.Method config) "" then "GET"
                      else Manifest.Method config in
        Ok (NewHTTPProvider (Manifest.Name config)
              {| URL := Manifest.URL config; Method := method;
                 Headers := Manifest.Headers config; Body := Manifest.Body config;
                 Timeout := timeout |})
    end.

Definition createProvider (config : Manifest.Provider) : result Error Provider :=
  if String.eqb (Manifest.Type_ config) "http" then createHTTPProvider config
  else Err (UnsupportedProviderTypeError (Manifest.Type_ config)).

(** The loop of [LoadFromRouteConfig]. *)
Fixpoint loadProviders (configs : list Manifest.Provider) (acc : list Provider)
  : result Error (list Provider) :=
  match configs with
  | [] => Ok acc
  | providerConfig :: rest =>
      match createProvider providerConfig with
      | Err err =>
          if Manifest.Optional providerConfig then loadProviders rest acc
          else Err (ProviderLoadFailedError (Manifest.Name providerConfig) err)
      | Ok provider => loadProviders rest (acc ++ [provider])
      end
  end.

Definition LoadFromRouteConfig (route : option Manifest.Route)
  : result Error ProviderClient :=
  match route with
  | None => Err MissingRouteConfigError
  | Some route =>
      match loadProviders (Manifest.Providers (Manifest.RouteContext route)) [] with
      | Err e => Err e
      | Ok ps => Ok (NewProviderClient ps)
      end
  end.

Definition buildProviderParams (m : RouteMatch) (user : option User)
  : gmap string any :=
  let params : gmap string any := AStr <$> Params m in
  let params := (AStr <$> Query m) ∪ params in
  match user with
  | Some u =>
      let params := <["user_id" := AStr (ID u)]> params in
      let params := if String.eqb (Email u) "" then params
                    else <["user_email" := AStr (Email u)]> params in
      let params := if String.eqb (UserName u) "" then params
                    else <["user_name" := AStr (UserName u)]> params in
      <["user_authenticated" := ABool (IsAuthenticated user)]> params
  | None => <["user_authenticated" := ABool false]> params
  end.

Definition evaluateCondition (condition : string) (params : gmap string any) : bool :=
  if String.eqb condition "user.authenticated" then
    match params !! "user_authenticated" with
    | Some (ABool auth) => auth
    | _ => false
    end
  else if String.eqb condition "user.guest" then
    match params !! "user_authenticated" with
    | Some (ABool auth) => negb auth
    | _ => true
    end
  else true.

(** [resolveStringTemplate]: both loops range over the parameter map, in
    the order [order]. *)
Definition resolveStringTemplate (order : list (string * any)) (template : string)
  : string :=
  let result :=
    foldl (fun result '(key, value) =>
             Strings.ReplaceAll result ("{" +:+ key +:+ "}") (Sprint value))
          template order in
  foldl (fun result '(key, value) =>
           Strings.ReplaceAll result ("{route.params." +:+ key +:+ "}") (Sprint value))
        result order.

Definition resolveValue (template : any) (params : gmap string any) : any :=
  match template with
  | AStr str => AStr (resolveStringTemplate (rangeOf params) str)
  | _ => template
  end.

(** *** Templates of the HTTP provider (http_provider.go) *)

(** [resolveEnvVars]: the loop looks for the first [{env.] again after
    every replacement, so a value that brings one back keeps it going;
    [fuel] bounds the passes and [None] is a run out of them. *)
Fixpoint resolveEnvVars (fuel : nat) (result : string) : option string :=
  match fuel with
  | O => None
  | S fuel' =>
      match Strings.Index result "{env." with
      | None => Some result
      | Some start =>
          match Strings.Index (Strings.drop start result) "}" with
          | None => Some result
          | Some e =>
              let end_ := (e + start)%nat in
              let varName := substring (start + 5) (end_ - (start + 5)) result in
              resolveEnvVars fuel'
                (Strings.take start result +:+ Getenv varName
                 +:+ Strings.drop (end_ + 1) result)
          end
      end
  end.

(** [HTTPProvider.resolveTemplate]; the loop ranges over the parameter map
    in the order [order]. *)
Definition resolveTemplate (order : list (string * any)) (fuel : nat) (template : string)
  : option string :=
  let result :=
    foldl (fun result '(key, value) =>
             let placeholder := "{" +:+ key +:+ "}" in
             if Strings.Contains result placeholder
             then Strings.ReplaceAll result placeholder (Sprint value)
             else result)
          template order in
  resolveEnvVars fuel result.

(** Has the provider been dispatched, or skipped on its condition? *)
Definition dispatched (baseParams : gmap string any) (config : Manifest.Provider) : bool :=
  negb (negb (String.eqb (Manifest.Condition config) "")
        && negb (evaluateCondition (Manifest.Condition config) baseParams)).

(** The parameters a goroutine hands to its provider. *)
Definition providerParams (baseParams : gmap string any) (cfg : Manifest.Provider)
  : gmap string any :=
  ((fun v => resolveValue v baseParams) <$> Manifest.Params cfg) ∪ baseParams.

Record collected := {
  results : gmap string any;
  failedProviders : list string;
  providerErrors : list Error
}.

(** What a goroutine does under the mutex once its provider answered. *)
Definition collect (providerClient : ProviderClient) (baseParams : gmap string any)
    (st : collected) (cfg : Manifest.Provider) : collected :=
  match Get providerClient (Manifest.Name cfg) (providerParams baseParams cfg) with
  | Err err =>
      if negb (Manifest.Optional cfg)
      then {| results := results st;
              failedProviders := failedProviders st ++ [Manifest.Name cfg];
              providerErrors := providerErrors st ++ [err] |}
      else st
  | Ok data =>
      {| results := <[Manifest.Name cfg := data]> (results st);
         failedProviders := failedProviders st;
         providerErrors := providerErrors st |}
  end.

(** [executeProviders].  The goroutines of the dispatched providers take
    the mutex in the order [completion], any permutation of the
    dispatched configurations; the outcome is the pair returned. *)
Definition executeProviders (providerClient : ProviderClient)
    (completion : list Manifest.Provider) (baseParams : gmap string any)
  : gmap string any * option Error :=
  let st := foldl (collect providerClient baseParams)
                  {| results := ∅; failedProviders := []; providerErrors := [] |}
                  completion in
  if (0 <? length (providerErrors st))%nat
  then (results st, Some (MultipleProvidersFailedError (failedProviders st) (providerErrors st)))
  else (results st, None).

(** A completion order for a route: the dispatched configurations, in any
    order. *)
Definition completionOf (baseParams : gmap string any)
    (providerConfigs completion : list Manifest.Provider) : Prop :=
  completion ≡ₚ filter (fun cfg => dispatched baseParams cfg = true) providerConfigs.

(** [Build]; [completion] as in [executeProviders]. *)
Definition Build (completion : list Manifest.Provider) (routeMatch : option RouteMatch)
    (frontendContext : option FrontendContext) (user : option User)
  : result Error FullContext :=
  match routeMatch with
  | None => Err InvalidRouteMatchError
  | Some routeMatch =>
      match Route routeMatch with
      | None => Err MissingRouteConfigError
      | Some route =>
          match LoadFromRouteConfig (Some route) with
          | Err err => Err (BuildFailedError err)
          | Ok providerClient =>
              let params := buildProviderParams routeMatch user in
              let '(backendData, err) :=
                executeProviders providerClient completion params in
              (* the error is logged; the partial context is returned *)
              Ok {| RouteOf := {| Path := Manifest.Pattern route;
                                  RouteName := Manifest.RouteName route;
                                  RouteParams := Params routeMatch;
                                  RouteQuery := Query routeMatch |};
                    UserOf := user;
                    Frontend := frontendContext;
                    Backend := backendData;
                    Instructions := Manifest.AgentInstructions route;
                    AvailableTools := extractToolNames (Manifest.Tools route) |}
          end
      end
  end.

(** *** Properties of the provider fan-out *)

Lemma collect_keeps_errors providerClient baseParams st cfg x y :
  x ∈ failedProviders st -> y ∈ providerErrors st ->
  x ∈ failedProviders (collect providerClient baseParams st cfg)
  /\ y ∈ providerErrors (collect providerClient baseParams st cfg).
Proof.
  intros Hx Hy. unfold collect.
  destruct (Get _ _ _); [done|]. destruct (Manifest.Optional cfg); cbn; [done|].
  split; apply elem_of_app; by left.
Qed.

Lemma foldl_collect_keeps_errors providerClient baseParams completion : forall st x y,
  x ∈ failedProviders st -> y ∈ providerErrors st ->
  x ∈ failedProviders (foldl (collect providerClient baseParams) st completion)
  /\ y ∈ providerErrors (foldl (collect providerClient baseParams) st completion).
Proof.
  induction completion as [|cfg rest IH]; intros st x y Hx Hy; cbn; [done|].
  destruct (collect_keeps_errors providerClient baseParams st cfg x y Hx Hy).
  by apply IH.
Qed.

(** A failing required provider is recorded, whatever the order. *)
Lemma foldl_collect_records providerClient baseParams completion cfg e : forall st,
  cfg ∈ completion -> Manifest.Optional cfg = false ->
  Get providerClient (Manifest.Name cfg) (providerParams baseParams cfg) = Err e ->
  Manifest.Name cfg ∈ failedProviders (foldl (collect providerClient baseParams) st completion)
  /\ e ∈ providerErrors (foldl (collect providerClient baseParams) st completion).
Proof.
  induction completion as [|cfg0 rest IH]; intros st Hin Hopt Hget.
  - by apply elem_of_nil in Hin.
  - cbn [foldl]. apply elem_of_cons in Hin as [<-|Hin]; [|by apply IH].
    apply foldl_collect_keeps_errors; unfold collect; rewrite Hget, Hopt; cbn;
      apply elem_of_app; right; by apply list_elem_of_singleton.
Qed.

(** C1 (as amended).  When a dispatched, non-optional provider of the
    route fails, [executeProviders] returns the backend map gathered from
    the others together with a multi-provider-failed error that names the
    provider; [Build] logs that error and returns the context with this
    partial backend map and no error. *)
Theorem Build_returns_partial_context
    (routeMatch : RouteMatch) (route : Manifest.Route)
    (frontendContext : option FrontendContext) (user : option User)
    (providerClient : ProviderClient)
    (completion : list Manifest.Provider) (cfg : Manifest.Provider) (e : Error) :
  Route routeMatch = Some route ->
  LoadFromRouteConfig (Some route) = Ok providerClient ->
  completionOf (buildProviderParams routeMatch user)
    (Manifest.Providers (Manifest.RouteContext route)) completion ->
  cfg ∈ Manifest.Providers (Manifest.RouteContext route) ->
  dispatched (buildProviderParams routeMatch user) cfg = true ->
  Manifest.Optional cfg = false ->
  Get providerClient (Manifest.Name cfg)
    (providerParams (buildProviderParams routeMatch user) cfg) = Err e ->
  exists backend failed errs,
    executeProviders providerClient completion (buildProviderParams routeMatch user)
    = (backend, Some (MultipleProvidersFailedError failed errs))
    /\ Manifest.Name cfg ∈ failed /\ e ∈ errs
    /\ exists ctx,
         Build completion (Some routeMatch) frontendContext user = Ok ctx
         /\ Backend ctx = backend.
Proof.
  intros HR HL Hcomp Hin Hdisp Hopt Hget.
  assert (Hc : cfg ∈ completion).
  { unfold completionOf in Hcomp. rewrite Hcomp. apply list_elem_of_filter. done. }
  destruct (foldl_collect_records providerClient (buildProviderParams routeMatch user)
              completion cfg e
              {| results := ∅; failedProviders := []; providerErrors := [] |}
              Hc Hopt Hget) as [Hf He].
  unfold Build. rewrite HR, HL. unfold executeProviders.
  set (st := foldl _ _ completion) in *.
  destruct (providerErrors st) as [|e0 errs] eqn:Herrs; [by apply elem_of_nil in He|].
  cbn [length Nat.ltb Nat.leb]. rewrite <- Herrs.
  exists (results st), (failedProviders st), (providerErrors st).
  split; [done|]. split; [done|]. split; [by rewrite Herrs|]. by eexists.
Qed.

(** *** Placeholders with one and with two braces *)






(** *** Loading the providers of a route *)

(** The provider a configuration gives, when it gives one. *)
Definition loadable (cfg : Manifest.Provider) : option Provider :=
  match createProvider cfg with Ok p => Some p | Err _ => None end.

Lemma createProvider_Name cfg p : createProvider cfg = Ok p -> Name p = Manifest.Name cfg.
Proof.
  unfold createProvider, createHTTPProvider.
  destruct (String.eqb (Manifest.Type_ cfg) "http"); [|done].
  destruct (String.eqb (Manifest.URL cfg) ""); [done|].
  destruct (if String.eqb (Manifest.Timeout cfg) "" then _ else _); [|done].
  intros H0; inversion H0. done.
Qed.

Lemma loadProviders_spec configs : forall acc,
  match loadProviders configs acc with
  | Ok ps =>
      ps = acc ++ omap loadable configs
      /\ forall cfg, cfg ∈ configs -> Manifest.Optional cfg = false ->
           is_ok (createProvider cfg) = true
  | Err e =>
      exists cfg err,
        cfg ∈ configs /\ Manifest.Optional cfg = false
        /\ createProvider cfg = Err err
        /\ e = ProviderLoadFailedError (Manifest.Name cfg) err
  end.
Proof.
  induction configs as [|cfg rest IH]; intros acc; cbn [loadProviders].
  - rewrite app_nil_r. split; [done|]. intros cfg Hin. by apply elem_of_nil in Hin.
  - cbn [omap list_omap]. unfold loadable at 1.
    destruct (createProvider cfg) as [p|err] eqn:Hc.
    + specialize (IH (acc ++ [p])). destruct (loadProviders rest (acc ++ [p])) as [ps|e].
      * destruct IH as [-> Hall]. rewrite <- app_assoc. split; [done|].
        intros c Hin Hopt. apply elem_of_cons in Hin as [->|Hin]; [by rewrite Hc | by apply Hall].
      * destruct IH as (c & err & Hin & Hopt & Hcc & ->). exists c, err.
        split; [by right | done].
    + destruct (Manifest.Optional cfg) eqn:Hopt.
      * specialize (IH acc). destruct (loadProviders rest acc) as [ps|e].
        -- destruct IH as [-> Hall]. split; [done|].
           intros c Hin Hoptc. apply elem_of_cons in Hin as [->|Hin]; [congruence | by apply Hall].
        -- destruct IH as (c & err' & Hin & Hoptc & Hcc & ->). exists c, err'.
           split; [by right | done].
      * exists cfg, err. split; [by left | done].
Qed.

Lemma foldl_providers_Some (ps : list Provider) n : forall acc : gmap string Provider,
  is_Some (foldl (fun providerMap provider => <[Name provider := provider]> providerMap)
             acc ps !! n)
  <-> is_Some (acc !! n) \/ exists p, p ∈ ps /\ Name p = n.
Proof.
  induction ps as [|q ps IH]; intros acc; cbn [foldl].
  - split; [by left|]. intros [?|(p & Hp & _)]; [done | by apply elem_of_nil in Hp].
  - rewrite IH. destruct (decide (Name q = n)) as [<-|Hne].
    + rewrite lookup_insert_eq. split; [|by left]. intros _. right. exists q. split; [by left | done].
    + rewrite lookup_insert_ne by done. split.
      * intros [?|(p & Hp & Hn)]; [by left|]. right. exists p. split; [by right | done].
      * intros [?|(p & Hp & Hn)]; [by left|]. right. exists p. split; [|done].
        apply elem_of_cons in Hp as [->|Hp]; done.
Qed.

(** X6.  [LoadFromRouteConfig] succeeds exactly when every provider of the
    route that is not optional can be created.  The client then holds a
    provider under a name exactly when a configuration of that name could
    be created: an optional provider that cannot be created is left out
    without a trace.  A failure is a provider-load-failed error that names
    a required provider and carries its creation error. *)
Theorem LoadFromRouteConfig_outcome (route : Manifest.Route) :
  (is_ok (LoadFromRouteConfig (Some route)) = true
   <-> forall cfg, cfg ∈ Manifest.Providers (Manifest.RouteContext route) ->
         Manifest.Optional cfg = false -> is_ok (createProvider cfg) = true)
  /\ (forall client, LoadFromRouteConfig (Some route) = Ok client ->
        forall n, is_Some (providers client !! n)
                  <-> exists cfg, cfg ∈ Manifest.Providers (Manifest.RouteContext route)
                        /\ Manifest.Name cfg = n /\ is_ok (createProvider cfg) = true)
  /\ (forall e, LoadFromRouteConfig (Some route) = Err e ->
        exists cfg err,
          cfg ∈ Manifest.Providers (Manifest.RouteContext route)
          /\ Manifest.Optional cfg = false /\ createProvider cfg = Err err
          /\ e = ProviderLoadFailedError (Manifest.Name cfg) err).
Proof.
  unfold LoadFromRouteConfig.
  pose proof (loadProviders_spec (Manifest.Providers (Manifest.RouteContext route)) [])
    as Hspec.
  destruct (loadProviders _ []) as [ps|e].
  - destruct Hspec as [-> Hall]. cbn [app]. split; [done|]. split; [|done].
    intros client Hc n. inversion Hc; subst client; clear Hc.
    unfold NewProviderClient. cbn [providers]. rewrite foldl_providers_Some.
    rewrite lookup_empty. split.
    + intros [[? ?]|(p & Hp & Hn)]; [done|].
      apply list_elem_of_omap in Hp as (cfg & Hin & Hl). unfold loadable in Hl.
      destruct (createProvider cfg) as [p'|] eqn:Hcp; [|done]. inversion Hl; subst p'.
      exists cfg. split; [done|]. split; [|by rewrite Hcp]. rewrite <- Hn.
      symmetry. by apply createProvider_Name.
    + intros (cfg & Hin & Hn & Hok). right.
      destruct (createProvider cfg) as [p|] eqn:Hcp; [|done].
      exists p. split; [|by rewrite (createProvider_Name _ _ Hcp)].
      apply list_elem_of_omap. exists cfg. split; [done|]. unfold loadable. by rewrite Hcp.
  - destruct Hspec as (cfg & err & Hin & Hopt & Hc & ->). split; [|split; [done|]].
    + split; [done|]. intros Hall. specialize (Hall cfg Hin Hopt). by rewrite Hc in Hall.
    + intros e He. inversion He; subst e. by exists cfg, err.
Qed.

(** X7.  What each check of a provider configuration accepts.  Creation
    wants the type [http], a URL, and a timeout that is empty or parses; it
    does not look at the name.  [ValidateProviderConfig] wants what the
    validation of the manifest wants, and the type [http] besides.  So the
    manifest validation lets through providers that cannot be created:
    those of another type, and those whose timeout does not parse. *)
Theorem createProvider_accepts (cfg : Manifest.Provider) :
  (is_ok (createProvider cfg) = true
   <-> Manifest.Type_ cfg = "http" /\ Manifest.URL cfg <> ""
       /\ (Manifest.Timeout cfg = "" \/ is_Some (ParseDuration (Manifest.Timeout cfg))))
  /\ (ValidateProviderConfig cfg = None
      <-> Manifest.validProvider cfg /\ Manifest.Type_ cfg = "http")
  /\ (Manifest.validateProvider cfg = None ->
      (is_ok (createProvider cfg) = true
       <-> Manifest.Type_ cfg = "http"
           /\ (Manifest.Timeout cfg = ""
               \/ is_Some (ParseDuration (Manifest.Timeout cfg))))).
Proof.
  assert (Hcreate : is_ok (createProvider cfg) = true
      <-> Manifest.Type_ cfg = "http" /\ Manifest.URL cfg <> ""
          /\ (Manifest.Timeout cfg = ""
              \/ is_Some (ParseDuration (Manifest.Timeout cfg)))).
  { unfold createProvider, createHTTPProvider.
    destruct (String.eqb_spec (Manifest.Type_ cfg) "http") as [Ht|Ht]; [|split; [done | tauto]].
    destruct (String.eqb_spec (Manifest.URL cfg) "") as [Hu|Hu]; [split; [done | tauto]|].
    destruct (String.eqb_spec (Manifest.Timeout cfg) "") as [Hd|Hd]; [cbn; tauto|].
    destruct (ParseDuration (Manifest.Timeout cfg)) as [d|]; cbn.
    - split; [|done]. intros _. split; [done|]. split; [done|]. right. by eexists.
    - split; [done|]. intros (_ & _ & [?|[? ?]]); done. }
  split; [exact Hcreate|]. split.
  - unfold ValidateProviderConfig, Manifest.validProvider.
    destruct (String.eqb_spec (Manifest.Name cfg) ""); [split; [done | tauto]|].
    destruct (String.eqb_spec (Manifest.Type_ cfg) ""); [split; [done | tauto]|].
    destruct (String.eqb_spec (Manifest.Type_ cfg) "http"); [|split; [done | tauto]].
    destruct (String.eqb_spec (Manifest.URL cfg) ""); split; try done; tauto.
  - intros Hv. apply Manifest.validateProvider_None in Hv as (_ & _ & Hurl).
    rewrite Hcreate. tauto.
Qed.

(** *** The parameters handed to the providers *)

(** The keys [buildProviderParams] sets from the user. *)
Definition userKey (user : option User) (k : string) : Prop :=
  k = "user_authenticated"
  \/ exists u, user = Some u
       /\ (k = "user_id" \/ (k = "user_email" /\ Email u <> "")
           \/ (k = "user_name" /\ UserName u <> "")).

(** X8.  In the parameters built for the providers a query parameter takes
    precedence over a route parameter of the same name, and what comes from
    the user over both: [user_authenticated] is always set, to whether the
    user is authenticated, and a user sets [user_id], and [user_email] and
    [user_name] when they are not empty.  Without a user these three keys
    are left to the query and the route. *)
Theorem buildProviderParams_precedence (m : RouteMatch) (user : option User) (k : string) :
  buildProviderParams m user !! "user_authenticated" = Some (ABool (IsAuthenticated user))
  /\ (forall u, user = Some u ->
        buildProviderParams m user !! "user_id" = Some (AStr (ID u))
        /\ (Email u <> "" ->
            buildProviderParams m user !! "user_email" = Some (AStr (Email u)))
        /\ (UserName u <> "" ->
            buildProviderParams m user !! "user_name" = Some (AStr (UserName u))))
  /\ (~ userKey user k ->
      buildProviderParams m user !! k
      = match Query m !! k with
        | Some v => Some (AStr v)
        | None => AStr <$> Params m !! k
        end).
Proof.
  assert (Hbase : ((AStr <$> Query m) ∪ (AStr <$> Params m) : gmap string any) !! k
                  = match Query m !! k with
                    | Some v => Some (AStr v)
                    | None => AStr <$> Params m !! k
                    end).
  { rewrite lookup_union, !lookup_fmap.
    destruct (Query m !! k), (Params m !! k); done. }
  unfold buildProviderParams. split; [|split].
  - destruct user as [u|]; by rewrite lookup_insert_eq.
  - intros u ->. split; [|split].
    + rewrite lookup_insert_ne by done.
      destruct (String.eqb (UserName u) ""), (String.eqb (Email u) "");
        rewrite ?lookup_insert_ne by done; apply lookup_insert_eq.
    + intros He. apply String.eqb_neq in He. rewrite He.
      rewrite lookup_insert_ne by done.
      destruct (String.eqb (UserName u) "");
        rewrite ?lookup_insert_ne by done; apply lookup_insert_eq.
    + intros Hn. apply String.eqb_neq in Hn. rewrite Hn.
      rewrite lookup_insert_ne by done. apply lookup_insert_eq.
  - intros Hk. rewrite <- Hbase.
    assert (k <> "user_authenticated") as Hka by (intros ->; apply Hk; by left).
    destruct user as [u|]; rewrite lookup_insert_ne by done; [|done].
    destruct (String.eqb_spec (UserName u) "") as [Hn|Hn],
             (String.eqb_spec (Email u) "") as [He|He];
      repeat (rewrite lookup_insert_ne;
              [|intros <-; apply Hk; right; exists u; naive_solver]);
      done.
Qed.

(** X9.  Whether a provider runs follows from the user alone: one with the
    condition [user.authenticated] runs when the user has an id, one with
    [user.guest] when there is no user or the user has none, and any other
    condition, known or not, lets the provider run.  No route or query
    parameter changes this, and a user whose id marks it as anonymous
    counts as authenticated. *)
Theorem dispatched_by_user (m : RouteMatch) (user : option User) (cfg : Manifest.Provider) :
  dispatched (buildProviderParams m user) cfg
  = (if String.eqb (Manifest.Condition cfg) "user.authenticated" then IsAuthenticated user
     else if String.eqb (Manifest.Condition cfg) "user.guest"
          then negb (IsAuthenticated user)
     else true)
  /\ (IsAnonymous user = true -> IsAuthenticated user = true).
Proof.
  split.
  - unfold dispatched, evaluateCondition.
    assert (Hauth : buildProviderParams m user !! "user_authenticated"
                    = Some (ABool (IsAuthenticated user))).
    { unfold buildProviderParams. destruct user as [u|]; by rewrite lookup_insert_eq. }
    rewrite Hauth.
    destruct (String.eqb_spec (Manifest.Condition cfg) "user.authenticated") as [->|H1].
    + cbn. by destruct (IsAuthenticated user).
    + destruct (String.eqb_spec (Manifest.Condition cfg) "user.guest") as [->|H2].
      * cbn. by destruct (IsAuthenticated user).
      * by destruct (String.eqb (Manifest.Condition cfg) "").
  - destruct user as [u|]; [|done]. cbn. destruct (ID u); done.
Qed.

(** *** The backend map *)

Lemma collect_results_other providerClient baseParams st cfg n :
  Manifest.Name cfg <> n ->
  results (collect providerClient baseParams st cfg) !! n = results st !! n.
Proof.
  intros Hne. unfold collect. destruct (Get _ _ _); cbn.
  - by apply lookup_insert_ne.
  - by destruct (negb _).
Qed.

Lemma foldl_collect_results_other providerClient baseParams completion n : forall st,
  (forall cfg, cfg ∈ completion -> Manifest.Name cfg <> n) ->
  results (foldl (collect providerClient baseParams) st completion) !! n = results st !! n.
Proof.
  induction completion as [|cfg rest IH]; intros st Hall; cbn [foldl]; [done|].
  rewrite IH by (intros c Hc; apply Hall; by right).
  apply collect_results_other, Hall. by left.
Qed.

Lemma foldl_collect_results_lookup providerClient baseParams completion cfg : forall st,
  NoDup (Manifest.Name <$> completion) -> cfg ∈ completion ->
  results (foldl (collect providerClient baseParams) st completion) !! Manifest.Name cfg
  = match Get providerClient (Manifest.Name cfg) (providerParams baseParams cfg) with
    | Ok d => Some d
    | Err _ => results st !! Manifest.Name cfg
    end.
Proof.
  induction completion as [|cfg0 rest IH]; intros st Hnd Hin.
  - by apply elem_of_nil in Hin.
  - cbn in Hnd. apply NoDup_cons in Hnd as [Hfresh Hnd]. cbn [foldl].
    apply elem_of_cons in Hin as [<-|Hin].
    + rewrite foldl_collect_results_other.
      * unfold collect. destruct (Get _ _ _); cbn; [apply lookup_insert_eq|].
        by destruct (negb _).
      * intros c Hc Heq. apply Hfresh. rewrite <- Heq. apply list_elem_of_fmap. by exists c.
    + rewrite IH by done.
      assert (Manifest.Name cfg0 <> Manifest.Name cfg) as Hne.
      { intros Heq. apply Hfresh. rewrite Heq. apply list_elem_of_fmap. by exists cfg. }
      destruct (Get _ _ _); [done|]. by apply collect_results_other.
Qed.

(** X10.  With distinct names among the providers that run, the backend
    map of [Build] holds under a name exactly the answer of the provider of
    that name, when it ran and answered without error; a provider that was
    skipped on its condition or failed has no entry.  The context [Build]
    returns is therefore the same in whatever order the providers
    complete. *)
Theorem Build_backend (routeMatch : RouteMatch) (route : Manifest.Route)
    (frontendContext : option FrontendContext) (user : option User)
    (providerClient : ProviderClient) (completion : list Manifest.Provider) :
  Route routeMatch = Some route ->
  LoadFromRouteConfig (Some route) = Ok providerClient ->
  completionOf (buildProviderParams routeMatch user)
    (Manifest.Providers (Manifest.RouteContext route)) completion ->
  NoDup (Manifest.Name <$>
           filter (fun cfg => dispatched (buildProviderParams routeMatch user) cfg = true)
                  (Manifest.Providers (Manifest.RouteContext route))) ->
  exists ctx,
    Build completion (Some routeMatch) frontendContext user = Ok ctx
    /\ (forall n d,
          Backend ctx !! n = Some d
          <-> exists cfg,
                cfg ∈ Manifest.Providers (Manifest.RouteContext route)
                /\ dispatched (buildProviderParams routeMatch user) cfg = true
                /\ Manifest.Name cfg = n
                /\ Get providerClient n
                     (providerParams (buildProviderParams routeMatch user) cfg) = Ok d)
    /\ forall completion',
         completionOf (buildProviderParams routeMatch user)
           (Manifest.Providers (Manifest.RouteContext route)) completion' ->
         Build completion' (Some routeMatch) frontendContext user = Ok ctx.
Proof.
  clear Getenv. intros HR HL Hcomp Hnd.
  set (params := buildProviderParams routeMatch user) in Hcomp, Hnd |- *.
  set (st0 := {| results := ∅; failedProviders := []; providerErrors := [] |}).
  assert (Hchar : forall completion0,
            completionOf params (Manifest.Providers (Manifest.RouteContext route))
              completion0 ->
            forall n d,
              results (foldl (collect providerClient params) st0 completion0) !! n = Some d
              <-> exists cfg,
                    cfg ∈ Manifest.Providers (Manifest.RouteContext route)
                    /\ dispatched params cfg = true /\ Manifest.Name cfg = n
                    /\ Get providerClient n (providerParams params cfg) = Ok d).
  { intros completion0 Hc0 n d. unfold completionOf in Hc0.
    assert (Hnd0 : NoDup (Manifest.Name <$> completion0)) by (by rewrite Hc0).
    assert (Hmem : forall cfg, cfg ∈ completion0
                     <-> cfg ∈ Manifest.Providers (Manifest.RouteContext route)
                         /\ dispatched params cfg = true).
    { intros cfg. rewrite Hc0, list_elem_of_filter. tauto. }
    split.
    - intros Hres.
      destruct (decide (n ∈ Manifest.Name <$> completion0)) as [Hin|Hout].
      + apply list_elem_of_fmap in Hin as (cfg & -> & Hin).
        rewrite (foldl_collect_results_lookup _ _ _ _ st0 Hnd0 Hin) in Hres.
        apply Hmem in Hin as [Hin Hd]. exists cfg. split; [done|]. split; [done|].
        split; [done|]. destruct (Get _ _ _) as [d'|]; [|done]. by inversion Hres.
      + rewrite foldl_collect_results_other in Hres; [done|].
        intros cfg Hc Heq. apply Hout. rewrite <- Heq. apply list_elem_of_fmap. by exists cfg.
    - intros (cfg & Hin & Hd & <- & Hget).
      assert (cfg ∈ completion0) as Hc by (by apply Hmem).
      rewrite (foldl_collect_results_lookup _ _ _ _ st0 Hnd0 Hc). by rewrite Hget. }
  assert (Hbuild : forall completion0,
            Build completion0 (Some routeMatch) frontendContext user
            = Ok {| RouteOf := {| Path := Manifest.Pattern route;
                                  RouteName := Manifest.RouteName route;
                                  RouteParams := Params routeMatch;
                                  RouteQuery := Query routeMatch |};
                    UserOf := user; Frontend := frontendContext;
                    Backend := results (foldl (collect providerClient params) st0 completion0);
                    Instructions := Manifest.AgentInstructions route;
                    AvailableTools := extractToolNames (Manifest.Tools route) |}).
  { intros completion0. unfold Build. rewrite HR, HL. unfold executeProviders.
    fold params. fold st0. by destruct (0 <? _)%nat. }
  eexists. split; [apply Hbuild|]. cbn [Backend]. split; [by apply Hchar|].
  intros completion' Hcomp'. rewrite Hbuild. do 2 f_equal.
  apply map_eq. intros n. apply option_eq. intros d.
  rewrite (Hchar completion' Hcomp'), (Hchar completion Hcomp). done.
Qed.

(** X11.  [BuildMinimal] is [Build] without the providers: whenever [Build]
    returns a context, [BuildMinimal] returns the same one with an empty
    backend map and no frontend context; and it still returns a context
    when [Build] fails on the providers of the route. *)
Theorem BuildMinimal_of_Build (completion : list Manifest.Provider)
    (routeMatch : option RouteMatch) (frontendContext : option FrontendContext)
    (user : option User) :
  (forall ctx, Build completion routeMatch frontendContext user = Ok ctx ->
     BuildMinimal routeMatch user
     = Ok {| RouteOf := RouteOf ctx; UserOf := UserOf ctx; Frontend := None;
             Backend := ∅; Instructions := Instructions ctx;
             AvailableTools := AvailableTools ctx |})
  /\ (forall cause, Build completion routeMatch frontendContext user
                    = Err (BuildFailedError cause) ->
        is_ok (BuildMinimal routeMatch user) = true)
  /\ (forall e, BuildMinimal routeMatch user = Err e ->
        Build completion routeMatch frontendContext user = Err e).
Proof.
  unfold Build, BuildMinimal. destruct routeMatch as [rm|]; [|done].
  destruct (Route rm) as [route|]; [|done].
  destruct (LoadFromRouteConfig (Some route)) as [client|err]; [|done].
  destruct (executeProviders _ _ _) as [backend e]. split; [|done].
  intros ctx H0. inversion H0; subst ctx. done.
Qed.

(** *** Environment references in the templates of a provider *)

(** One pass of the loop of [resolveEnvVars] takes an opening brace away
    when the values of the environment bring none. *)
Lemma resolveEnvVars_pass result start e :
  (forall name, Strings.countc "{" (Getenv name) = O) ->
  Strings.Index result "{env." = Some start ->
  (Strings.countc "{"
     (Strings.take start result
      +:+ Getenv (substring (start + 5) (e + start - (start + 5)) result)
      +:+ Strings.drop (e + start + 1) result)
   < Strings.countc "{" result)%nat.
Proof.
  intros Henv Hi. apply Strings.Index_Some in Hi.
  rewrite !Strings.countc_app, Henv.
  pose proof (Strings.countc_take_drop "{" start result).
  pose proof (Strings.countc_at "{" "env." result start Hi).
  pose proof (Strings.countc_drop_mono "{" (S start) (e + start + 1) result). lia.
Qed.

(** X12.  When no value of the environment holds an opening brace,
    [resolveEnvVars] returns, after at most one pass per opening brace of
    its input, and what it returns has no environment reference with its
    closing brace left. *)
Theorem resolveEnvVars_returns (input : string) :
  (forall name, Strings.countc "{" (Getenv name) = O) ->
  exists output,
    resolveEnvVars (S (Strings.countc "{" input)) input = Some output
    /\ (Strings.countc "{" output <= Strings.countc "{" input)%nat
    /\ match Strings.Index output "{env." with
       | None => True
       | Some start => Strings.Index (Strings.drop start output) "}" = None
       end.
Proof.
  intros Henv.
  assert (Hgen : forall fuel result, (Strings.countc "{" result < fuel)%nat ->
            exists output,
              resolveEnvVars fuel result = Some output
              /\ (Strings.countc "{" output <= Strings.countc "{" result)%nat
              /\ match Strings.Index output "{env." with
                 | None => True
                 | Some start => Strings.Index (Strings.drop start output) "}" = None
                 end).
  { induction fuel as [|fuel IH]; intros result Hlt; [lia|]. cbn [resolveEnvVars].
    destruct (Strings.Index result "{env.") as [start|] eqn:Hi.
    - destruct (Strings.Index (Strings.drop start result) "}") as [e|] eqn:He.
      + pose proof (resolveEnvVars_pass result start e Henv Hi) as Hpass.
        match goal with
        | |- context [resolveEnvVars fuel ?r] =>
            destruct (IH r) as (output & Hout & Hle & Hno); [lia|]
        end.
        exists output. split; [done|]. split; [lia | done].
      + exists result. split; [done|]. split; [done|]. by rewrite Hi.
    - exists result. split; [done|]. split; [done|]. by rewrite Hi. }
  apply Hgen. lia.
Qed.

(** X13.  A value of the environment that is a reference to its own
    variable keeps [resolveEnvVars] in its loop: on an input that starts
    with the reference no number of passes brings a result. *)
Theorem resolveEnvVars_loops (name post : string) (fuel : nat) :
  Getenv name = "{env." +:+ name +:+ "}" ->
  Strings.countc "}" name = O ->
  resolveEnvVars fuel ("{env." +:+ name +:+ "}" +:+ post) = None.
Proof.
  intros Hself Hname. induction fuel as [|fuel IH]; [done|].
  cbn [resolveEnvVars].
  assert (Hi : Strings.Index ("{env." +:+ name +:+ "}" +:+ post) "{env." = Some O).
  { assert (Strings.HasPrefix ("{env." +:+ name +:+ "}" +:+ post) "{env." = true) as Hp
      by (apply Strings.HasPrefix_app; by eexists).
    rewrite !Strings.append_cons in *. cbn [Strings.Index]. by rewrite Hp. }
  rewrite Hi. cbn [Strings.drop].
  assert (He : Strings.Index ("{env." +:+ name +:+ "}" +:+ post) "}"
               = Some (5 + String.length name)%nat).
  { rewrite !Strings.append_cons, !Strings.append_nil_l.
    do 5 (cbn [Strings.Index]; rewrite Strings.HasPrefix_cons; cbn [Ascii.eqb Bool.eqb]).
    rewrite (Strings.Index_first "}" name post Hname). done. }
  rewrite He.
  replace (5 + String.length name + 0 - (0 + 5))%nat with (String.length name) by lia.
  replace (0 + 5)%nat with (String.length "{env.") by done.
  rewrite (Strings.substring_middle "{env." name ("}" +:+ post)).
  rewrite Hself. cbn [Strings.take].
  replace (5 + String.length name + 0 + 1)%nat
    with (String.length ("{env." +:+ name +:+ "}")) by
    (rewrite !Strings.length_append; cbn; lia).
  assert (Hassoc : "{env." +:+ name +:+ "}" +:+ post
                   = ("{env." +:+ name +:+ "}") +:+ post)
    by (by rewrite !Strings.append_assoc).
  rewrite Hassoc at 1. rewrite Strings.drop_append, Strings.append_nil_l, <- Hassoc.
  exact IH.
Qed.

End Builder.

(** *** The provider client keeps one provider per name *)

Lemma foldl_providers_other (ps : list Provider) n : forall acc : gmap string Provider,
  (forall q, q ∈ ps -> Name q <> n) ->
  foldl (fun providerMap provider => <[Name provider := provider]> providerMap) acc ps !! n
  = acc !! n.
Proof.
  induction ps as [|q ps IH]; intros acc Hq; cbn [foldl]; [done|].
  rewrite IH by (intros q' Hq'; apply Hq; by right).
  apply lookup_insert_ne. apply Hq. by left.
Qed.

Lemma NewProviderClient_lookup (pre post : list Provider) (p : Provider) :
  (forall q, q ∈ post -> Name q <> Name p) ->
  providers (NewProviderClient (pre ++ p :: post)) !! Name p = Some p.
Proof.
  intros Hpost. unfold NewProviderClient. cbn [providers].
  rewrite foldl_app. cbn [foldl]. rewrite foldl_providers_other by done.
  apply lookup_insert_eq.
Qed.

Lemma collectAll_other arrivals params n : forall res errs,
  n ∉ arrivals.*1 -> (collectAll arrivals params res errs).1 !! n = res !! n.
Proof.
  induction arrivals as [|[n0 p0] rest IH]; intros res errs Hn; cbn [collectAll]; [done|].
  cbn in Hn. apply not_elem_of_cons in Hn as [Hne Hn].
  destruct (GetContext p0 params); rewrite IH by done; [|done].
  by apply lookup_insert_ne.
Qed.

Lemma collectAll_lookup arrivals params n p : forall res errs,
  NoDup arrivals.*1 -> (n, p) ∈ arrivals -> res !! n = None ->
  (collectAll arrivals params res errs).1 !! n
  = match GetContext p params with Ok d => Some d | Err _ => None end.
Proof.
  induction arrivals as [|[n0 p0] rest IH]; intros res errs Hnd Hin Hres.
  - by apply elem_of_nil in Hin.
  - cbn in Hnd. apply NoDup_cons in Hnd as [Hn0 Hnd]. cbn [collectAll].
    apply elem_of_cons in Hin as [Heq|Hin].
    + inversion Heq; subst n0 p0.
      destruct (GetContext p params); rewrite collectAll_other by done; [|done].
      apply lookup_insert_eq.
    + assert (n0 <> n).
      { intros ->. apply Hn0. apply list_elem_of_fmap. by exists (n, p). }
      destruct (GetContext p0 params); apply IH; try done.
      by rewrite lookup_insert_ne.
Qed.

(** C10.  Of the providers of one name handed to [NewProviderClient] the
    client keeps the last: [Get] and [GetAll] reach it and no other, and the
    result maps of [GetAll] and of the builder hold one entry per name. *)
Theorem NewProviderClient_keeps_last (pre post : list Provider) (p : Provider) :
  (forall q, q ∈ post -> Name q <> Name p) ->
  let c := NewProviderClient (pre ++ p :: post) in
  providers c !! Name p = Some p
  /\ (forall params, Get c (Name p) params = GetContext p params)
  /\ (forall arrivals params,
        arrivals ≡ₚ map_to_list (providers c) ->
        (GetAll c arrivals params).1 !! Name p
        = match GetContext p params with Ok d => Some d | Err _ => None end
        /\ NoDup (map_to_list (GetAll c arrivals params).1).*1)
  /\ (forall rangeOf Sprint completion baseParams,
        NoDup (map_to_list (executeProviders rangeOf Sprint c completion baseParams).1).*1
        /\ forall cfg, Manifest.Name cfg = Name p ->
             Get c (Manifest.Name cfg) (providerParams rangeOf Sprint baseParams cfg)
             = GetContext p (providerParams rangeOf Sprint baseParams cfg)).
Proof.
  intros Hpost c. pose proof (NewProviderClient_lookup pre post p Hpost) as Hl.
  fold c in Hl. split; [done|]. split; [|split].
  - intros params. unfold Get. by rewrite Hl.
  - intros arrivals params Hperm. split; [|apply NoDup_fst_map_to_list].
    unfold GetAll.
    destruct (collectAll arrivals params ∅ []) as [res errs] eqn:Hc.
    assert (res = (collectAll arrivals params ∅ []).1) as -> by (by rewrite Hc).
    destruct (0 <? length errs)%nat; cbn [fst]; apply collectAll_lookup; try done.
    1,3: rewrite Hperm; apply NoDup_fst_map_to_list.
    all: rewrite Hperm; by apply elem_of_map_to_list.
  - intros rangeOf Sprint completion baseParams. split; [apply NoDup_fst_map_to_list|].
    intros cfg ->. unfold Get. by rewrite Hl.
Qed.

(** *** A route with a required provider that fails *)

Definition exProvider (name : string) : Manifest.Provider :=
  {| Manifest.Type_ := "http"; Manifest.Name := name;
     Manifest.URL := "http://backend/" +:+ name; Manifest.Method := "";
     Manifest.Headers := ∅; Manifest.Body := None; Manifest.Timeout := "";
     Manifest.Params := ∅; Manifest.Condition := ""; Manifest.Optional := false |}.

Definition exRoute : Manifest.Route :=
  {| Manifest.Pattern := "/products/:id"; Manifest.RouteName := "product";
     Manifest.Description := "";
     Manifest.RouteContext := {| Manifest.Providers := [exProvider "A"; exProvider "B"] |};
     Manifest.Tools := []; Manifest.AgentInstructions := "" |}.

Definition exMatch : RouteMatch :=
  {| Route := Some exRoute; Params := {["id" := "42"]}; Query := ∅ |}.

(** The backend of [A] answers with a document, that of [B] with status
    500. *)
Definition exHTTP (name : string) (_ : HTTPConfig) (_ : gmap string any)
  : result Error any :=
  if String.eqb name "B"
  then Err (ProviderFailedError "B" "unexpected status code 500")
  else Ok (AMap {["x" := AInt 1]}).

Definition exSprint (v : any) : string :=
  match v with AStr s => s | _ => "" end.

Definition exClient : ProviderClient :=
  NewProviderClient
    [NewHTTPProvider exHTTP "A"
       {| URL := "http://backend/A"; Method := "GET"; Headers := ∅; Body := None;
          Timeout := 10 * second |};
     NewHTTPProvider exHTTP "B"
       {| URL := "http://backend/B"; Method := "GET"; Headers := ∅; Body := None;
          Timeout := 10 * second |}].

Lemma Build_returns_partial_context_witness :
  exists backend failed errs,
    executeProviders map_to_list exSprint exClient [exProvider "A"; exProvider "B"]
      (buildProviderParams exMatch None)
    = (backend, Some (MultipleProvidersFailedError failed errs))
    /\ "B" ∈ failed
    /\ ProviderFailedError "B" "unexpected status code 500" ∈ errs
    /\ exists ctx,
         Build map_to_list exSprint (fun _ => None) exHTTP
           [exProvider "A"; exProvider "B"] (Some exMatch) None None = Ok ctx
         /\ Backend ctx = backend.
Proof.
  apply (Build_returns_partial_context map_to_list exSprint (fun _ => None) exHTTP
           exMatch exRoute None None exClient
           [exProvider "A"; exProvider "B"] (exProvider "B")
           (ProviderFailedError "B" "unexpected status code 500")).
  - reflexivity.
  - reflexivity.
  - unfold completionOf. vm_compute. reflexivity.
  - apply list_elem_of_In. simpl. auto.
  - reflexivity.
  - reflexivity.
  - vm_compute. reflexivity.
Defined.

(** C1 as stated fails: the required provider [B] fails and [Build]
    returns a context, with the backend of [A] alone, and no error. *)
Lemma Build_ignores_required_failure :
  Manifest.Optional (exProvider "B") = false
  /\ Get exClient "B"
       (providerParams map_to_list exSprint (buildProviderParams exMatch None)
          (exProvider "B"))
     = Err (ProviderFailedError "B" "unexpected status code 500")
  /\ (exists ctx,
        Build map_to_list exSprint (fun _ => None) exHTTP
          [exProvider "A"; exProvider "B"] (Some exMatch) None None = Ok ctx
        /\ Backend ctx = {["A" := AMap {["x" := AInt 1]}]})
  /\ ~ (exists failed errs,
          Build map_to_list exSprint (fun _ => None) exHTTP
            [exProvider "A"; exProvider "B"] (Some exMatch) None None
          = Err (MultipleProvidersFailedError failed errs)).
Proof.
  split; [reflexivity|]. split; [vm_compute; reflexivity|]. split.
  - eexists. split; vm_compute; reflexivity.
  - intros (failed & errs & H). vm_compute in H. discriminate H.
Qed.


Lemma NewProviderClient_keeps_last_witness :
  let first := {| Name := "A"; GetContext := fun _ => Ok (AInt 1) |} in
  let last := {| Name := "A"; GetContext := fun _ => Ok (AInt 2) |} in
  let c := NewProviderClient ([first] ++ last :: []) in
  providers c !! "A" = Some last
  /\ (forall params, Get c "A" params = Ok (AInt 2))
  /\ (forall arrivals params,
        arrivals ≡ₚ map_to_list (providers c) ->
        (GetAll c arrivals params).1 !! "A" = Some (AInt 2)
        /\ NoDup (map_to_list (GetAll c arrivals params).1).*1)
  /\ (forall rangeOf Sprint completion baseParams,
        NoDup (map_to_list (executeProviders rangeOf Sprint c completion baseParams).1).*1
        /\ forall cfg, Manifest.Name cfg = "A" ->
             Get c (Manifest.Name cfg) (providerParams rangeOf Sprint baseParams cfg)
             = Ok (AInt 2)).
Proof.
  intros first last.
  apply (NewProviderClient_keeps_last [first] [] last).
  intros q Hq. apply elem_of_nil in Hq. destruct Hq.
Defined.

(** *** What [GetAll] gathers *)

Lemma collectAll_errors arrivals params : forall res errs,
  (collectAll arrivals params res errs).2 = errs ++ omap (failure params) arrivals.
Proof.
  induction arrivals as [|[n p] rest IH]; intros res errs; cbn [collectAll omap list_omap].
  - by rewrite app_nil_r.
  - unfold failure at 1. cbn [snd]. destruct (GetContext p params); rewrite IH; [done|].
    by rewrite <- app_assoc.
Qed.

(** X14.  [GetAll] calls every provider of the client.  Its result map
    holds under a name the answer of the provider of that name when it
    answered without error, and nothing otherwise; it returns no error
    exactly when every provider answered; and the errors it returns are
    those of the providers that failed.  The order in which the providers
    answer changes none of this but the order of the errors. *)
Theorem GetAll_collects (c : ProviderClient) (arrivals : list (string * Provider))
    (params : gmap string any) :
  arrivals ≡ₚ map_to_list (providers c) ->
  (forall n,
     (GetAll c arrivals params).1 !! n
     = match providers c !! n with
       | Some p => match GetContext p params with Ok d => Some d | Err _ => None end
       | None => None
       end)
  /\ ((GetAll c arrivals params).2 = None
      <-> forall n p, providers c !! n = Some p -> is_ok (GetContext p params) = true)
  /\ (forall names errs,
        (GetAll c arrivals params).2 = Some (names, errs) ->
        errs ≡ₚ omap (failure params) (map_to_list (providers c))).
Proof.
  intros Hperm.
  assert (Hnd : NoDup arrivals.*1) by (rewrite Hperm; apply NoDup_fst_map_to_list).
  assert (Hres : (GetAll c arrivals params).1 = (collectAll arrivals params ∅ []).1).
  { unfold GetAll. destruct (collectAll arrivals params ∅ []) as [res errs].
    by destruct (0 <? length errs)%nat. }
  assert (Herr : (GetAll c arrivals params).2
                 = match omap (failure params) arrivals with
                   | [] => None
                   | errs => Some (errs, errs)
                   end).
  { unfold GetAll. pose proof (collectAll_errors arrivals params ∅ []) as He.
    destruct (collectAll arrivals params ∅ []) as [res errs]. cbn in He. subst errs.
    by destruct (omap (failure params) arrivals). }
  split; [|split].
  - intros n. rewrite Hres. destruct (providers c !! n) as [p|] eqn:Hp.
    + apply collectAll_lookup; [done| |done]. rewrite Hperm. by apply elem_of_map_to_list.
    + rewrite collectAll_other; [done|]. intros Hin.
      apply list_elem_of_fmap in Hin as ([n' p] & -> & Hin). rewrite Hperm in Hin.
      apply elem_of_map_to_list in Hin. cbn in Hp. congruence.
  - rewrite Herr. split.
    + intros Hnone n p Hp.
      assert ((n, p) ∈ arrivals) as Hin by (rewrite Hperm; by apply elem_of_map_to_list).
      destruct (GetContext p params) as [d|e] eqn:Hg; [done|]. exfalso.
      assert (e ∈ omap (failure params) arrivals) as He.
      { apply list_elem_of_omap. exists (n, p). split; [done|]. unfold failure. cbn.
        by rewrite Hg. }
      destruct (omap (failure params) arrivals); [by apply elem_of_nil in He | done].
    + intros Hall. destruct (omap (failure params) arrivals) as [|e errs] eqn:Ho; [done|].
      exfalso. assert (e ∈ omap (failure params) arrivals) as He by (rewrite Ho; by left).
      apply list_elem_of_omap in He as ([n p] & Hin & Hf). rewrite Hperm in Hin.
      apply elem_of_map_to_list in Hin. specialize (Hall n p Hin).
      unfold failure in Hf. cbn in Hf. by destruct (GetContext p params).
  - intros names errs. rewrite Herr.
    destruct (omap (failure params) arrivals) as [|e errs'] eqn:Ho; [done|].
    intros H0; inversion H0; subst. rewrite <- Ho. by rewrite Hperm.
Qed.

(** *** A product page with three providers *)

Definition pageProvider (name condition : string) (optional : bool) : Manifest.Provider :=
  {| Manifest.Type_ := "http"; Manifest.Name := name;
     Manifest.URL := "http://backend/" +:+ name; Manifest.Method := "";
     Manifest.Headers := ∅; Manifest.Body := None; Manifest.Timeout := "";
     Manifest.Params := ∅; Manifest.Condition := condition;
     Manifest.Optional := optional |}.

Definition pageRoute : Manifest.Route :=
  {| Manifest.Pattern := "/items/:id"; Manifest.RouteName := "item";
     Manifest.Description := "";
     Manifest.RouteContext :=
       {| Manifest.Providers := [pageProvider "item" "" false;
                                 pageProvider "orders" "user.authenticated" false;
                                 pageProvider "promo" "user.guest" true] |};
     Manifest.Tools := []; Manifest.AgentInstructions := "" |}.

Definition pageMatch : RouteMatch :=
  {| Route := Some pageRoute; Params := {["id" := "7"]}; Query := ∅ |}.

(** The backend answers for the item, the orders service is down. *)
Definition pageHTTP (name : string) (_ : HTTPConfig) (_ : gmap string any)
  : result Error any :=
  if String.eqb name "orders"
  then Err (ProviderFailedError "orders" "unexpected status code 503")
  else Ok (AStr name).

Definition pageConfig (name : string) : HTTPConfig :=
  {| URL := "http://backend/" +:+ name; Method := "GET"; Headers := ∅; Body := None;
     Timeout := 10 * second |}.

Definition pageClient : ProviderClient :=
  NewProviderClient
    [NewHTTPProvider pageHTTP "item" (pageConfig "item");
     NewHTTPProvider pageHTTP "orders" (pageConfig "orders");
     NewHTTPProvider pageHTTP "promo" (pageConfig "promo")].

Definition pageUser : User :=
  {| ID := "u1"; Email := ""; UserName := "Ada"; Token := "" |}.

Definition pageSprint (v : any) : string :=
  match v with AStr s => s | _ => "" end.

Lemma Build_backend_witness :
  let completion := [pageProvider "orders" "user.authenticated" false;
                     pageProvider "item" "" false] in
  exists ctx,
    Build map_to_list pageSprint (fun _ => None) pageHTTP completion
      (Some pageMatch) None (Some pageUser) = Ok ctx
    /\ (forall n d,
          Backend ctx !! n = Some d
          <-> exists cfg,
                cfg ∈ Manifest.Providers (Manifest.RouteContext pageRoute)
                /\ dispatched (buildProviderParams pageMatch (Some pageUser)) cfg = true
                /\ Manifest.Name cfg = n
                /\ Get pageClient n
                     (providerParams map_to_list pageSprint
                        (buildProviderParams pageMatch (Some pageUser)) cfg) = Ok d)
    /\ forall completion',
         completionOf (buildProviderParams pageMatch (Some pageUser))
           (Manifest.Providers (Manifest.RouteContext pageRoute)) completion' ->
         Build map_to_list pageSprint (fun _ => None) pageHTTP completion'
           (Some pageMatch) None (Some pageUser) = Ok ctx.
Proof.
  intros completion.
  apply (Build_backend map_to_list pageSprint (fun _ => None) pageHTTP
           pageMatch pageRoute None (Some pageUser) pageClient completion).
  - reflexivity.
  - reflexivity.
  - unfold completionOf. vm_compute. apply perm_swap.
  - vm_compute. apply NoDup_cons. split; [|apply NoDup_singleton].
    intros Hin. apply list_elem_of_singleton in Hin. discriminate Hin.
Defined.

Lemma resolveEnvVars_returns_witness :
  let getenv := fun name : string => if String.eqb name "API" then "backend" else "" in
  exists output,
    resolveEnvVars getenv (S (Strings.countc "{" "http://{env.API}/{id}"))
      "http://{env.API}/{id}" = Some output
    /\ (Strings.countc "{" output <= Strings.countc "{" "http://{env.API}/{id}")%nat
    /\ match Strings.Index output "{env." with
       | None => True
       | Some start => Strings.Index (Strings.drop start output) "}" = None
       end.
Proof.
  intros getenv. apply (resolveEnvVars_returns getenv "http://{env.API}/{id}").
  intros name. unfold getenv. destruct (String.eqb name "API"); reflexivity.
Defined.

Lemma resolveEnvVars_loops_witness :
  resolveEnvVars (fun name => "{env." +:+ name +:+ "}") 1000
    ("{env." +:+ "A" +:+ "}" +:+ "/items")
  = None.
Proof.
  apply (resolveEnvVars_loops (fun name => "{env." +:+ name +:+ "}") "A" "/items" 1000);
    reflexivity.
Defined.

Lemma GetAll_collects_witness :
  let arrivals := map_to_list (providers pageClient) in
  (forall n,
     (GetAll pageClient arrivals ∅).1 !! n
     = match providers pageClient !! n with
       | Some p => match GetContext p ∅ with Ok d => Some d | Err _ => None end
       | None => None
       end)
  /\ ((GetAll pageClient arrivals ∅).2 = None
      <-> forall n p, providers pageClient !! n = Some p -> is_ok (GetContext p ∅) = true)
  /\ (forall names errs,
        (GetAll pageClient arrivals ∅).2 = Some (names, errs) ->
        errs ≡ₚ omap (failure ∅) (map_to_list (providers pageClient))).
Proof.
  intros arrivals. apply (GetAll_collects pageClient arrivals ∅). reflexivity.
Defined.

End Context.


(** ** Package [tools]: the HTTP tool *)

Module Tools.

(** What went wrong on a context path. *)
Inductive PathError : Type :=
| SegmentNotFound (part : string) (level : nat)
| NotAMap (part : string).

Inductive Error : Type :=
| InvalidToolError (reason : string)
| MissingParameterError (toolName paramName : string)
| ParameterResolutionError (toolName paramName : string) (cause : PathError).

Record HTTPTool := {
  definition : Manifest.Tool;
  workflowContext : gmap string any;
  userToken : string
}.

(** *** The tool loader (loader.go) *)

(** Why a tool could not be created: its definition is invalid, or its
    type is not supported. *)
Inductive LoadError : Type :=
| InvalidDefinition (cause : Error)
| UnsupportedToolTypeError (toolType : string).

(** The parameter loop of [validateTool]; [paramNames] holds the names
    seen. *)
Fixpoint validateParameters (paramNames : gset string)
    (params : list Manifest.ToolParameter) : option Error :=
  match params with
  | [] => None
  | param :: rest =>
      let name := Manifest.ParamName param in
      if String.eqb name "" then Some (InvalidToolError "parameter name is required")
      else if decide (name ∈ paramNames)
      then Some (InvalidToolError ("duplicate parameter name: " +:+ name))
      else if String.eqb (Manifest.ParamType param) ""
      then Some (InvalidToolError ("parameter type is required for: " +:+ name))
      else if String.eqb (Manifest.Source param) ""
      then Some (InvalidToolError ("parameter source is required for: " +:+ name))
      else if String.eqb (Manifest.Source param) "context"
              && String.eqb (Manifest.ContextPath param) ""
      then Some (InvalidToolError ("context_path is required for context parameter: " +:+ name))
      else validateParameters ({[name]} ∪ paramNames) rest
  end.

(** [validateTool]; the default method it writes goes to its own copy of
    the tool. *)
Definition validateTool (tool : Manifest.Tool) : option Error :=
  if String.eqb (Manifest.ToolName tool) "" then Some (InvalidToolError "tool name is required")
  else if String.eqb (Manifest.ToolDescription tool) ""
  then Some (InvalidToolError "tool description is required")
  else if String.eqb (Manifest.ToolType tool) ""
  then Some (InvalidToolError "tool type is required")
  else if String.eqb (Manifest.ToolType tool) "http"
          && String.eqb (Manifest.ToolURL (Manifest.Config tool)) ""
  then Some (InvalidToolError "URL is required for HTTP tools")
  else validateParameters ∅ (Manifest.Parameters tool).

Definition createTool (toolDef : Manifest.Tool) (workflowContext : gmap string any)
    (userToken : string) : result LoadError HTTPTool :=
  match validateTool toolDef with
  | Some err => Err (InvalidDefinition err)
  | None =>
      if String.eqb (Manifest.ToolType toolDef) "http"
      then Ok {| definition := toolDef; workflowContext := workflowContext;
                 userToken := userToken |}
      else Err (UnsupportedToolTypeError (Manifest.ToolType toolDef))
  end.

(** The loop of [LoadFromRoute]; an error comes back with the name of the
    tool it stopped at. *)
Fixpoint loadTools (toolDefs : list Manifest.Tool) (workflowContext : gmap string any)
    (userToken : string) (tools : list HTTPTool)
  : result (string * LoadError) (list HTTPTool) :=
  match toolDefs with
  | [] => Ok tools
  | toolDef :: rest =>
      match createTool toolDef workflowContext userToken with
      | Err err => Err (Manifest.ToolName toolDef, err)
      | Ok tool => loadTools rest workflowContext userToken (tools ++ [tool])
      end
  end.

Definition LoadFromRoute (route : Manifest.Route) (workflowContext : gmap string any)
    (userToken : string) : result (string * LoadError) (list HTTPTool) :=
  loadTools (Manifest.Tools route) workflowContext userToken [].

(** *** Names and paths (http_tool.go) *)

(** A byte the expression of [sanitizeName] lets stand: a letter, a digit,
    an underscore or a hyphen.  Every other byte, and with it every rune
    that is not ASCII, is in the negated class and goes. *)
Definition isNameChar (c : ascii) : bool :=
  let n := nat_of_ascii c in
  ((97 <=? n) && (n <=? 122) || (65 <=? n) && (n <=? 90)
   || (48 <=? n) && (n <=? 57) || (n =? 95) || (n =? 45))%nat.

Definition isUpper (c : ascii) : bool :=
  let n := nat_of_ascii c in ((65 <=? n) && (n <=? 90))%nat.

(** [strings.ToLower] on a byte of an ASCII string. *)
Definition toLower (c : ascii) : ascii :=
  if isUpper c then ascii_of_nat (nat_of_ascii c + 32) else c.

Fixpoint keep (f : ascii -> bool) (s : string) : string :=
  match s with
  | EmptyString => EmptyString
  | String c r => if f c then String c (keep f r) else keep f r
  end.

Fixpoint mapBytes (f : ascii -> ascii) (s : string) : string :=
  match s with
  | EmptyString => EmptyString
  | String c r => String (f c) (mapBytes f r)
  end.

Definition sanitizeName (name : string) : string :=
  let name := Strings.ReplaceAll name " " "_" in
  let name := keep isNameChar name in
  mapBytes toLower name.

(** The walk of [extractJSONPath]: a segment that is missing, or a value
    that is no map, ends it with nil. *)
Fixpoint walkJSON (parts : list string) (current : any) : any :=
  match parts with
  | [] => current
  | part :: rest =>
      match current with
      | AMap m =>
          match m !! part with
          | Some val => walkJSON rest val
          | None => ANil
          end
      | _ => ANil
      end
  end.

Definition extractJSONPath (data : any) (path : string) : any :=
  if String.eqb path "" then data
  else walkJSON (Strings.splitOn "." "" path) data.

Section HTTPTool.

(** Outside the repository: [strings.TrimSpace], [fmt.Sprint], the
    environment. *)
Variable TrimSpace : string -> string.
Variable Sprint : any -> string.
Variable Getenv : string -> string.

(** The walk of [extractFromContext] along the parts of the path. *)
Fixpoint walk (parts : list string) (i : nat) (current : any) : result PathError any :=
  match parts with
  | [] => Ok current
  | part :: rest =>
      let part := TrimSpace part in
      match current with
      | AMap m =>
          match m !! part with
          | Some value => walk rest (S i) value
          | None => Err (SegmentNotFound part i)
          end
      | _ => Err (NotAMap part)
      end
  end.

Definition extractFromContext (contextPath : string) (workflowContext : gmap string any)
  : result PathError any :=
  let path := TrimSpace contextPath in
  let path := Strings.TrimPrefix path "{{" in
  let path := Strings.TrimSuffix path "}}" in
  let path := TrimSpace path in
  walk (Strings.splitOn "." "" path) 0 (AMap workflowContext).

(** The body of the loop of [resolveParameters] for one parameter: the
    map [result] after it, or the error returned. *)
Definition resolveParameter (t : HTTPTool) (agentParams : gmap string any)
    (resolved : gmap string any) (param : Manifest.ToolParameter)
  : result Error (gmap string any) :=
  let name := Manifest.ParamName param in
  let toolName := Manifest.ToolName (definition t) in
  if String.eqb (Manifest.Source param) "agent" then
    match agentParams !! name with
    | Some val => Ok (<[name := val]> resolved)
    | None =>
        if Manifest.Required param then Err (MissingParameterError toolName name)
        else match Manifest.Default param with
             | ANil => Ok resolved
             | default => Ok (<[name := default]> resolved)
             end
    end
  else if String.eqb (Manifest.Source param) "route" then
    match workflowContext t !! name with
    | Some value => Ok (<[name := value]> resolved)
    | None =>
        if Manifest.Required param then Err (MissingParameterError toolName name)
        else Ok resolved
    end
  else if String.eqb (Manifest.Source param) "context" then
    if String.eqb (Manifest.ContextPath param) ""
    then Err (InvalidToolError ("context_path missing for parameter: " +:+ name))
    else
      match extractFromContext (Manifest.ContextPath param) (workflowContext t) with
      | Err err =>
          if Manifest.Required param
          then Err (ParameterResolutionError toolName name err)
          else Ok resolved
      | Ok value => Ok (<[name := value]> resolved)
      end
  else Ok resolved.

Fixpoint resolveLoop (t : HTTPTool) (agentParams : gmap string any)
    (params : list Manifest.ToolParameter) (resolved : gmap string any)
  : result Error (gmap string any) :=
  match params with
  | [] => Ok resolved
  | param :: rest =>
      match resolveParameter t agentParams resolved param with
      | Err e => Err e
      | Ok resolved => resolveLoop t agentParams rest resolved
      end
  end.

Definition resolveParameters (t : HTTPTool) (agentParams : gmap string any)
  : result Error (gmap string any) :=
  resolveLoop t agentParams (Manifest.Parameters (definition t)) ∅.

(** *** Templates of the tool *)

Fixpoint takeUntil (c : ascii) (s : string) : string :=
  match s with
  | EmptyString => EmptyString
  | String d r => if Ascii.eqb d c then EmptyString else String d (takeUntil c r)
  end.

(** A match of the environment expression (an opening brace, [env.], one
    or more characters other than a closing brace, a closing brace) at the
    head of [s]: the name and the length of the match. *)
Definition envMatch (s : string) : option (string * nat) :=
  if Strings.HasPrefix s "{env." then
    let rest := Strings.drop 5 s in
    let name := takeUntil "}" rest in
    if negb (String.eqb name "")
       && Strings.HasPrefix (Strings.drop (String.length name) rest) "}"
    then Some (name, (5 + String.length name + 1)%nat)
    else None
  else None.

(** [re.ReplaceAllStringFunc] for the environment expression; [skip] counts
    the characters of a match still to be passed over. *)
Fixpoint replaceEnv (skip : nat) (s : string) : string :=
  match s with
  | EmptyString => EmptyString
  | String c r =>
      match skip with
      | S k => replaceEnv k r
      | O =>
          match envMatch s with
          | Some (name, len) => Getenv name +:+ replaceEnv (len - 1) r
          | None => String c (replaceEnv 0 r)
          end
      end
  end.

(** [HTTPTool.resolveTemplate]; the loop ranges over the parameter map in
    the order [order]. *)
Definition resolveTemplate (t : HTTPTool) (order : list (string * any)) (template : string)
  : string :=
  let result :=
    if Strings.Contains template "{user.token}"
    then Strings.ReplaceAll template "{user.token}" (userToken t)
    else template in
  let result := replaceEnv 0 result in
  foldl (fun result '(key, value) =>
           let placeholder1 := "{" +:+ key +:+ "}" in
           let placeholder2 := "{{" +:+ key +:+ "}}" in
           let valueStr := Sprint value in
           if Strings.Contains result placeholder1 || Strings.Contains result placeholder2
           then Strings.ReplaceAll (Strings.ReplaceAll result placeholder1 valueStr)
                  placeholder2 valueStr
           else result)
        result order.

(** *** Properties of parameter resolution *)

Lemma resolveLoop_app t agentParams l1 l2 result :
  resolveLoop t agentParams (l1 ++ l2) result
  = match resolveLoop t agentParams l1 result with
    | Err e => Err e
    | Ok result => resolveLoop t agentParams l2 result
    end.
Proof.
  revert result. induction l1 as [|p l1 IH]; intros result; cbn [resolveLoop app]; [done|].
  destruct (resolveParameter t agentParams result p); [apply IH | done].
Qed.

Lemma resolveParameter_other t agentParams result p final name :
  resolveParameter t agentParams result p = Ok final ->
  Manifest.ParamName p <> name -> final !! name = result !! name.
Proof.
  unfold resolveParameter. intros H Hne.
  repeat match type of H with
         | (if ?b then _ else _) = _ => destruct b
         | match ?x with _ => _ end = _ => destruct x
         end;
    inversion H; subst; try done; by rewrite lookup_insert_ne.
Qed.

Lemma resolveLoop_other t agentParams params : forall result final name,
  resolveLoop t agentParams params result = Ok final ->
  (forall q, q ∈ params -> Manifest.ParamName q <> name) ->
  final !! name = result !! name.
Proof.
  induction params as [|p rest IH]; intros result final name H Hq; cbn [resolveLoop] in H.
  - by inversion H.
  - destruct (resolveParameter t agentParams result p) as [result'|] eqn:E; [|done].
    rewrite (IH _ _ _ H) by (intros q Hin; apply Hq; by right).
    apply (resolveParameter_other _ _ _ _ _ _ E). apply Hq. by left.
Qed.

(** C7.  In the order of declaration, once the parameters before it have
    resolved: an [agent] parameter missing from the parsed arguments yields a
    missing-parameter error when required, and otherwise takes its default
    when one is set; a [context] parameter whose context path does not
    traverse the workflow context yields a parameter-resolution error when
    required, and otherwise is skipped and absent from the resolved map. *)
Theorem resolveParameters_unresolved (t : HTTPTool) (agentParams : gmap string any)
    (pre post : list Manifest.ToolParameter) (p : Manifest.ToolParameter)
    (acc : gmap string any) :
  Manifest.Parameters (definition t) = pre ++ p :: post ->
  resolveLoop t agentParams pre ∅ = Ok acc ->
  (Manifest.Source p = "agent" -> agentParams !! Manifest.ParamName p = None ->
     (Manifest.Required p = true ->
        resolveParameters t agentParams
        = Err (MissingParameterError (Manifest.ToolName (definition t)) (Manifest.ParamName p)))
     /\ (Manifest.Required p = false -> Manifest.Default p <> ANil ->
          resolveLoop t agentParams (pre ++ [p]) ∅
          = Ok (<[Manifest.ParamName p := Manifest.Default p]> acc)
          /\ forall final,
               resolveParameters t agentParams = Ok final ->
               (forall q, q ∈ post -> Manifest.ParamName q <> Manifest.ParamName p) ->
               final !! Manifest.ParamName p = Some (Manifest.Default p)))
  /\ (Manifest.Source p = "context" -> Manifest.ContextPath p <> "" ->
      forall e, extractFromContext (Manifest.ContextPath p) (workflowContext t) = Err e ->
        (Manifest.Required p = true ->
           resolveParameters t agentParams
           = Err (ParameterResolutionError (Manifest.ToolName (definition t))
                    (Manifest.ParamName p) e))
        /\ (Manifest.Required p = false ->
             resolveLoop t agentParams (pre ++ [p]) ∅ = Ok acc
             /\ forall final,
                  resolveParameters t agentParams = Ok final ->
                  (forall q, q ∈ pre ++ post -> Manifest.ParamName q <> Manifest.ParamName p) ->
                  final !! Manifest.ParamName p = None)).
Proof.
  intros Hparams Hpre.
  assert (Hall : resolveParameters t agentParams
                 = match resolveParameter t agentParams acc p with
                   | Err e => Err e
                   | Ok resolved => resolveLoop t agentParams post resolved
                   end).
  { unfold resolveParameters. by rewrite Hparams, resolveLoop_app, Hpre. }
  assert (Hone : resolveLoop t agentParams (pre ++ [p]) ∅
                 = resolveParameter t agentParams acc p).
  { rewrite resolveLoop_app, Hpre. cbn. by destruct (resolveParameter _ _ _ _). }
  split.
  - intros Hsrc Hmiss.
    assert (Hstep : resolveParameter t agentParams acc p
                    = if Manifest.Required p
                      then Err (MissingParameterError (Manifest.ToolName (definition t))
                                  (Manifest.ParamName p))
                      else match Manifest.Default p with
                           | ANil => Ok acc
                           | default => Ok (<[Manifest.ParamName p := default]> acc)
                           end).
    { unfold resolveParameter. by rewrite Hsrc, Hmiss. }
    split.
    + intros Hreq. by rewrite Hall, Hstep, Hreq.
    + intros Hreq Hdef.
      assert (Hstep' : resolveParameter t agentParams acc p
                       = Ok (<[Manifest.ParamName p := Manifest.Default p]> acc)).
      { rewrite Hstep, Hreq. by destruct (Manifest.Default p). }
      split; [by rewrite Hone|].
      intros final Hfinal Hpost. rewrite Hall, Hstep' in Hfinal.
      rewrite (resolveLoop_other _ _ _ _ _ _ Hfinal Hpost). apply lookup_insert_eq.
  - intros Hsrc Hpath e He.
    assert (Hstep : resolveParameter t agentParams acc p
                    = if Manifest.Required p
                      then Err (ParameterResolutionError (Manifest.ToolName (definition t))
                                  (Manifest.ParamName p) e)
                      else Ok acc).
    { unfold resolveParameter. rewrite Hsrc, He. cbn.
      apply String.eqb_neq in Hpath. by rewrite Hpath. }
    split.
    + intros Hreq. by rewrite Hall, Hstep, Hreq.
    + intros Hreq. split; [by rewrite Hone, Hstep, Hreq|].
      intros final Hfinal Hq. rewrite Hall, Hstep, Hreq in Hfinal.
      rewrite (resolveLoop_other _ _ _ _ _ _ Hfinal)
        by (intros q Hin; apply Hq, elem_of_app; by right).
      rewrite (resolveLoop_other _ _ _ _ _ _ Hpre)
        by (intros q Hin; apply Hq, elem_of_app; by left).
      done.
Qed.

(** *** Parameters of a validated tool *)

Lemma validateParameters_None params : forall names,
  validateParameters names params = None ->
  NoDup (Manifest.ParamName <$> params)
  /\ forall p, p ∈ params ->
       (Manifest.ParamName p ∉ names)
       /\ (Manifest.Source p = "context" -> Manifest.ContextPath p <> "").
Proof.
  induction params as [|p rest IH]; intros names H0; cbn [validateParameters] in H0.
  - split; [constructor|]. intros p Hp. by apply elem_of_nil in Hp.
  - destruct (String.eqb (Manifest.ParamName p) ""); [done|].
    destruct (decide (Manifest.ParamName p ∈ names)) as [|Hfresh]; [done|].
    destruct (String.eqb (Manifest.ParamType p) ""); [done|].
    destruct (String.eqb (Manifest.Source p) ""); [done|].
    destruct (String.eqb (Manifest.Source p) "context"
              && String.eqb (Manifest.ContextPath p) "") eqn:Hctx; [done|].
    destruct (IH _ H0) as [Hnd Hall]. split.
    + cbn. apply NoDup_cons. split; [|done]. intros Hin.
      apply list_elem_of_fmap in Hin as (q & Heq & Hq).
      destruct (Hall q Hq) as [Hn _]. apply Hn. rewrite <- Heq.
      apply elem_of_union. left. by apply elem_of_singleton.
    + intros q Hq. apply elem_of_cons in Hq as [->|Hq].
      * split; [done|]. intros Hs Hc. by rewrite Hs, Hc in Hctx.
      * destruct (Hall q Hq) as [Hn Hc]. split; [|done].
        intros Hx. apply Hn, elem_of_union. by right.
Qed.

Lemma resolveLoop_no_invalid t agentParams params : forall resolved reason,
  (forall p, p ∈ params -> Manifest.Source p = "context" -> Manifest.ContextPath p <> "") ->
  resolveLoop t agentParams params resolved <> Err (InvalidToolError reason).
Proof.
  induction params as [|p rest IH]; intros resolved reason Hall; cbn [resolveLoop]; [done|].
  destruct (resolveParameter t agentParams resolved p) as [resolved'|e] eqn:Hp.
  - apply IH. intros q Hq. apply Hall. by right.
  - intros Heq. inversion Heq; subst e. unfold resolveParameter in Hp.
    assert (Hpath := Hall p ltac:(by left)).
    destruct (String.eqb (Manifest.Source p) "agent").
    { destruct (agentParams !! _); [done|]. destruct (Manifest.Required p); [done|].
      by destruct (Manifest.Default p). }
    destruct (String.eqb (Manifest.Source p) "route").
    { destruct (workflowContext t !! _); [done|]. by destruct (Manifest.Required p). }
    destruct (String.eqb_spec (Manifest.Source p) "context") as [Hs|]; [|done].
    specialize (Hpath Hs). apply String.eqb_neq in Hpath. rewrite Hpath in Hp.
    destruct (extractFromContext _ _); [done|]. by destruct (Manifest.Required p).
Qed.

Lemma resolveParameter_keys t agentParams resolved p final k :
  resolveParameter t agentParams resolved p = Ok final ->
  is_Some (final !! k) -> is_Some (resolved !! k) \/ Manifest.ParamName p = k.
Proof.
  intros H0 Hk. destruct (decide (Manifest.ParamName p = k)) as [|Hne]; [by right|].
  left. by rewrite <- (resolveParameter_other _ _ _ _ _ _ H0 Hne).
Qed.

Lemma resolveLoop_keys t agentParams params : forall resolved final k,
  resolveLoop t agentParams params resolved = Ok final ->
  is_Some (final !! k) ->
  is_Some (resolved !! k) \/ exists p, p ∈ params /\ Manifest.ParamName p = k.
Proof.
  induction params as [|p rest IH]; intros resolved final k H0 Hk; cbn [resolveLoop] in H0.
  - inversion H0; subst. by left.
  - destruct (resolveParameter t agentParams resolved p) as [resolved'|] eqn:Hp; [|done].
    destruct (IH _ _ _ H0 Hk) as [Hin|(q & Hq & Hn)].
    + destruct (resolveParameter_keys _ _ _ _ _ _ Hp Hin) as [?|?]; [by left|].
      right. exists p. split; [by left | done].
    + right. exists q. split; [by right | done].
Qed.

(** The step that sets the entry of a parameter of a tool with distinct
    parameter names. *)
Lemma resolveLoop_at t agentParams params p final :
  NoDup (Manifest.ParamName <$> params) -> p ∈ params ->
  resolveLoop t agentParams params ∅ = Ok final ->
  exists acc acc',
    resolveParameter t agentParams acc p = Ok acc'
    /\ acc !! Manifest.ParamName p = None
    /\ final !! Manifest.ParamName p = acc' !! Manifest.ParamName p.
Proof.
  intros Hnd Hin Hres. apply list_elem_of_split in Hin as (pre & post & ->).
  rewrite fmap_app in Hnd. cbn in Hnd. apply NoDup_app in Hnd as (_ & Hpre & Hpost).
  apply NoDup_cons in Hpost as [Hpost _].
  rewrite resolveLoop_app in Hres.
  destruct (resolveLoop t agentParams pre ∅) as [acc|] eqn:Hacc; [|done].
  cbn [resolveLoop] in Hres.
  destruct (resolveParameter t agentParams acc p) as [acc'|] eqn:Hp; [|done].
  exists acc, acc'. split; [done|]. split.
  - rewrite (resolveLoop_other _ _ _ _ _ _ Hacc); [done|].
    intros q Hq Heq. apply (Hpre (Manifest.ParamName p)); [|by left].
    rewrite <- Heq. apply list_elem_of_fmap. by exists q.
  - apply (resolveLoop_other _ _ _ _ _ _ Hres).
    intros q Hq Heq. apply Hpost. rewrite <- Heq. apply list_elem_of_fmap. by exists q.
Qed.

(** X15.  For a tool that passed [validateTool], parameter resolution
    never fails on a missing context path, and the map it returns has an
    entry for declared parameters only.  The entry of an [agent] parameter
    is the argument of the model when there is one; that of a [route]
    parameter is the top-level entry of the workflow context; that of a
    [context] parameter is what its path leads to: whatever the model
    passes under the name of a [route] or [context] parameter, or under a
    name that is not declared, is ignored. *)
Theorem resolveParameters_validated (t : HTTPTool) (agentParams : gmap string any) :
  validateTool (definition t) = None ->
  (forall reason, resolveParameters t agentParams <> Err (InvalidToolError reason))
  /\ forall final, resolveParameters t agentParams = Ok final ->
       (forall k, is_Some (final !! k) ->
          exists p, p ∈ Manifest.Parameters (definition t) /\ Manifest.ParamName p = k)
       /\ (forall p v, p ∈ Manifest.Parameters (definition t) ->
             Manifest.Source p = "agent" ->
             agentParams !! Manifest.ParamName p = Some v ->
             final !! Manifest.ParamName p = Some v)
       /\ (forall p, p ∈ Manifest.Parameters (definition t) ->
             Manifest.Source p = "route" ->
             final !! Manifest.ParamName p = workflowContext t !! Manifest.ParamName p)
       /\ (forall p, p ∈ Manifest.Parameters (definition t) ->
             Manifest.Source p = "context" ->
             final !! Manifest.ParamName p
             = match extractFromContext (Manifest.ContextPath p) (workflowContext t) with
               | Ok value => Some value
               | Err _ => None
               end).
Proof.
  intros Hvalid.
  assert (Hparams : validateParameters ∅ (Manifest.Parameters (definition t)) = None).
  { unfold validateTool in Hvalid.
    repeat match type of Hvalid with (if ?b then _ else _) = _ => destruct b end; done. }
  destruct (validateParameters_None _ _ Hparams) as [Hnd Hall].
  split.
  - intros reason. apply resolveLoop_no_invalid. intros p Hp. by destruct (Hall p Hp).
  - intros final Hres. unfold resolveParameters in Hres. split; [|split; [|split]].
    + intros k Hk. destruct (resolveLoop_keys _ _ _ _ _ _ Hres Hk) as [[? Hin]|?]; [|done].
      by rewrite lookup_empty in Hin.
    + intros p v Hp Hsrc Hv.
      destruct (resolveLoop_at _ _ _ _ _ Hnd Hp Hres) as (acc & acc' & Hstep & _ & ->).
      unfold resolveParameter in Hstep. rewrite Hsrc, Hv in Hstep. cbn in Hstep.
      inversion Hstep. apply lookup_insert_eq.
    + intros p Hp Hsrc.
      destruct (resolveLoop_at _ _ _ _ _ Hnd Hp Hres) as (acc & acc' & Hstep & Hacc & ->).
      unfold resolveParameter in Hstep. rewrite Hsrc in Hstep. cbn in Hstep.
      destruct (workflowContext t !! Manifest.ParamName p) as [v|].
      * inversion Hstep. apply lookup_insert_eq.
      * destruct (Manifest.Required p); [done|]. inversion Hstep; subst. done.
    + intros p Hp Hsrc.
      destruct (resolveLoop_at _ _ _ _ _ Hnd Hp Hres) as (acc & acc' & Hstep & Hacc & ->).
      destruct (Hall p Hp) as [_ Hpath]. specialize (Hpath Hsrc).
      apply String.eqb_neq in Hpath.
      unfold resolveParameter in Hstep. rewrite Hsrc, Hpath in Hstep. cbn in Hstep.
      destruct (extractFromContext _ _) as [v|].
      * inversion Hstep. apply lookup_insert_eq.
      * destruct (Manifest.Required p); [done|]. inversion Hstep; subst. done.
Qed.

End HTTPTool.

(** *** A search tool *)

Definition exParameter (name source path : string) (required : bool) (default : any)
  : Manifest.ToolParameter :=
  {| Manifest.ParamName := name; Manifest.ParamType := "string";
     Manifest.ParamDescription := ""; Manifest.Required := required;
     Manifest.Source := source; Manifest.ContextPath := path;
     Manifest.Enum := []; Manifest.Default := default |}.

Definition exTool : HTTPTool :=
  {| definition :=
       {| Manifest.ToolName := "search"; Manifest.ToolDescription := "searches";
          Manifest.ToolType := "http";
          Manifest.Config :=
            {| Manifest.ToolMethod := "GET";
               Manifest.ToolURL := "https://api/items/{{id}}";
               Manifest.ToolHeaders := ∅; Manifest.ToolBody := None;
               Manifest.ToolTimeout := ""; Manifest.ResponsePath := "" |};
          Manifest.Parameters :=
            [exParameter "q" "agent" "" true ANil;
             exParameter "limit" "agent" "" false (AInt 10);
             exParameter "uid" "context" "{{user.id}}" false ANil] |};
     workflowContext := {["id" := AStr "42"]};
     userToken := "" |}.

(** The paths of the example hold no space. *)
Definition exTrimSpace (s : string) : string := s.

Definition exSprint (v : any) : string :=
  match v with AStr s => s | _ => "" end.


Lemma resolveParameters_unresolved_witness :
  resolveParameters exTrimSpace exTool ∅ = Err (MissingParameterError "search" "q")
  /\ (forall final,
        resolveParameters exTrimSpace exTool {["q" := AStr "shoes"]} = Ok final ->
        final !! "limit" = Some (AInt 10))
  /\ (forall final,
        resolveParameters exTrimSpace exTool {["q" := AStr "shoes"]} = Ok final ->
        final !! "uid" = None).
Proof.
  split; [|split].
  - apply (proj1 (resolveParameters_unresolved exTrimSpace exTool ∅ []
                    [exParameter "limit" "agent" "" false (AInt 10);
                     exParameter "uid" "context" "{{user.id}}" false ANil]
                    (exParameter "q" "agent" "" true ANil) ∅ eq_refl eq_refl));
      reflexivity.
  - intros final Hfinal.
    assert (Hpre : resolveLoop exTrimSpace exTool {["q" := AStr "shoes"]}
                     [exParameter "q" "agent" "" true ANil] ∅
                   = Ok {["q" := AStr "shoes"]}) by (vm_compute; reflexivity).
    apply (proj1 (resolveParameters_unresolved exTrimSpace exTool {["q" := AStr "shoes"]}
                    [exParameter "q" "agent" "" true ANil]
                    [exParameter "uid" "context" "{{user.id}}" false ANil]
                    (exParameter "limit" "agent" "" false (AInt 10))
                    {["q" := AStr "shoes"]} eq_refl Hpre));
      try reflexivity; try discriminate; try done.
    intros q Hq. apply list_elem_of_singleton in Hq as ->. discriminate.
  - intros final Hfinal.
    assert (Hpre : resolveLoop exTrimSpace exTool {["q" := AStr "shoes"]}
                     [exParameter "q" "agent" "" true ANil;
                      exParameter "limit" "agent" "" false (AInt 10)] ∅
                   = Ok (<["limit" := AInt 10]> {["q" := AStr "shoes"]}))
      by (vm_compute; reflexivity).
    assert (Hpath : extractFromContext exTrimSpace "{{user.id}}" (workflowContext exTool)
                    = Err (SegmentNotFound "user" 0)) by (vm_compute; reflexivity).
    apply (proj2 (resolveParameters_unresolved exTrimSpace exTool {["q" := AStr "shoes"]}
                    [exParameter "q" "agent" "" true ANil;
                     exParameter "limit" "agent" "" false (AInt 10)]
                    []
                    (exParameter "uid" "context" "{{user.id}}" false ANil)
                    (<["limit" := AInt 10]> {["q" := AStr "shoes"]}) eq_refl Hpre)
             eq_refl ltac:(discriminate) (SegmentNotFound "user" 0) Hpath);
      try reflexivity; try done.
    intros q Hq. apply list_elem_of_In in Hq. cbn in Hq.
    destruct Hq as [<-|[<-|[]]]; discriminate.
Defined.


(** *** Loading the tools of a route *)

Lemma loadTools_spec toolDefs workflowContext userToken : forall tools,
  match loadTools toolDefs workflowContext userToken tools with
  | Ok loaded =>
      loaded = tools ++ ((fun d => {| definition := d; workflowContext := workflowContext;
                                      userToken := userToken |}) <$> toolDefs)
      /\ forall d, d ∈ toolDefs -> validateTool d = None /\ Manifest.ToolType d = "http"
  | Err (name, err) =>
      exists d, d ∈ toolDefs /\ Manifest.ToolName d = name
                /\ createTool d workflowContext userToken = Err err
  end.
Proof.
  induction toolDefs as [|d rest IH]; intros tools; cbn [loadTools].
  - rewrite app_nil_r. split; [done|]. intros d Hd. by apply elem_of_nil in Hd.
  - destruct (createTool d workflowContext userToken) as [tool|err] eqn:Hc.
    + specialize (IH (tools ++ [tool])).
      destruct (loadTools rest workflowContext userToken (tools ++ [tool])) as [loaded|[n e]].
      * destruct IH as [-> Hall]. unfold createTool in Hc.
        destruct (validateTool d) eqn:Hv; [done|].
        destruct (String.eqb_spec (Manifest.ToolType d) "http") as [Ht|]; [|done].
        inversion Hc; subst tool. rewrite <- app_assoc. split; [done|].
        intros d' Hd'. apply elem_of_cons in Hd' as [->|Hd']; [done | by apply Hall].
      * destruct IH as (d' & Hd' & Hn & He). exists d'. split; [by right | done].
    + exists d. split; [by left | done].
Qed.

(** X16.  [LoadFromRoute] loads all the tools of a route or none.  It
    succeeds exactly when every tool passes [validateTool] and has the type
    [http], and then returns one tool per definition, in the order of the
    route, each with the workflow context and the token it was given.
    Otherwise it returns the error of a tool that could not be created,
    with its name. *)
Theorem LoadFromRoute_all_or_nothing (route : Manifest.Route)
    (workflowContext : gmap string any) (userToken : string) :
  (is_ok (LoadFromRoute route workflowContext userToken) = true
   <-> forall d, d ∈ Manifest.Tools route ->
         validateTool d = None /\ Manifest.ToolType d = "http")
  /\ (forall tools, LoadFromRoute route workflowContext userToken = Ok tools ->
        tools = (fun d => {| definition := d; workflowContext := workflowContext;
                             userToken := userToken |}) <$> Manifest.Tools route)
  /\ (forall name err, LoadFromRoute route workflowContext userToken = Err (name, err) ->
        exists d, d ∈ Manifest.Tools route /\ Manifest.ToolName d = name
                  /\ createTool d workflowContext userToken = Err err).
Proof.
  unfold LoadFromRoute.
  pose proof (loadTools_spec (Manifest.Tools route) workflowContext userToken []) as Hspec.
  destruct (loadTools (Manifest.Tools route) workflowContext userToken []) as [loaded|[n e]].
  - destruct Hspec as [-> Hall]. cbn [app]. split; [done|]. split; [|done].
    intros tools Ht. by inversion Ht.
  - destruct Hspec as (d & Hd & Hn & He). split; [|split; [done|]].
    + split; [done|]. intros Hall. destruct (Hall d Hd) as [Hv Ht].
      unfold createTool in He. rewrite Hv, Ht in He. done.
    + intros name err Heq. inversion Heq; subst. by exists d.
Qed.

(** *** Sanitized names *)

Fixpoint allBytes (f : ascii -> bool) (s : string) : bool :=
  match s with
  | EmptyString => true
  | String c r => f c && allBytes f r
  end.

(** A byte of a sanitized name: a lower-case letter, a digit, an
    underscore or a hyphen. *)
Definition isSafeChar (c : ascii) : bool := isNameChar c && negb (isUpper c).

Lemma toLower_safe c : isNameChar c = true -> isSafeChar (toLower c) = true.
Proof.
  destruct c as [[] [] [] [] [] [] [] []]; vm_compute; intros H; try done.
Qed.

Lemma toLower_fixed c : isUpper c = false -> toLower c = c.
Proof. unfold toLower. by intros ->. Qed.

Lemma isSafeChar_no_space c : isSafeChar c = true -> Ascii.eqb " " c = false.
Proof. destruct c as [[] [] [] [] [] [] [] []]; vm_compute; intros H; try done. Qed.

Lemma allBytes_sanitized s : allBytes isSafeChar (mapBytes toLower (keep isNameChar s)) = true.
Proof.
  induction s as [|c s IH]; [done|]. cbn [keep].
  destruct (isNameChar c) eqn:Hc; [|done]. cbn [mapBytes allBytes].
  by rewrite toLower_safe, IH.
Qed.

Lemma sanitize_fixed s :
  allBytes isSafeChar s = true ->
  Strings.countc " " s = O /\ keep isNameChar s = s /\ mapBytes toLower s = s.
Proof.
  induction s as [|c s IH]; [done|]. cbn [allBytes]. intros Hs.
  apply andb_true_iff in Hs as [Hc Hs]. destruct (IH Hs) as (H1 & H2 & H3).
  cbn [Strings.countc keep mapBytes]. rewrite (isSafeChar_no_space c Hc), H1.
  unfold isSafeChar in Hc. apply andb_true_iff in Hc as [Hn Hu].
  apply negb_true_iff in Hu. by rewrite Hn, H2, H3, (toLower_fixed c Hu).
Qed.

(** X17.  A sanitized tool name is made of lower-case letters, digits,
    underscores and hyphens alone, whatever bytes the name had, and
    sanitizing it again changes nothing. *)
Theorem sanitizeName_safe (name : string) :
  allBytes isSafeChar (sanitizeName name) = true
  /\ sanitizeName (sanitizeName name) = sanitizeName name.
Proof.
  assert (Hsafe : allBytes isSafeChar (sanitizeName name) = true)
    by apply allBytes_sanitized.
  split; [done|]. destruct (sanitize_fixed _ Hsafe) as (H1 & H2 & H3).
  unfold sanitizeName at 1. unfold Strings.ReplaceAll.
  by rewrite (Strings.replace_go_absent_all " " "" "_" _ H1), H2, H3.
Qed.

(** *** Paths into a response *)

Lemma splitOn_app sep p q : forall cur,
  Strings.splitOn sep cur (p +:+ String sep q)
  = Strings.splitOn sep cur p ++ Strings.splitOn sep "" q.
Proof.
  induction p as [|c p IH]; intros cur.
  - rewrite Strings.append_nil_l. cbn [Strings.splitOn]. by rewrite Ascii.eqb_refl.
  - rewrite Strings.append_cons. cbn [Strings.splitOn].
    destruct (Ascii.eqb c sep); [cbn [app]; f_equal|]; apply IH.
Qed.

Lemma splitOn_cons sep s : forall cur, Strings.splitOn sep cur s <> [].
Proof.
  induction s as [|c s IH]; intros cur; cbn [Strings.splitOn]; [done|].
  destruct (Ascii.eqb c sep); [done | apply IH].
Qed.

Lemma walkJSON_app l1 l2 : forall data,
  l2 <> [] -> walkJSON (l1 ++ l2) data = walkJSON l2 (walkJSON l1 data).
Proof.
  induction l1 as [|part l1 IH]; intros data Hl2; [done|]. cbn [app walkJSON].
  assert (Hnil : walkJSON l2 ANil = ANil) by (by destruct l2).
  destruct data; try done. destruct (_ !! part); [by apply IH | done].
Qed.

(** X18.  Paths into a response compose: for two paths that are not empty,
    following the first, a dot and the second from a value is following the
    second from what the first leads to.  When the first leads nowhere the
    result is nil on both sides. *)
Theorem extractJSONPath_compose (data : any) (p q : string) :
  p <> "" -> q <> "" ->
  extractJSONPath data (p +:+ "." +:+ q) = extractJSONPath (extractJSONPath data p) q.
Proof.
  intros Hp Hq. unfold extractJSONPath.
  apply String.eqb_neq in Hp as Hp', Hq as Hq'. rewrite Hp', Hq'.
  assert (String.eqb (p +:+ "." +:+ q) "" = false) as ->.
  { apply String.eqb_neq. destruct p; [done|]. by rewrite Strings.append_cons. }
  rewrite Strings.append_cons, Strings.append_nil_l, splitOn_app.
  apply walkJSON_app, splitOn_cons.
Qed.

(** *** A tool that passes validation *)

Definition orderParameter (name source path : string) (required : bool)
  : Manifest.ToolParameter :=
  {| Manifest.ParamName := name; Manifest.ParamType := "string";
     Manifest.ParamDescription := ""; Manifest.Required := required;
     Manifest.Source := source; Manifest.ContextPath := path;
     Manifest.Enum := []; Manifest.Default := ANil |}.

Definition orderTool : HTTPTool :=
  {| definition :=
       {| Manifest.ToolName := "Get Order"; Manifest.ToolDescription := "fetches an order";
          Manifest.ToolType := "http";
          Manifest.Config :=
            {| Manifest.ToolMethod := "";
               Manifest.ToolURL := "https://api/users/{user_id}/orders/{order}";
               Manifest.ToolHeaders := ∅; Manifest.ToolBody := None;
               Manifest.ToolTimeout := ""; Manifest.ResponsePath := "" |};
          Manifest.Parameters :=
            [orderParameter "order" "agent" "" true;
             orderParameter "user_id" "context" "user.id" true;
             orderParameter "id" "route" "" false] |};
     workflowContext := {["id" := AStr "7"; "user" := AMap {["id" := AStr "u1"]}]};
     userToken := "" |}.

(** The paths of the example hold no space. *)
Definition noTrim (s : string) : string := s.

(** The model asks for order 12 and tries to pass a user of its own. *)
Definition orderArguments : gmap string any :=
  {["order" := AStr "12"; "user_id" := AStr "intruder"; "debug" := ABool true]}.

Lemma resolveParameters_validated_witness :
  exists final,
    resolveParameters noTrim orderTool orderArguments = Ok final
    /\ final !! "order" = Some (AStr "12")
    /\ final !! "user_id" = Some (AStr "u1")
    /\ final !! "id" = Some (AStr "7")
    /\ final !! "debug" = None.
Proof.
  destruct (resolveParameters_validated noTrim orderTool orderArguments eq_refl)
    as [_ Hfinal].
  destruct (resolveParameters noTrim orderTool orderArguments) as [final|e] eqn:Hres;
    [|vm_compute in Hres; discriminate Hres].
  exists final. split; [done|].
  destruct (Hfinal final eq_refl) as (Hkeys & Hagent & Hroute & Hctx).
  assert (Hin : forall p, In p (Manifest.Parameters (definition orderTool)) ->
                  p ∈ Manifest.Parameters (definition orderTool))
    by (intros p; apply list_elem_of_In).
  split; [|split; [|split]].
  - apply (Hagent (orderParameter "order" "agent" "" true)); [|done..].
    apply Hin. cbn. auto.
  - pose proof (Hctx (orderParameter "user_id" "context" "user.id" true)
                  ltac:(apply Hin; cbn; auto) eq_refl) as Hv.
    vm_compute in Hv. exact Hv.
  - pose proof (Hroute (orderParameter "id" "route" "" false)
                  ltac:(apply Hin; cbn; auto) eq_refl) as Hv.
    vm_compute in Hv. exact Hv.
  - destruct (final !! "debug") as [v|] eqn:Hd; [|done]. exfalso.
    destruct (Hkeys "debug" ltac:(by eexists)) as (p & Hp & Hn).
    apply list_elem_of_In in Hp. cbn in Hp.
    destruct Hp as [<-|[<-|[<-|[]]]]; discriminate Hn.
Defined.

Lemma extractJSONPath_compose_witness :
  let data := AMap {["data" := AMap {["items" := ASlice [AInt 1; AInt 2]]}]} in
  extractJSONPath data ("data" +:+ "." +:+ "items")
  = extractJSONPath (extractJSONPath data "data") "items".
Proof.
  intros data. apply (extractJSONPath_compose data "data" "items"); discriminate.
Defined.

End Tools.


(** ** Package [llm]: messages *)

Module LLM.

(** Modelled from the spec: the declarations of [llm.Message], [llm.ToolCall]
    and [llm.Tool] are not among the sources; a message has a role among
    system, user, assistant and tool, a text, tool calls (id, function name,
    JSON arguments) and, for a tool reply, the id of the call answered. *)
Record ToolCall := {
  CallID : string;
  FunctionName : string;
  Arguments : string
}.

Record Message := {
  Role : string;
  Content : string;
  ToolCalls : list ToolCall;
  ToolCallID : string
}.

Record Tool := { ToolName : string; ToolDescription : string }.

Definition RoleSystem : string := "system".
Definition RoleUser : string := "user".
Definition RoleAssistant : string := "assistant".
Definition RoleTool : string := "tool".

Definition NewUserMessage (content : string) : Message :=
  {| Role := RoleUser; Content := content; ToolCalls := []; ToolCallID := "" |}.

Definition NewSystemMessage (content : string) : Message :=
  {| Role := RoleSystem; Content := content; ToolCalls := []; ToolCallID := "" |}.

End LLM.

(** ** Package [memoryx]: conversation memory *)

Module Memoryx.

Import LLM.

(** An error of the store or of serialization, by its message. *)
Definition error : Type := string.

(** The [Memory] interface: what the agent may do with a memory.  A call
    that changes the memory returns its new state. *)
Class Memory (M : Type) := {
  Messages : M -> result error (list Message);
  Add : Message -> M -> result error M;
  Clear : M -> result error M
}.

(** *** BufferMemory (buffer.go) *)

Record BufferMemory := {
  systemMessage : Message;
  messages : list Message;
  maxMessages : Z
}.

Definition NewBufferMemory (systemMessage : Message) (maxMessages : Z) : BufferMemory :=
  {| systemMessage := systemMessage; messages := []; maxMessages := maxMessages |}.

Definition BufferMessages (m : BufferMemory) : result error (list Message) :=
  let allMessages :=
    if negb (String.eqb (Content (systemMessage m)) "") then [systemMessage m] else [] in
  Ok (allMessages ++ messages m).

Definition BufferAdd (message : Message) (m : BufferMemory) : result error BufferMemory :=
  let msgs := messages m ++ [message] in
  let msgs :=
    if (0 <? maxMessages m) && (maxMessages m <? Z.of_nat (length msgs))
    then drop (Z.to_nat (Z.of_nat (length msgs) - maxMessages m)) msgs
    else msgs in
  Ok {| systemMessage := systemMessage m; messages := msgs; maxMessages := maxMessages m |}.

Definition BufferClear (m : BufferMemory) : result error BufferMemory :=
  Ok {| systemMessage := systemMessage m; messages := []; maxMessages := maxMessages m |}.

#[export] Instance BufferMemory_Memory : Memory BufferMemory :=
  {| Messages := BufferMessages; Add := BufferAdd; Clear := BufferClear |}.

(** *** More of the buffer (buffer.go) and its factory (memory.go) *)

Definition BufferCount (m : BufferMemory) : Z := Z.of_nat (length (messages m)).

(** [GetLastN]: a copy of the last [n] messages. *)
Definition BufferGetLastN (n : Z) (m : BufferMemory) : list Message :=
  if (n <=? 0) || Nat.eqb (length (messages m)) 0 then []
  else if Z.of_nat (length (messages m)) <=? n then messages m
  else drop (Z.to_nat (Z.of_nat (length (messages m)) - n)) (messages m).

Definition BufferGetByRole (role : string) (m : BufferMemory) : list Message :=
  filter (fun msg => Role msg = role) (messages m).

(** [Replace]: the messages are copied in as they come, whatever the
    limit. *)
Definition BufferReplace (msgs : list Message) (m : BufferMemory)
  : result error BufferMemory :=
  Ok {| systemMessage := systemMessage m; messages := msgs; maxMessages := maxMessages m |}.

Definition BufferSetSystemMessage (message : Message) (m : BufferMemory) : BufferMemory :=
  {| systemMessage := message; messages := messages m; maxMessages := maxMessages m |}.

(** [BufferMemoryFactory.Create], for a factory with limit [maxMessages]. *)
Definition BufferMemoryFactoryCreate (maxMessages : Z) (systemMessage : Message)
  : BufferMemory :=
  if 0 <? maxMessages then NewBufferMemory systemMessage maxMessages
  else NewBufferMemory systemMessage 0.

(** *** Sessions and their store (session.go, postgres.go, the migration) *)

Record Session := {
  ID : string;
  UserID : string;
  Title : string;
  SystemMsg : string;
  SessionCreatedAt : Z;
  UpdatedAt : Z;
  IsActive : bool
}.

Record SessionMessage := {
  MessageID : Z;
  SessionID : string;
  MsgRole : string;
  MsgContent : string;
  MsgToolCalls : string;
  MsgToolCallID : string;
  CreatedAt : Z
}.

(** The two tables, the sequence behind [session_messages.id], and whether
    the database answers ([false]: every statement fails).  The length
    limits of the columns are left out. *)
Record Database := {
  available : bool;
  sessions : list Session;
  session_messages : list SessionMessage;
  next_id : Z
}.

(** [ORDER BY created_at ASC]: insertion sort, rows of equal time staying in
    table order. *)
Fixpoint insertByCreated (x : SessionMessage) (l : list SessionMessage)
  : list SessionMessage :=
  match l with
  | [] => [x]
  | y :: l' =>
      if CreatedAt x <=? CreatedAt y then x :: y :: l' else y :: insertByCreated x l'
  end.

Definition orderByCreated (l : list SessionMessage) : list SessionMessage :=
  foldr insertByCreated [] l.

Definition validRole (role : string) : bool :=
  String.eqb role "system" || String.eqb role "user"
  || String.eqb role "assistant" || String.eqb role "tool".

Definition unavailable : error := "database unavailable".

(** [GetMessages]. *)
Definition GetMessages (db : Database) (sessionID : string)
  : result error (list SessionMessage) :=
  if available db
  then Ok (orderByCreated
             (filter (fun r => SessionID r = sessionID) (session_messages db)))
  else Err unavailable.

(** [ClearMessages]: the rows of the session whose role is not [system] are
    deleted. *)
Definition ClearMessages (db : Database) (sessionID : string) : result error Database :=
  if available db
  then Ok {| available := available db; sessions := sessions db;
             session_messages :=
               filter (fun r => ~ (SessionID r = sessionID /\ MsgRole r <> "system"))
                      (session_messages db);
             next_id := next_id db |}
  else Err unavailable.

(** [AddMessage]: the insert (with the role check and the foreign key of the
    table), then the update of the session's [updated_at], whose failure is
    ignored. *)
Definition AddMessage (db : Database) (message : SessionMessage) : result error Database :=
  if negb (available db) then Err unavailable
  else if negb (validRole (MsgRole message)) then Err "check constraint on role"
  else if negb (existsb (fun s => String.eqb (ID s) (SessionID message)) (sessions db))
       then Err "foreign key on session_id"
  else
    Ok {| available := available db;
          sessions :=
            map (fun s => if String.eqb (ID s) (SessionID message)
                          then {| ID := ID s; UserID := UserID s; Title := Title s;
                                  SystemMsg := SystemMsg s;
                                  SessionCreatedAt := SessionCreatedAt s;
                                  UpdatedAt := CreatedAt message; IsActive := IsActive s |}
                          else s) (sessions db);
          session_messages :=
            session_messages db
            ++ [{| MessageID := next_id db; SessionID := SessionID message;
                   MsgRole := MsgRole message; MsgContent := MsgContent message;
                   MsgToolCalls := MsgToolCalls message;
                   MsgToolCallID := MsgToolCallID message;
                   CreatedAt := CreatedAt message |}];
          next_id := next_id db + 1 |}.

(** *** Sessions: look-up and deletion (postgres.go, service.go) *)

Definition sessionNotFound : error := "session not found".
Definition sessionInactive : error := "session is inactive".

(** [GetSession]: the row of that id; the id is the primary key. *)
Definition GetSession (db : Database) (sessionID : string) : result error Session :=
  if negb (available db) then Err unavailable
  else match find (fun s => String.eqb (ID s) sessionID) (sessions db) with
       | Some s => Ok s
       | None => Err sessionNotFound
       end.

(** [DeleteSession]: the update that clears [is_active]; it touches no row
    when there is no such session, and returns no error then. *)
Definition DeleteSession (db : Database) (sessionID : string) : result error Database :=
  if negb (available db) then Err unavailable
  else
    Ok {| available := available db;
          sessions :=
            map (fun s => if String.eqb (ID s) sessionID
                          then {| ID := ID s; UserID := UserID s; Title := Title s;
                                  SystemMsg := SystemMsg s;
                                  SessionCreatedAt := SessionCreatedAt s;
                                  UpdatedAt := UpdatedAt s; IsActive := false |}
                          else s) (sessions db);
          session_messages := session_messages db;
          next_id := next_id db |}.

Definition GetMessageCount (db : Database) (sessionID : string) : result error Z :=
  if negb (available db) then Err unavailable
  else Ok (Z.of_nat (length (filter (fun r => SessionID r = sessionID)
                                    (session_messages db)))).

Section SessionMemory.

(** [encoding/json] on tool calls. *)
Variable marshalToolCalls : list ToolCall -> result error string.
Variable unmarshalToolCalls : string -> option (list ToolCall).

Definition ToLLMMessage (sm : SessionMessage) : result error Message :=
  if negb (String.eqb (MsgToolCalls sm) "") then
    match unmarshalToolCalls (MsgToolCalls sm) with
    | None => Err "invalid tool calls"
    | Some toolCalls =>
        Ok {| Role := MsgRole sm; Content := MsgContent sm; ToolCalls := toolCalls;
              ToolCallID := MsgToolCallID sm |}
    end
  else Ok {| Role := MsgRole sm; Content := MsgContent sm; ToolCalls := [];
             ToolCallID := MsgToolCallID sm |}.

(** [FromLLMMessage], at clock reading [now]. *)
Definition FromLLMMessage (now : Z) (sessionID : string) (msg : Message)
  : result error SessionMessage :=
  if (0 <? length (ToolCalls msg))%nat then
    match marshalToolCalls (ToolCalls msg) with
    | Err e => Err e
    | Ok toolCallsJSON =>
        Ok {| MessageID := 0; SessionID := sessionID; MsgRole := Role msg;
              MsgContent := Content msg; MsgToolCalls := toolCallsJSON;
              MsgToolCallID := ToolCallID msg; CreatedAt := now |}
    end
  else Ok {| MessageID := 0; SessionID := sessionID; MsgRole := Role msg;
             MsgContent := Content msg; MsgToolCalls := "";
             MsgToolCallID := ToolCallID msg; CreatedAt := now |}.

(** A session memory and the world it lives in: the handle is the session
    id, the state is the database, [now] is what [time.Now] reads. *)
Record SessionMemory := {
  sessionID : string;
  repository : Database;
  now : Z
}.

(** The conversion loop of [SessionMemory.Messages]: a row that does not
    convert is skipped. *)
Definition convertAll (rows : list SessionMessage) : list Message :=
  omap (fun sm => match ToLLMMessage sm with Ok msg => Some msg | Err _ => None end) rows.

Definition SessionMessages (m : SessionMemory) : result error (list Message) :=
  match GetMessages (repository m) (sessionID m) with
  | Err err => Err err
  | Ok sessionMessages => Ok (convertAll sessionMessages)
  end.

Definition SessionAdd (message : Message) (m : SessionMemory) : result error SessionMemory :=
  match FromLLMMessage (now m) (sessionID m) message with
  | Err err => Err err
  | Ok sessionMsg =>
      match AddMessage (repository m) sessionMsg with
      | Err err => Err err
      | Ok db => Ok {| sessionID := sessionID m; repository := db; now := now m |}
      end
  end.

Definition SessionClear (m : SessionMemory) : result error SessionMemory :=
  match ClearMessages (repository m) (sessionID m) with
  | Err err => Err err
  | Ok db => Ok {| sessionID := sessionID m; repository := db; now := now m |}
  end.

#[export] Instance SessionMemory_Memory : Memory SessionMemory :=
  {| Messages := SessionMessages; Add := SessionAdd; Clear := SessionClear |}.

(** [SessionService.CreateSession], with the id and the clock reading given:
    the session row, then its system message. *)
Definition CreateSession (db : Database) (id userID title : string) (nowAt : Z)
    (systemMessage : Message) : result error Database :=
  if negb (available db) then Err unavailable
  else if existsb (fun s => String.eqb (ID s) id) (sessions db)
       then Err "duplicate key on sessions"
  else
    let db := {| available := true;
                 sessions := sessions db
                   ++ [{| ID := id; UserID := userID; Title := title;
                          SystemMsg := Content systemMessage;
                          SessionCreatedAt := nowAt; UpdatedAt := nowAt;
                          IsActive := true |}];
                 session_messages := session_messages db;
                 next_id := next_id db |} in
    match FromLLMMessage nowAt id systemMessage with
    | Err err => Err err
    | Ok sysMsg => AddMessage db sysMsg
    end.

(** [SessionService.GetSessionMemory], at clock reading [nowAt]: the
    session must exist and be active. *)
Definition GetSessionMemory (db : Database) (id : string) (nowAt : Z)
  : result error SessionMemory :=
  match GetSession db id with
  | Err err => Err err
  | Ok session =>
      if negb (IsActive session) then Err sessionInactive
      else Ok {| sessionID := id; repository := db; now := nowAt |}
  end.

(** *** Properties of [Clear] *)

Lemma elem_of_insertByCreated x y l : y ∈ insertByCreated x l <-> y = x \/ y ∈ l.
Proof.
  induction l as [|z l IH]; cbn [insertByCreated].
  - rewrite list_elem_of_singleton, elem_of_nil. tauto.
  - destruct (CreatedAt x <=? CreatedAt z); rewrite !elem_of_cons; [tauto|].
    rewrite IH. tauto.
Qed.

Lemma elem_of_orderByCreated y l : y ∈ orderByCreated l <-> y ∈ l.
Proof.
  induction l as [|x l IH]; cbn; [done|].
  rewrite elem_of_insertByCreated, elem_of_cons, IH. tauto.
Qed.

Lemma ToLLMMessage_role sm msg : ToLLMMessage sm = Ok msg -> Role msg = MsgRole sm.
Proof.
  unfold ToLLMMessage. destruct (negb _); [destruct (unmarshalToolCalls _)|];
    intros H; inversion H; done.
Qed.

Lemma convertAll_role rows msg :
  msg ∈ convertAll rows -> exists sm, sm ∈ rows /\ Role msg = MsgRole sm.
Proof.
  unfold convertAll. rewrite list_elem_of_omap. intros (sm & Hin & H).
  exists sm. split; [done|]. destruct (ToLLMMessage sm) eqn:E; [|done].
  inversion H; subst. by apply ToLLMMessage_role.
Qed.

(** C8 (as amended).  After a successful [Clear], a buffer memory returns
    the seeded system message alone (nothing when its content is empty) and
    keeps it unchanged; a session memory returns the rows of its session
    whose role is [system], all of them, in the order of their creation time:
    the seed and every system message added since. *)
Theorem Clear_keeps_system_messages :
  (forall m m' : BufferMemory,
     Clear m = Ok m' ->
     Messages m'
     = Ok (if String.eqb (Content (systemMessage m)) "" then [] else [systemMessage m])
     /\ systemMessage m' = systemMessage m)
  /\ (forall m m' : SessionMemory,
        Clear m = Ok m' ->
        Messages m'
        = Ok (convertAll
                (orderByCreated
                   (filter (fun r => SessionID r = sessionID m /\ MsgRole r = "system")
                           (session_messages (repository m)))))
        /\ (forall msgs msg, Messages m' = Ok msgs -> msg ∈ msgs -> Role msg = "system")
        /\ forall r, MsgRole r = "system" ->
             (r ∈ session_messages (repository m') <-> r ∈ session_messages (repository m))).
Proof.
  split.
  - intros m m' H. cbn in H. unfold BufferClear in H. inversion H; subst m'; clear H.
    cbn. unfold BufferMessages. cbn. split; [|done].
    destruct (String.eqb (Content (systemMessage m)) ""); done.
  - intros m m' H. cbn in H. unfold SessionClear, ClearMessages in H.
    destruct (available (repository m)) eqn:Hav; [|done].
    inversion H; subst m'; clear H. cbn [Messages SessionMemory_Memory].
    unfold SessionMessages, GetMessages. cbn [repository sessionID available session_messages].
    assert (Hf : filter (fun r => SessionID r = sessionID m)
                   (filter (fun r => ~ (SessionID r = sessionID m /\ MsgRole r <> "system"))
                           (session_messages (repository m)))
                 = filter (fun r => SessionID r = sessionID m /\ MsgRole r = "system")
                          (session_messages (repository m))).
    { rewrite list_filter_filter. apply list_filter_iff. intros r.
      destruct (decide (MsgRole r = "system")); tauto. }
    rewrite Hf. split; [done|]. split.
    + intros msgs msg Hm Hin. inversion Hm; subst msgs; clear Hm.
      destruct (convertAll_role _ _ Hin) as (sm & Hsm & ->).
      apply elem_of_orderByCreated, list_elem_of_filter in Hsm. tauto.
    + intros r Hr. rewrite list_elem_of_filter. tauto.
Qed.

(** *** Sessions side by side *)

Lemma insertByCreated_last x y l :
  CreatedAt x <= CreatedAt y ->
  insertByCreated x (l ++ [y]) = insertByCreated x l ++ [y].
Proof.
  intros Hle. induction l as [|z l IH]; cbn [app insertByCreated].
  - destruct (Z.leb_spec (CreatedAt x) (CreatedAt y)); [done | lia].
  - destruct (CreatedAt x <=? CreatedAt z); [done|]. by rewrite IH.
Qed.

(** A row that is newer than the others sorts last. *)
Lemma orderByCreated_snoc l y :
  (forall x, x ∈ l -> CreatedAt x < CreatedAt y) ->
  orderByCreated (l ++ [y]) = orderByCreated l ++ [y].
Proof.
  unfold orderByCreated. induction l as [|x l IH]; intros Hall; [done|].
  cbn [app foldr]. rewrite IH by (intros z Hz; apply Hall; by right).
  apply insertByCreated_last. assert (CreatedAt x < CreatedAt y) by (apply Hall; by left).
  lia.
Qed.

Lemma AddMessage_rows db message db' :
  AddMessage db message = Ok db' ->
  available db' = available db
  /\ session_messages db'
     = session_messages db
       ++ [{| MessageID := next_id db; SessionID := SessionID message;
              MsgRole := MsgRole message; MsgContent := MsgContent message;
              MsgToolCalls := MsgToolCalls message;
              MsgToolCallID := MsgToolCallID message;
              CreatedAt := CreatedAt message |}].
Proof.
  unfold AddMessage. destruct (negb (available db)); [done|].
  destruct (negb (validRole _)); [done|]. destruct (negb (existsb _ _)); [done|].
  intros H0; inversion H0. done.
Qed.

Lemma FromLLMMessage_fields nowAt id msg sm :
  FromLLMMessage nowAt id msg = Ok sm ->
  SessionID sm = id /\ CreatedAt sm = nowAt /\ MsgRole sm = Role msg
  /\ MsgContent sm = Content msg /\ MsgToolCallID sm = ToolCallID msg
  /\ (ToolCalls msg = [] -> MsgToolCalls sm = "")
  /\ (ToolCalls msg <> [] -> marshalToolCalls (ToolCalls msg) = Ok (MsgToolCalls sm)).
Proof.
  clear unmarshalToolCalls.
  unfold FromLLMMessage. destruct (ToolCalls msg) as [|tc tcs] eqn:Htc; cbn.
  - intros H0; inversion H0. done.
  - destruct (marshalToolCalls (tc :: tcs)); [|done]. intros H0; inversion H0. done.
Qed.

(** X21.  A message added to a session memory comes back from it, last:
    when the rows of the session are older than the clock reading of the
    [Add] and the tool calls of the message survive their trip through
    JSON, [Messages] after the [Add] is [Messages] before it with the
    message appended, unchanged. *)
Theorem SessionAdd_Messages (m m' : SessionMemory) (msg : Message) (msgs : list Message) :
  SessionAdd msg m = Ok m' ->
  SessionMessages m = Ok msgs ->
  (forall r, r ∈ session_messages (repository m) -> SessionID r = sessionID m ->
     CreatedAt r < now m) ->
  (ToolCalls msg <> [] ->
   exists s, marshalToolCalls (ToolCalls msg) = Ok s /\ s <> ""
             /\ unmarshalToolCalls s = Some (ToolCalls msg)) ->
  SessionMessages m' = Ok (msgs ++ [msg]).
Proof.
  intros Hadd Hmsgs Hold Hjson. unfold SessionAdd in Hadd.
  destruct (FromLLMMessage (now m) (sessionID m) msg) as [sm|] eqn:Hfrom; [|done].
  destruct (AddMessage (repository m) sm) as [db|] eqn:Hdb; [|done].
  inversion Hadd; subst m'; clear Hadd.
  destruct (FromLLMMessage_fields _ _ _ _ Hfrom) as (Hid & Hat & Hrole & Hcont & Htcid & Hnil & Hcons).
  destruct (AddMessage_rows _ _ _ Hdb) as [Hav Hrows].
  unfold SessionMessages, GetMessages in *. cbn [repository sessionID].
  rewrite Hav. destruct (available (repository m)); [|done].
  inversion Hmsgs; subst msgs; clear Hmsgs. f_equal.
  rewrite Hrows, filter_app. cbn [filter list_filter].
  destruct (decide _) as [_|Hne]; [|by rewrite Hid in Hne].
  rewrite orderByCreated_snoc.
  - unfold convertAll. rewrite omap_app. f_equal. cbn [omap list_omap].
    unfold ToLLMMessage. cbn [MsgToolCalls MsgRole MsgContent MsgToolCallID].
    destruct (ToolCalls msg) as [|tc tcs] eqn:Htc.
    + rewrite (Hnil eq_refl). cbn. destruct msg. cbn in *. by subst.
    + destruct (Hjson ltac:(done)) as (s & Hs & Hne & Hun).
      rewrite Hcons in Hs by done. inversion Hs; subst s.
      apply String.eqb_neq in Hne. rewrite Hne. cbn. rewrite Hun.
      destruct msg. cbn in *. by subst.
  - intros r Hr. apply list_elem_of_filter in Hr as [Hsid Hr]. cbn [CreatedAt].
    rewrite Hat. by apply Hold.
Qed.

(** X22.  Sessions do not touch one another: an [Add] or a [Clear] on one
    session leaves the rows of every other session as they were, system
    messages included. *)
Theorem Session_frame (m m' : SessionMemory) (other : string) :
  other <> sessionID m ->
  ((exists msg, SessionAdd msg m = Ok m') \/ SessionClear m = Ok m') ->
  GetMessages (repository m') other = GetMessages (repository m) other.
Proof.
  clear unmarshalToolCalls. intros Hother [[msg Hadd]|Hclear].
  - unfold SessionAdd in Hadd.
    destruct (FromLLMMessage (now m) (sessionID m) msg) as [sm|] eqn:Hfrom; [|done].
    destruct (AddMessage (repository m) sm) as [db|] eqn:Hdb; [|done].
    inversion Hadd; subst m'; clear Hadd. cbn [repository].
    destruct (FromLLMMessage_fields _ _ _ _ Hfrom) as (Hid & _).
    destruct (AddMessage_rows _ _ _ Hdb) as [Hav Hrows].
    unfold GetMessages. rewrite Hav, Hrows, filter_app. cbn [filter list_filter].
    destruct (decide _) as [Heq|_]; [|by rewrite app_nil_r].
    cbn in Heq. congruence.
  - unfold SessionClear, ClearMessages in Hclear.
    destruct (available (repository m)) eqn:Hav; [|done].
    inversion Hclear; subst m'; clear Hclear. cbn [repository].
    unfold GetMessages. cbn [available session_messages]. rewrite Hav. f_equal. f_equal.
    rewrite list_filter_filter. apply list_filter_iff. intros r. split; [tauto|].
    intros Hr. split; [done|]. intros [Hsid _]. congruence.
Qed.

Lemma find_snoc {A} (f : A -> bool) (l : list A) (x : A) :
  find f (l ++ [x])
  = match find f l with Some y => Some y | None => if f x then Some x else None end.
Proof. induction l as [|y l IH]; cbn [app find]; [done|]. by destruct (f y). Qed.

Lemma filter_none {A} (P : A -> Prop) `{forall x, Decision (P x)} (l : list A) :
  (forall x, x ∈ l -> ~ P x) -> filter P l = [].
Proof.
  induction l as [|y l IH]; intros Hall; [done|]. cbn [filter list_filter].
  destruct (decide (P y)) as [Hy|_]; [by destruct (Hall y ltac:(by left))|].
  apply IH. intros x Hx. apply Hall. by right.
Qed.

Lemma find_session_map (f : Session -> Session) id (l : list Session) :
  (forall s, ID (f s) = ID s) ->
  find (fun s => String.eqb (ID s) id) (map f l)
  = f <$> find (fun s => String.eqb (ID s) id) l.
Proof.
  intros Hf. induction l as [|s l IH]; [done|]. cbn [map find]. rewrite Hf.
  destruct (String.eqb (ID s) id); [done | apply IH].
Qed.

(** X23.  Deleting a session is soft.  Its messages stay in the store and
    [GetSession] still finds it, now inactive, so that no memory can be
    opened on it any more; the other sessions are as before.  A memory
    opened before the deletion keeps reading the messages of the
    session. *)
Theorem DeleteSession_soft (db db' : Database) (id : string) (nowAt : Z) :
  DeleteSession db id = Ok db' ->
  session_messages db' = session_messages db
  /\ (forall s, GetSession db id = Ok s ->
        (exists s', GetSession db' id = Ok s' /\ IsActive s' = false
                    /\ Title s' = Title s /\ UserID s' = UserID s)
        /\ GetSessionMemory db' id nowAt = Err sessionInactive)
  /\ (forall id', id' <> id -> GetSession db' id' = GetSession db id')
  /\ (forall id', GetMessages db' id' = GetMessages db id').
Proof.
  unfold DeleteSession. destruct (available db) eqn:Hav; [|done]. cbn [negb].
  intros H0; inversion H0; subst db'; clear H0. cbn [session_messages].
  split; [done|].
  set (f := fun s => if String.eqb (ID s) id then _ else s).
  assert (Hf : forall s, ID (f s) = ID s).
  { intros s. unfold f. by destruct (String.eqb (ID s) id). }
  split; [|split].
  - intros s Hs. unfold GetSessionMemory, GetSession in *. cbn [available sessions].
    rewrite Hav in *. cbn [negb] in *. rewrite (find_session_map f id _ Hf).
    destruct (find _ (sessions db)) as [s0|] eqn:Hfind; [|done]. inversion Hs; subst s0.
    apply find_some in Hfind as [_ Hid]. cbn [fmap option_fmap option_map].
    assert (Hfs : f s = {| ID := ID s; UserID := UserID s; Title := Title s;
                           SystemMsg := SystemMsg s;
                           SessionCreatedAt := SessionCreatedAt s;
                           UpdatedAt := UpdatedAt s; IsActive := false |})
      by (unfold f; by rewrite Hid).
    rewrite Hfs. cbn. split; [|done]. eexists. split; [done|]. done.
  - intros id' Hne. unfold GetSession. cbn [available sessions]. rewrite Hav. cbn [negb].
    rewrite (find_session_map f id' _ Hf).
    destruct (find _ (sessions db)) as [s0|] eqn:Hfind; [|done].
    apply find_some in Hfind as [_ Hid]. cbn. unfold f.
    apply String.eqb_eq in Hid. subst id'. apply String.eqb_neq in Hne. by rewrite Hne.
  - intros id'. unfold GetMessages. cbn [available session_messages]. by rewrite Hav.
Qed.

(** X24.  A new session holds its system message and nothing else: once
    [CreateSession] has succeeded with an id that no message row refers to,
    a memory can be opened on the session and its [Messages] are the system
    message alone. *)
Theorem CreateSession_Messages (db db' : Database) (id userID title : string)
    (nowAt later : Z) (systemMessage : Message) :
  CreateSession db id userID title nowAt systemMessage = Ok db' ->
  (forall r, r ∈ session_messages db -> SessionID r <> id) ->
  ToolCalls systemMessage = [] ->
  exists m,
    GetSessionMemory db' id later = Ok m
    /\ SessionMessages m = Ok [systemMessage].
Proof.
  intros Hcreate Hfresh Htc. unfold CreateSession in Hcreate.
  destruct (available db) eqn:Hav; [|done]. cbn [negb] in Hcreate.
  destruct (existsb _ (sessions db)) eqn:Hex; [done|].
  destruct (FromLLMMessage nowAt id systemMessage) as [sm|] eqn:Hfrom; [|done].
  destruct (FromLLMMessage_fields _ _ _ _ Hfrom)
    as (Hid & Hat & Hrole & Hcont & Htcid & Hnil & _).
  pose proof (AddMessage_rows _ _ _ Hcreate) as [Hav' Hrows].
  cbn [available session_messages next_id] in Hav', Hrows.
  assert (Hsessions : exists s, GetSession db' id = Ok s /\ IsActive s = true).
  { unfold AddMessage in Hcreate. cbn [available negb] in Hcreate.
    destruct (negb (validRole _)); [done|]. destruct (negb (existsb _ _)); [done|].
    inversion Hcreate; subst db'; clear Hcreate.
    unfold GetSession. cbn [available negb sessions]. rewrite map_app. cbn [map].
    rewrite find_snoc.
    assert (Hnone : find (fun s => String.eqb (ID s) id)
                      (map (fun s => if String.eqb (ID s) (SessionID sm)
                                     then {| ID := ID s; UserID := UserID s;
                                             Title := Title s; SystemMsg := SystemMsg s;
                                             SessionCreatedAt := SessionCreatedAt s;
                                             UpdatedAt := CreatedAt sm;
                                             IsActive := IsActive s |}
                                     else s) (sessions db)) = None).
    { rewrite find_session_map by (intros s; by destruct (String.eqb _ _)).
      destruct (find _ (sessions db)) as [s0|] eqn:Hfind; [|done].
      apply find_some in Hfind as [Hin Hid0].
      assert (existsb (fun s => String.eqb (ID s) id) (sessions db) = true) as Hex'
        by (apply existsb_exists; by exists s0).
      congruence. }
    rewrite Hnone. cbn [ID]. rewrite Hid, String.eqb_refl. cbn [ID].
    rewrite String.eqb_refl. eexists. split; [done|]. done. }
  destruct Hsessions as (s & Hs & Hact).
  unfold GetSessionMemory. rewrite Hs, Hact. cbn [negb]. eexists. split; [done|].
  unfold SessionMessages, GetMessages. cbn [repository sessionID].
  rewrite Hav'. f_equal. rewrite Hrows, filter_app.
  rewrite (filter_none (fun r => SessionID r = id) (session_messages db))
    by (intros r Hr; by apply Hfresh).
  cbn [app filter list_filter]. destruct (decide _) as [_|Hne]; [|by rewrite Hid in Hne].
  cbn. unfold ToLLMMessage. cbn [MsgToolCalls MsgRole MsgContent MsgToolCallID].
  rewrite (Hnil Htc). cbn. destruct systemMessage. cbn in *. by subst.
Qed.

End SessionMemory.

(** *** What the buffer keeps *)

(** X19.  [Add] puts the message last and, under a positive limit, drops
    the oldest messages beyond it: the buffer then holds the last
    [maxMessages] messages at most, the new one among them.  The system
    message is not counted and never dropped.  A limit of zero or less is no
    limit. *)
Theorem BufferAdd_keeps_latest (m : BufferMemory) (message : Message) :
  exists m',
    BufferAdd message m = Ok m'
    /\ systemMessage m' = systemMessage m /\ maxMessages m' = maxMessages m
    /\ messages m' `suffix_of` (messages m ++ [message])
    /\ last (messages m') = Some message
    /\ (0 < maxMessages m ->
        Z.of_nat (length (messages m'))
        = Z.min (Z.of_nat (length (messages m)) + 1) (maxMessages m))
    /\ (maxMessages m <= 0 -> messages m' = messages m ++ [message]).
Proof.
  unfold BufferAdd. eexists. split; [done|]. cbn [systemMessage maxMessages messages].
  split; [done|]. split; [done|].
  rewrite length_app. cbn [length].
  destruct (Z.ltb_spec 0 (maxMessages m)) as [Hpos|Hpos]; cbn [andb].
  - destruct (Z.ltb_spec (maxMessages m) (Z.of_nat (length (messages m) + 1))) as [Hlt|Hge].
    + split; [apply suffix_drop|]. split; [|split; [|lia]].
      * rewrite drop_app_le by lia. apply last_snoc.
      * intros _. rewrite length_drop, length_app. cbn [length]. lia.
    + split; [done|]. split; [apply last_snoc|]. split; [|lia].
      intros _. rewrite length_app. cbn [length]. lia.
  - split; [done|]. split; [apply last_snoc|]. split; [lia | done].
Qed.

(** X20.  [GetLastN] returns the last [n] messages of the conversation, all
    of them when there are fewer, none when [n] is not positive; asking for
    as many as [Count] says gives the whole conversation back. *)
Theorem BufferGetLastN_latest (n : Z) (m : BufferMemory) :
  BufferGetLastN n m `suffix_of` messages m
  /\ Z.of_nat (length (BufferGetLastN n m)) = Z.max 0 (Z.min n (BufferCount m))
  /\ BufferGetLastN (BufferCount m) m = messages m.
Proof.
  unfold BufferGetLastN, BufferCount. split; [|split].
  - destruct (_ || _); [apply suffix_nil|].
    destruct (_ <=? n); [done | apply suffix_drop].
  - destruct (Z.leb_spec n 0) as [Hn|Hn]; cbn [orb]; [cbn; lia|].
    destruct (messages m) as [|x l] eqn:Hm; [cbn; lia|]. cbn [Nat.eqb length].
    destruct (Z.leb_spec (Z.of_nat (S (length l))) n); [cbn [length]; lia|].
    rewrite length_drop. cbn [length]. lia.
  - destruct (messages m) as [|x l] eqn:Hm.
    + by destruct (_ <=? 0).
    + cbn [length Nat.eqb]. destruct (Z.leb_spec (Z.of_nat (S (length l))) 0); [lia|].
      cbn [orb]. by rewrite Z.leb_refl.
Qed.

Lemma BufferAdd_last (m m' : BufferMemory) (message : Message) :
  BufferAdd message m = Ok m' ->
  systemMessage m' = systemMessage m /\ last (messages m') = Some message.
Proof.
  unfold BufferAdd. intros H0; inversion H0; subst m'; clear H0.
  cbn [systemMessage messages]. split; [done|].
  destruct (_ && _) eqn:Hlim; [|apply last_snoc].
  apply andb_true_iff in Hlim as [Hpos Hlt].
  apply Z.ltb_lt in Hpos, Hlt. rewrite length_app in *. cbn [length] in *.
  rewrite drop_app_le by lia. apply last_snoc.
Qed.

(** A buffer takes every message, always reads, and returns the message it
    was given last at the end. *)
Lemma BufferMemory_reliable :
  (forall msg (m : BufferMemory), exists m', Add msg m = Ok m')
  /\ (forall m : BufferMemory, exists messages, Messages m = Ok messages).
Proof. split; intros; eexists; reflexivity. Qed.

Lemma BufferMemory_appends (msg : Message) (m m' : BufferMemory) :
  Add msg m = Ok m' ->
  exists messages, Messages m' = Ok messages /\ last messages = Some msg.
Proof.
  intros Hadd. destruct (BufferAdd_last m m' msg Hadd) as [_ Hlast].
  eexists. split; [reflexivity|]. rewrite last_app. by rewrite Hlast.
Qed.

(** *** A session that was sent an updated context *)

Definition exDatabase : Database :=
  {| available := true; sessions := []; session_messages := []; next_id := 1 |}.

Definition exSeed : Message := NewSystemMessage "=== CURRENT PAGE CONTEXT ===".
Definition exUpdate : Message := NewSystemMessage "=== UPDATED CONTEXT FOR CURRENT ROUTE ===".

(** The session is created with its seed; the orchestrator then adds an
    updated-context system message, and the agent a user message. *)
Definition exSession : result error (SessionMemory) :=
  match CreateSession (fun _ => Ok "[]") exDatabase "s1" "u1" "chat" 10 exSeed with
  | Err e => Err e
  | Ok db =>
      let m := {| sessionID := "s1"; repository := db; now := 20 |} in
      match SessionAdd (fun _ => Ok "[]") exUpdate m with
      | Err e => Err e
      | Ok m => SessionAdd (fun _ => Ok "[]") (NewUserMessage "hi") m
      end
  end.

(** C8 as stated fails for a session memory: after [Clear] it returns two
    messages, the seed and the updated context, not the seed alone. *)
Lemma SessionClear_keeps_every_system_message :
  exists m m',
    exSession = Ok m
    /\ SessionClear m = Ok m'
    /\ SessionMessages (fun _ => Some []) m' = Ok [exSeed; exUpdate]
    /\ SessionMessages (fun _ => Some []) m' <> Ok [exSeed].
Proof.
  eexists. eexists. split; [vm_compute; reflexivity|].
  split; [vm_compute; reflexivity|]. split; [vm_compute; reflexivity|].
  vm_compute. discriminate.
Qed.

Lemma Clear_keeps_system_messages_witness :
  let buffer := {| systemMessage := exSeed; messages := [exUpdate; NewUserMessage "hi"];
                   maxMessages := 0 |} in
  let cleared := {| systemMessage := exSeed; messages := []; maxMessages := 0 |} in
  Clear buffer = Ok cleared
  /\ Messages cleared = Ok [exSeed]
  /\ systemMessage cleared = exSeed.
Proof.
  intros buffer cleared. split; [reflexivity|].
  apply (proj1 (Clear_keeps_system_messages (fun _ => Ok "[]") (fun _ => Some []))
           buffer cleared).
  reflexivity.
Defined.

(** *** Two sessions in one store *)

Definition chatRow (id : Z) (session role content : string) (at_ : Z) : SessionMessage :=
  {| MessageID := id; SessionID := session; MsgRole := role; MsgContent := content;
     MsgToolCalls := ""; MsgToolCallID := ""; CreatedAt := at_ |}.

Definition chatSession (id user : string) (at_ : Z) : Session :=
  {| ID := id; UserID := user; Title := "Chat"; SystemMsg := "context";
     SessionCreatedAt := at_; UpdatedAt := at_; IsActive := true |}.

Definition chatDatabase : Database :=
  {| available := true;
     sessions := [chatSession "s1" "ada" 100; chatSession "s2" "bob" 110];
     session_messages := [chatRow 1 "s1" "system" "context" 100;
                          chatRow 2 "s2" "system" "context" 110;
                          chatRow 3 "s2" "user" "hello" 120];
     next_id := 4 |}.

Definition chatMemory : SessionMemory :=
  {| sessionID := "s1"; repository := chatDatabase; now := 130 |}.

Definition chatMarshal (_ : list ToolCall) : result error string := Ok "[]".
Definition chatUnmarshal (_ : string) : option (list ToolCall) := Some [].

Lemma SessionAdd_Messages_witness :
  exists m',
    SessionAdd chatMarshal (NewUserMessage "hi") chatMemory = Ok m'
    /\ SessionMessages chatUnmarshal m'
       = Ok ([NewSystemMessage "context"] ++ [NewUserMessage "hi"]).
Proof.
  eexists. split; [vm_compute; reflexivity|].
  apply (SessionAdd_Messages chatMarshal chatUnmarshal chatMemory _
           (NewUserMessage "hi") [NewSystemMessage "context"]).
  - vm_compute. reflexivity.
  - vm_compute. reflexivity.
  - intros r Hr Hs. apply list_elem_of_In in Hr. cbn in Hr.
    destruct Hr as [<-|[<-|[<-|[]]]]; try discriminate Hs. reflexivity.
  - intros Hne. by destruct Hne.
Defined.

Lemma Session_frame_witness :
  exists m',
    SessionClear chatMemory = Ok m'
    /\ GetMessages (repository m') "s2" = GetMessages (repository chatMemory) "s2".
Proof.
  eexists. split; [vm_compute; reflexivity|].
  apply (Session_frame chatMarshal chatMemory _ "s2"); [discriminate|].
  right. vm_compute. reflexivity.
Defined.

Lemma DeleteSession_soft_witness :
  exists db',
    DeleteSession chatDatabase "s2" = Ok db'
    /\ session_messages db' = session_messages chatDatabase
    /\ (forall s, GetSession chatDatabase "s2" = Ok s ->
          (exists s', GetSession db' "s2" = Ok s' /\ IsActive s' = false
                      /\ Title s' = Title s /\ UserID s' = UserID s)
          /\ GetSessionMemory db' "s2" 140 = Err sessionInactive)
    /\ (forall id', id' <> "s2" -> GetSession db' id' = GetSession chatDatabase id')
    /\ (forall id', GetMessages db' id' = GetMessages chatDatabase id').
Proof.
  eexists. split; [vm_compute; reflexivity|].
  apply (DeleteSession_soft chatDatabase _ "s2" 140). vm_compute. reflexivity.
Defined.

Lemma CreateSession_Messages_witness :
  exists db',
    CreateSession chatMarshal chatDatabase "s3" "eve" "Chat - item" 150
      (NewSystemMessage "=== CURRENT PAGE CONTEXT ===") = Ok db'
    /\ exists m,
         GetSessionMemory db' "s3" 160 = Ok m
         /\ SessionMessages chatUnmarshal m
            = Ok [NewSystemMessage "=== CURRENT PAGE CONTEXT ==="].
Proof.
  eexists. split; [vm_compute; reflexivity|].
  apply (CreateSession_Messages chatMarshal chatUnmarshal chatDatabase _ "s3" "eve"
           "Chat - item" 150 160 (NewSystemMessage "=== CURRENT PAGE CONTEXT ===")).
  - vm_compute. reflexivity.
  - intros r Hr. apply list_elem_of_In in Hr. cbn in Hr.
    destruct Hr as [<-|[<-|[<-|[]]]]; discriminate.
  - reflexivity.
Defined.

End Memoryx.


(** ** Package [agentx]: the agent loop *)

Module Agentx.

Import LLM.
Import Memoryx.

(** Modelled from the spec: the declarations of [llm.Client], [llm.Response],
    [llm.Option] and [toolx.ToolxClient] are not among the sources.  The
    options handed to a chat call are the agent's own, the tool list when
    there is one, and the tool choice when it is set. *)
Record ChatOptions := {
  BaseOptions : list string;
  WithTools : option (list Tool);
  WithToolChoice : option string
}.

Record Response := { ResponseMessage : Message }.

(** The language model is an oracle: its answer to the [n]-th call of a run
    may depend on everything it is sent. *)
Definition Client : Type := nat -> list Message -> ChatOptions -> result error Response.

(** The tool registry: its tool list, and the outcome of the [n]-th
    invocation of a run. *)
Record ToolxClient := {
  GetTools : list Tool;
  Call : nat -> ToolCall -> result error Message
}.

Inductive Error : Type :=
| AddUserMessageError (cause : error)
| RetrieveMessagesError (cause : error)
| LLMError (cause : error)
| AddAssistantResponseError (cause : error)
| MaxTotalIterationsExceeded (maxTotalIterations : Z)
| ToolExecutionError (cause : error)
| AddToolResponseError (cause : error)
| NilToolsDereference.

Section Agent.

Context {M : Type} `{Memory M}.

Record Agent := {
  client : Client;
  tools : option ToolxClient;
  options : list string;
  maxAutoIterations : Z;
  maxTotalIterations : Z
}.

(** [New] and its defaults. *)
Definition New (client : Client) (tools : option ToolxClient) (options : list string)
  : Agent :=
  {| client := client; tools := tools; options := options;
     maxAutoIterations := 3; maxTotalIterations := 10 |}.

(** A chat call as the run made it; [atIteration] is the iteration of the
    tool-call loop that made it ([None] for the first call of [Run]). *)
Record ChatCall := {
  sent : list Message;
  chatOptions : ChatOptions;
  atIteration : option Z
}.

(** The state a run goes through: the memory, and the calls made so far to
    the model and to the tools. *)
Record Exec := {
  memory : M;
  chats : list ChatCall;
  invocations : list ToolCall
}.

Definition withMemory (x : Exec) (m : M) : Exec :=
  {| memory := m; chats := chats x; invocations := invocations x |}.

(** [a.client.Chat]. *)
Definition chat (a : Agent) (x : Exec) (messages : list Message) (opts : ChatOptions)
    (iteration : option Z) : result error Response * Exec :=
  (client a (length (chats x)) messages opts,
   {| memory := memory x;
      chats := chats x ++ [{| sent := messages; chatOptions := opts;
                              atIteration := iteration |}];
      invocations := invocations x |}).

(** [a.tools.Call]. *)
Definition callTool (t : ToolxClient) (x : Exec) (tc : ToolCall)
  : result error Message * Exec :=
  (Call t (length (invocations x)) tc,
   {| memory := memory x; chats := chats x; invocations := invocations x ++ [tc] |}).

(** The options of the first call of [Run]. *)
Definition initialOptions (a : Agent) : ChatOptions :=
  match tools a with
  | Some t =>
      if (0 <? length (GetTools t))%nat
      then {| BaseOptions := options a; WithTools := Some (GetTools t);
              WithToolChoice := None |}
      else {| BaseOptions := options a; WithTools := None; WithToolChoice := None |}
  | None => {| BaseOptions := options a; WithTools := None; WithToolChoice := None |}
  end.

(** The options of the call that follows the tools at [iteration]. *)
Definition followUpOptions (a : Agent) (iteration : Z) : ChatOptions :=
  match tools a with
  | Some t =>
      if (0 <? length (GetTools t))%nat
      then
        if iteration <? maxAutoIterations a
        then {| BaseOptions := options a; WithTools := Some (GetTools t);
                WithToolChoice := Some "auto" |}
        else {| BaseOptions := options a; WithTools := Some (GetTools t);
                WithToolChoice := Some "none" |}
      else {| BaseOptions := options a; WithTools := None; WithToolChoice := None |}
  | None => {| BaseOptions := options a; WithTools := None; WithToolChoice := None |}
  end.

(** The loop over the tool calls of one response. *)
Fixpoint executeToolCalls (a : Agent) (toolCalls : list ToolCall) (x : Exec)
  : option Error * Exec :=
  match toolCalls with
  | [] => (None, x)
  | tc :: rest =>
      match tools a with
      | None => (Some NilToolsDereference, x)
      | Some t =>
          match callTool t x tc with
          | (Err err, x) => (Some (ToolExecutionError err), x)
          | (Ok toolResponse, x) =>
              match Add toolResponse (memory x) with
              | Err err => (Some (AddToolResponseError err), x)
              | Ok m => executeToolCalls a rest (withMemory x m)
              end
          end
      end
  end.

(** What one pass of [handleToolCallsWithLimit] ends with, short of the
    recursive call. *)
Inductive round :=
| Settled (r : result Error string)
| MoreToolCalls (toolCalls : list ToolCall).

(** The body of [handleToolCallsWithLimit] past the limit check. *)
Definition toolRound (a : Agent) (toolCalls : list ToolCall) (iteration : Z) (x : Exec)
  : round * Exec :=
  match executeToolCalls a toolCalls x with
  | (Some err, x) => (Settled (Err err), x)
  | (None, x) =>
      match Messages (memory x) with
      | Err err => (Settled (Err (RetrieveMessagesError err)), x)
      | Ok messages =>
          match chat a x messages (followUpOptions a iteration) (Some iteration) with
          | (Err err, x) => (Settled (Err (LLMError err)), x)
          | (Ok response, x) =>
              match Add (ResponseMessage response) (memory x) with
              | Err err => (Settled (Err (AddAssistantResponseError err)), x)
              | Ok m =>
                  let x := withMemory x m in
                  if (0 <? length (ToolCalls (ResponseMessage response)))%nat
                  then (MoreToolCalls (ToolCalls (ResponseMessage response)), x)
                  else (Settled (Ok (Content (ResponseMessage response))), x)
              end
          end
      end
  end.

Equations? handleToolCallsWithLimit (a : Agent) (toolCalls : list ToolCall)
    (iteration : Z) (x : Exec) : result Error string * Exec
  by wf (Z.to_nat (maxTotalIterations a - iteration)) lt :=
  handleToolCallsWithLimit a toolCalls iteration x
    with Z_ge_lt_dec iteration (maxTotalIterations a) => {
    | left _ => (Err (MaxTotalIterationsExceeded (maxTotalIterations a)), x)
    | right _ with toolRound a toolCalls iteration x => {
      | (Settled r, x') => (r, x')
      | (MoreToolCalls toolCalls', x') =>
          handleToolCallsWithLimit a toolCalls' (iteration + 1) x' } }.
Proof. lia. Qed.

Definition handleToolCalls (a : Agent) (toolCalls : list ToolCall) (x : Exec)
  : result Error string * Exec :=
  handleToolCallsWithLimit a toolCalls 0 x.

(** [Run]. *)
Definition Run (a : Agent) (userInput : string) (x : Exec) : result Error string * Exec :=
  match Add (NewUserMessage userInput) (memory x) with
  | Err err => (Err (AddUserMessageError err), x)
  | Ok m =>
      let x := withMemory x m in
      match Messages (memory x) with
      | Err err => (Err (RetrieveMessagesError err), x)
      | Ok messages =>
          match chat a x messages (initialOptions a) None with
          | (Err err, x) => (Err (LLMError err), x)
          | (Ok response, x) =>
              match Add (ResponseMessage response) (memory x) with
              | Err err => (Err (AddAssistantResponseError err), x)
              | Ok m =>
                  let x := withMemory x m in
                  if (0 <? length (ToolCalls (ResponseMessage response)))%nat
                     && bool_decide (is_Some (tools a))
                  then handleToolCalls a (ToolCalls (ResponseMessage response)) x
                  else (Ok (Content (ResponseMessage response)), x)
              end
          end
      end
  end.

(** A fresh run on a memory. *)
Definition start (m : M) : Exec := {| memory := m; chats := []; invocations := [] |}.

(** [T] bounds the tool calls of every response of the model. *)
Definition toolsPerCall (a : Agent) (T : nat) : Prop :=
  forall n messages opts response,
    client a n messages opts = Ok response ->
    (length (ToolCalls (ResponseMessage response)) <= T)%nat.

(** Every follow-up call on record carries the options of its iteration. *)
Definition scheduled (a : Agent) (x : Exec) : Prop :=
  forall call i, call ∈ chats x -> atIteration call = Some i ->
    chatOptions call = followUpOptions a i.

(** *** Counting the calls of a run *)

Lemma executeToolCalls_calls a toolCalls : forall x,
  chats (executeToolCalls a toolCalls x).2 = chats x
  /\ (length (invocations (executeToolCalls a toolCalls x).2)
      <= length (invocations x) + length toolCalls)%nat.
Proof.
  induction toolCalls as [|tc rest IH]; intros x; cbn [executeToolCalls];
    [cbn; split; [done | lia]|].
  destruct (tools a) as [t|]; [|cbn; split; [done | lia]].
  unfold callTool. destruct (Call t _ tc) as [toolResponse|err]; cbn [snd length].
  - cbn [memory]. destruct (Add toolResponse (memory x)) as [m|err]; cbn [snd].
    + destruct (IH (withMemory {| memory := memory x; chats := chats x;
                                  invocations := invocations x ++ [tc] |} m)) as [Hc Hi].
      rewrite Hc. cbn in *. rewrite length_app in Hi. cbn in Hi. split; [done | lia].
    + cbn. rewrite length_app. cbn. split; [done | lia].
  - cbn. rewrite length_app. cbn. split; [done | lia].
Qed.

Lemma toolRound_calls a T toolCalls iteration x :
  toolsPerCall a T ->
  (length (chats (toolRound a toolCalls iteration x).2) <= length (chats x) + 1)%nat
  /\ (length (invocations (toolRound a toolCalls iteration x).2)
      <= length (invocations x) + length toolCalls)%nat
  /\ (forall toolCalls', (toolRound a toolCalls iteration x).1 = MoreToolCalls toolCalls' ->
        (length toolCalls' <= T)%nat).
Proof.
  intros HT. unfold toolRound.
  destruct (executeToolCalls_calls a toolCalls x) as [Hc Hi].
  destruct (executeToolCalls a toolCalls x) as [[err|] [m1 c1 i1]]; cbn [fst snd] in *;
    cbn [chats invocations] in Hc, Hi; subst c1.
  { cbn. repeat split; [lia | done..]. }
  cbn [memory]. destruct (Messages m1) as [messages|err]; cbn [fst snd].
  2:{ cbn. repeat split; [lia | done..]. }
  unfold chat. cbn [chats memory invocations].
  destruct (client a _ messages _) as [response|err] eqn:Hchat; cbn [fst snd memory].
  2:{ cbn [chats invocations]. rewrite length_app. cbn [length].
      repeat split; [lia | done..]. }
  destruct (Add (ResponseMessage response) m1) as [m|err]; cbn [fst snd].
  2:{ cbn [chats invocations]. rewrite length_app. cbn [length].
      repeat split; [lia | done..]. }
  unfold withMemory. cbn [chats invocations].
  destruct (0 <? length (ToolCalls (ResponseMessage response)))%nat;
    cbn [fst snd chats invocations]; rewrite length_app; cbn [length];
    (split; [lia|]); (split; [done|]); [|done].
  intros toolCalls' Heq. inversion Heq; subst. by apply (HT _ _ _ _ Hchat).
Qed.

(** The loop makes at most one chat call and one round of tool calls per
    iteration left below the limit. *)
Lemma handleToolCallsWithLimit_calls a T : forall toolCalls iteration x,
  toolsPerCall a T -> (length toolCalls <= T)%nat ->
  Z.of_nat (length (chats (handleToolCallsWithLimit a toolCalls iteration x).2))
  <= Z.of_nat (length (chats x)) + Z.max 0 (maxTotalIterations a - iteration)
  /\ Z.of_nat (length (invocations (handleToolCallsWithLimit a toolCalls iteration x).2))
     <= Z.of_nat (length (invocations x))
        + Z.max 0 (maxTotalIterations a - iteration) * Z.of_nat T.
Proof.
  intros toolCalls iteration x HT.
  funelim (handleToolCallsWithLimit a toolCalls iteration x); intros Hlen.
  - cbn. split; [lia | nia].
  - destruct (toolRound_calls a T toolCalls iteration x HT) as (Hc & Hi & _).
    rewrite Heq in Hc, Hi. cbn [fst snd] in *. split; [lia | nia].
  - destruct (toolRound_calls a T toolCalls iteration x HT) as (Hc & Hi & Hm).
    rewrite Heq in Hc, Hi, Hm. cbn [fst snd] in *.
    destruct (H0 T HT (Hm _ eq_refl)) as (Hc' & Hi'). split; [lia | nia].
Qed.

Lemma Run_calls a T userInput m :
  toolsPerCall a T ->
  Z.of_nat (length (chats (Run a userInput (start m)).2))
  <= 1 + Z.max 0 (maxTotalIterations a)
  /\ Z.of_nat (length (invocations (Run a userInput (start m)).2))
     <= Z.max 0 (maxTotalIterations a) * Z.of_nat T.
Proof.
  intros HT. unfold Run, start, withMemory. cbn [memory chats invocations].
  destruct (Add (NewUserMessage userInput) m) as [m1|err];
    cbn [fst snd withMemory memory chats invocations]; [|cbn [fst snd chats invocations length]; split; [lia | nia]].
  destruct (Messages m1) as [messages|err]; cbn [fst snd]; [|cbn [fst snd chats invocations length]; split; [lia | nia]].
  unfold chat. cbn [chats memory invocations length app].
  destruct (client a 0%nat messages (initialOptions a)) as [response|err] eqn:Hchat;
    cbn [fst snd memory]; [|cbn [fst snd chats invocations length]; split; [lia | nia]].
  destruct (Add (ResponseMessage response) m1) as [m2|err]; cbn [fst snd];
    [|cbn [fst snd chats invocations length]; split; [lia | nia]].
  destruct (_ && _); [|cbn [fst snd chats invocations length]; split; [lia | nia]].
  unfold handleToolCalls.
  destruct (handleToolCallsWithLimit_calls a T (ToolCalls (ResponseMessage response)) 0
              {| memory := m2;
                 chats := [{| sent := messages; chatOptions := initialOptions a;
                              atIteration := None |}];
                 invocations := [] |} HT (HT _ _ _ _ Hchat)) as (Hc & Hi).
  cbn [chats invocations length] in Hc, Hi. rewrite Z.sub_0_r in Hc, Hi.
  split; lia.
Qed.

(** *** The tool-choice schedule *)

Lemma toolRound_scheduled a toolCalls iteration x :
  scheduled a x -> scheduled a (toolRound a toolCalls iteration x).2.
Proof.
  intros Hs. unfold toolRound.
  destruct (executeToolCalls_calls a toolCalls x) as [Hc _].
  destruct (executeToolCalls a toolCalls x) as [[err|] [m1 c1 i1]]; cbn [fst snd] in *;
    cbn [chats] in Hc; subst c1; [done|].
  cbn [memory]. destruct (Messages m1) as [messages|err]; cbn [fst snd]; [|done].
  unfold chat. cbn [chats memory invocations].
  assert (Hsched : forall m, scheduled a {| memory := m;
                             chats := chats x ++ [{| sent := messages;
                                                     chatOptions := followUpOptions a iteration;
                                                     atIteration := Some iteration |}];
                             invocations := i1 |}).
  { intros m call i. cbn [chats]. rewrite elem_of_app, list_elem_of_singleton.
    intros [Hin| ->]; [by apply Hs|]. cbn. intros Heq. by inversion Heq. }
  destruct (client a _ messages _) as [response|err]; cbn [fst snd memory]; [|apply Hsched].
  destruct (Add (ResponseMessage response) m1) as [m|err]; cbn [fst snd]; [|apply Hsched].
  destruct (0 <? length (ToolCalls (ResponseMessage response)))%nat; apply Hsched.
Qed.

Lemma handleToolCallsWithLimit_scheduled a : forall toolCalls iteration x,
  scheduled a x -> scheduled a (handleToolCallsWithLimit a toolCalls iteration x).2.
Proof.
  intros toolCalls iteration x.
  funelim (handleToolCallsWithLimit a toolCalls iteration x); intros Hs.
  - done.
  - pose proof (toolRound_scheduled a toolCalls iteration x Hs) as Hr.
    by rewrite Heq in Hr.
  - pose proof (toolRound_scheduled a toolCalls iteration x Hs) as Hr.
    rewrite Heq in Hr. by apply H0.
Qed.

Lemma Run_scheduled a userInput m : scheduled a (Run a userInput (start m)).2.
Proof.
  unfold Run, start, withMemory. cbn [memory chats invocations].
  assert (H0 : forall m', scheduled a {| memory := m'; chats := []; invocations := [] |}).
  { intros m' call i Hin. by apply elem_of_nil in Hin. }
  destruct (Add (NewUserMessage userInput) m) as [m1|err];
    cbn [fst snd withMemory memory chats invocations]; [|apply H0].
  destruct (Messages m1) as [messages|err]; cbn [fst snd]; [|apply H0].
  unfold chat. cbn [chats memory invocations length app].
  assert (H1 : forall m', scheduled a {| memory := m';
                            chats := [{| sent := messages; chatOptions := initialOptions a;
                                         atIteration := None |}];
                            invocations := [] |}).
  { intros m' call i Hin. apply list_elem_of_singleton in Hin as ->. done. }
  destruct (client a 0%nat messages (initialOptions a)) as [response|err];
    cbn [fst snd memory]; [|apply H1].
  destruct (Add (ResponseMessage response) m1) as [m2|err]; cbn [fst snd]; [|apply H1].
  destruct (_ && _); [|apply H1].
  apply handleToolCallsWithLimit_scheduled, H1.
Qed.

(** C2 (as amended).  With a non-negative [maxTotalIterations], whatever
    the user input and whatever the model answers, [Run] returns having made
    at most [maxTotalIterations + 1] calls to the model and at most
    [(maxTotalIterations + 1) * toolsPerCall] tool invocations; the
    recursion of [handleToolCallsWithLimit] is well founded on
    [maxTotalIterations - iteration]. *)
Theorem Run_calls_bounded (a : Agent) (T : nat) (userInput : string) (m : M) :
  0 <= maxTotalIterations a ->
  toolsPerCall a T ->
  exists r x,
    Run a userInput (start m) = (r, x)
    /\ Z.of_nat (length (chats x)) <= maxTotalIterations a + 1
    /\ Z.of_nat (length (invocations x)) <= (maxTotalIterations a + 1) * Z.of_nat T.
Proof.
  intros Hmax HT. destruct (Run_calls a T userInput m HT) as (Hc & Hi).
  destruct (Run a userInput (start m)) as [r x]. exists r, x. cbn [snd] in *.
  split; [done|]. split; [lia | nia].
Qed.

(** C4.  With a non-empty tool list, the call to the model that follows the
    tools of iteration [i] is made with tool choice [auto] when
    [i < maxAutoIterations] and with tool choice [none] otherwise. *)
Theorem follow_up_tool_choice (a : Agent) (t : ToolxClient) (userInput : string) (m : M)
    (call : ChatCall) (i : Z) :
  tools a = Some t -> GetTools t <> [] ->
  call ∈ chats (Run a userInput (start m)).2 ->
  atIteration call = Some i ->
  WithTools (chatOptions call) = Some (GetTools t)
  /\ (i < maxAutoIterations a -> WithToolChoice (chatOptions call) = Some "auto")
  /\ (maxAutoIterations a <= i -> WithToolChoice (chatOptions call) = Some "none").
Proof.
  intros Ht Hne Hin Hi.
  rewrite (Run_scheduled a userInput m call i Hin Hi). unfold followUpOptions. rewrite Ht.
  destruct (GetTools t) as [|t0 ts] eqn:Hg; [done|]. cbn [length Nat.ltb Nat.leb].
  destruct (Z.ltb_spec i (maxAutoIterations a)); cbn; repeat split; try done; lia.
Qed.

(** *** A model that never stops asking for tools *)

(** A memory that takes every message and always reads. *)
Definition reliable : Prop :=
  (forall msg m, exists m', Add msg m = Ok m')
  /\ (forall m, exists messages, Messages m = Ok messages).

(** A model that answers every call with tool calls. *)
Definition insistent (a : Agent) : Prop :=
  forall n messages opts,
    exists response,
      client a n messages opts = Ok response
      /\ ToolCalls (ResponseMessage response) <> [].

Lemma executeToolCalls_all a t toolCalls : forall x,
  reliable -> tools a = Some t ->
  (forall n tc, exists toolResponse, Call t n tc = Ok toolResponse) ->
  exists m',
    executeToolCalls a toolCalls x
    = (None, {| memory := m'; chats := chats x;
                invocations := invocations x ++ toolCalls |}).
Proof.
  intros x [Hadd Hread] Ht Hcall. revert x.
  induction toolCalls as [|tc rest IH]; intros x; cbn [executeToolCalls].
  - exists (memory x). rewrite app_nil_r. by destruct x.
  - rewrite Ht. unfold callTool.
    destruct (Hcall (length (invocations x)) tc) as [toolResponse ->]. cbn [memory].
    destruct (Hadd toolResponse (memory x)) as [m1 ->].
    destruct (IH (withMemory {| memory := memory x; chats := chats x;
                                invocations := invocations x ++ [tc] |} m1)) as [m' ->].
    exists m'. cbn [withMemory chats invocations]. by rewrite <- app_assoc.
Qed.

Lemma toolRound_insists a t toolCalls iteration x :
  reliable -> insistent a -> tools a = Some t ->
  (forall n tc, exists toolResponse, Call t n tc = Ok toolResponse) ->
  exists toolCalls' x',
    toolRound a toolCalls iteration x = (MoreToolCalls toolCalls', x')
    /\ length (chats x') = S (length (chats x)).
Proof.
  intros Hrel Hins Ht Hcall. unfold toolRound.
  destruct (executeToolCalls_all a t toolCalls x Hrel Ht Hcall) as [m1 ->].
  destruct Hrel as [Hadd Hread]. cbn [memory].
  destruct (Hread m1) as [messages ->]. unfold chat. cbn [chats memory invocations].
  destruct (Hins (length (chats x)) messages (followUpOptions a iteration))
    as (response & -> & Hcalls).
  destruct (Hadd (ResponseMessage response) m1) as [m2 ->].
  destruct (ToolCalls (ResponseMessage response)) as [|tc tcs] eqn:Htc; [done|].
  cbn [length Nat.ltb Nat.leb]. eexists. eexists. split; [done|].
  cbn [withMemory chats]. rewrite length_app. cbn. lia.
Qed.

Lemma handleToolCallsWithLimit_insists a t : forall toolCalls iteration x,
  reliable -> insistent a -> tools a = Some t ->
  (forall n tc, exists toolResponse, Call t n tc = Ok toolResponse) ->
  exists x',
    handleToolCallsWithLimit a toolCalls iteration x
    = (Err (MaxTotalIterationsExceeded (maxTotalIterations a)), x')
    /\ Z.of_nat (length (chats x'))
       = Z.of_nat (length (chats x)) + Z.max 0 (maxTotalIterations a - iteration).
Proof.
  intros toolCalls iteration x.
  funelim (handleToolCallsWithLimit a toolCalls iteration x); intros Hrel Hins Ht Hcall.
  - exists x. split; [done | lia].
  - destruct (toolRound_insists a t toolCalls iteration x Hrel Hins Ht Hcall)
      as (tcs & x1 & Hround & _). congruence.
  - destruct (toolRound_insists a t toolCalls iteration x Hrel Hins Ht Hcall)
      as (tcs & x1 & Hround & Hlen).
    rewrite Heq in Hround. inversion Hround; subst.
    destruct (H0 t Hrel Hins Ht Hcall) as (x' & Hres & Hlen').
    exists x'. split; [done | lia].
Qed.

(** X25.  The limit on the iterations is reached, and it is what stops a
    model that keeps asking for tools: with a memory and tools that do not
    fail and a limit that is not negative, [Run] then fails with the
    iteration-exceeded error after exactly [maxTotalIterations + 1] calls to
    the model.  The tool choice [none] of the later calls does not stop the
    run when the model ignores it. *)
Theorem Run_limit_reached (a : Agent) (t : ToolxClient) (userInput : string) (m : M) :
  reliable -> insistent a -> tools a = Some t ->
  (forall n tc, exists toolResponse, Call t n tc = Ok toolResponse) ->
  0 <= maxTotalIterations a ->
  exists x,
    Run a userInput (start m)
    = (Err (MaxTotalIterationsExceeded (maxTotalIterations a)), x)
    /\ Z.of_nat (length (chats x)) = maxTotalIterations a + 1.
Proof.
  intros Hrel Hins Ht Hcall Hmax. pose proof Hrel as [Hadd Hread].
  unfold Run, start, withMemory. cbn [memory chats invocations].
  destruct (Hadd (NewUserMessage userInput) m) as [m1 ->].
  destruct (Hread m1) as [messages ->]. unfold chat. cbn [chats memory invocations length app].
  destruct (Hins 0%nat messages (initialOptions a)) as (response & -> & Hcalls).
  destruct (Hadd (ResponseMessage response) m1) as [m2 ->]. rewrite Ht.
  destruct (ToolCalls (ResponseMessage response)) as [|tc tcs] eqn:Htc; [done|].
  cbn [length Nat.ltb Nat.leb andb]. rewrite bool_decide_eq_true_2 by (by eexists).
  unfold handleToolCalls.
  destruct (handleToolCallsWithLimit_insists a t (tc :: tcs) 0
              {| memory := m2;
                 chats := [{| sent := messages; chatOptions := initialOptions a;
                              atIteration := None |}];
                 invocations := [] |} Hrel Hins Ht Hcall) as (x' & -> & Hlen).
  exists x'. split; [done|]. cbn [chats length] in Hlen. lia.
Qed.

(** *** The conversation a run leaves *)

(** A memory that returns the message it was given last at the end of its
    messages. *)
Definition appends : Prop :=
  forall msg m m', Add msg m = Ok m' ->
    exists messages, Messages m' = Ok messages /\ last messages = Some msg.

Lemma toolRound_answer a toolCalls iteration x s :
  appends ->
  (toolRound a toolCalls iteration x).1 = Settled (Ok s) ->
  exists messages msg,
    Messages (memory (toolRound a toolCalls iteration x).2) = Ok messages
    /\ last messages = Some msg /\ Content msg = s.
Proof.
  intros Happ. unfold toolRound.
  destruct (executeToolCalls a toolCalls x) as [[err|] x1]; [done|].
  destruct (Messages (memory x1)) as [messages|]; [|done].
  unfold chat. destruct (client a _ messages _) as [response|]; [|done]. cbn [memory].
  destruct (Add (ResponseMessage response) (memory x1)) as [m2|] eqn:Hadd; [|done].
  destruct (0 <? length _)%nat; [done|]. cbn [fst snd withMemory memory].
  intros Hs. inversion Hs; subst s.
  destruct (Happ _ _ _ Hadd) as (l & Hl & Hlast). by exists l, (ResponseMessage response).
Qed.

Lemma handleToolCallsWithLimit_answer a : forall toolCalls iteration x s,
  appends ->
  (handleToolCallsWithLimit a toolCalls iteration x).1 = Ok s ->
  exists messages msg,
    Messages (memory (handleToolCallsWithLimit a toolCalls iteration x).2) = Ok messages
    /\ last messages = Some msg /\ Content msg = s.
Proof.
  intros toolCalls iteration x.
  funelim (handleToolCallsWithLimit a toolCalls iteration x); intros s Happ Hs.
  - done.
  - pose proof (toolRound_answer a toolCalls iteration x s Happ) as Hr.
    rewrite Heq in Hr. cbn [fst snd] in *. apply Hr. by rewrite Hs.
  - by apply H0.
Qed.

Lemma toolRound_prefix a toolCalls iteration x :
  chats x `prefix_of` chats (toolRound a toolCalls iteration x).2.
Proof.
  unfold toolRound. pose proof (executeToolCalls_calls a toolCalls x) as [Hc _].
  destruct (executeToolCalls a toolCalls x) as [[err|] x1]; cbn [snd] in Hc; rewrite <- Hc;
    [done|].
  destruct (Messages (memory x1)) as [messages|]; [|done].
  unfold chat. destruct (client a _ messages _) as [response|]; cbn [fst snd memory chats];
    [|by apply prefix_app_r].
  destruct (Add (ResponseMessage response) (memory x1)) as [m2|];
    [|by apply prefix_app_r].
  destruct (0 <? length _)%nat; cbn [snd withMemory chats]; by apply prefix_app_r.
Qed.

Lemma handleToolCallsWithLimit_prefix a : forall toolCalls iteration x,
  chats x `prefix_of` chats (handleToolCallsWithLimit a toolCalls iteration x).2.
Proof.
  intros toolCalls iteration x.
  funelim (handleToolCallsWithLimit a toolCalls iteration x).
  - done.
  - pose proof (toolRound_prefix a toolCalls iteration x) as Hp. by rewrite Heq in Hp.
  - pose proof (toolRound_prefix a toolCalls iteration x) as Hp. rewrite Heq in Hp.
    cbn [snd] in Hp. by etrans.
Qed.

(** X26.  Over a memory that returns the message it was given last at the
    end of its messages, the first call of [Run] to the model ends with the
    user's input, and the answer of a run that succeeds is the content of
    the last message the run leaves in the memory. *)
Theorem Run_conversation (a : Agent) (userInput : string) (m : M) :
  appends ->
  (forall call, chats (Run a userInput (start m)).2 !! 0%nat = Some call ->
     last (sent call) = Some (NewUserMessage userInput)
     /\ chatOptions call = initialOptions a /\ atIteration call = None)
  /\ (forall s, (Run a userInput (start m)).1 = Ok s ->
        exists messages msg,
          Messages (memory (Run a userInput (start m)).2) = Ok messages
          /\ last messages = Some msg /\ Content msg = s).
Proof.
  intros Happ. split.
  - unfold Run, start, withMemory. cbn [memory chats invocations].
    destruct (Add (NewUserMessage userInput) m) as [m1|] eqn:Hadd; [|done].
    destruct (Happ _ _ _ Hadd) as (l & Hl & Hlast). rewrite Hl.
    unfold chat. cbn [chats memory invocations length app].
    set (call0 := {| sent := l; chatOptions := initialOptions a; atIteration := None |}).
    assert (Hfirst : forall x : Exec, [call0] `prefix_of` chats x ->
              forall call, chats x !! 0%nat = Some call ->
                last (sent call) = Some (NewUserMessage userInput)
                /\ chatOptions call = initialOptions a /\ atIteration call = None).
    { intros x Hp call Hc.
      rewrite (prefix_lookup_Some [call0] (chats x) 0 call0 eq_refl Hp) in Hc.
      by inversion Hc; subst call. }
    destruct (client a 0%nat l (initialOptions a)) as [response|]; cbn [fst snd memory];
      [|by apply Hfirst].
    destruct (Add (ResponseMessage response) m1) as [m2|]; [|by apply Hfirst].
    destruct (_ && _); [|by apply Hfirst].
    apply Hfirst. unfold handleToolCalls.
    apply (handleToolCallsWithLimit_prefix a _ 0
             {| memory := m2; chats := [call0]; invocations := [] |}).
  - intros s. unfold Run, start, withMemory. cbn [memory chats invocations].
    destruct (Add (NewUserMessage userInput) m) as [m1|]; [|done].
    destruct (Messages m1) as [messages|]; [|done].
    unfold chat. cbn [chats memory invocations length app].
    destruct (client a 0%nat messages (initialOptions a)) as [response|]; [|done].
    cbn [memory].
    destruct (Add (ResponseMessage response) m1) as [m2|] eqn:Hadd; [|done].
    destruct (_ && _).
    + unfold handleToolCalls. by apply handleToolCallsWithLimit_answer.
    + cbn [fst snd memory]. intros Hs. inversion Hs; subst s.
      destruct (Happ _ _ _ Hadd) as (l & Hl & Hlast). by exists l, (ResponseMessage response).
Qed.

End Agent.

(** *** A model that asks for a tool at every turn *)

Definition exEcho : ToolCall :=
  {| CallID := "call-1"; FunctionName := "echo"; Arguments := "{}" |}.

(** The model asks for [echo] unless it is told not to call tools. *)
Definition exClient : Client := fun _ _ opts =>
  if decide (WithToolChoice opts = Some "none")
  then Ok {| ResponseMessage := {| Role := RoleAssistant; Content := "done";
                                   ToolCalls := []; ToolCallID := "" |} |}
  else Ok {| ResponseMessage := {| Role := RoleAssistant; Content := "";
                                   ToolCalls := [exEcho]; ToolCallID := "" |} |}.

Definition exTools : ToolxClient :=
  {| GetTools := [{| ToolName := "echo"; ToolDescription := "echoes" |}];
     Call := fun _ tc => Ok {| Role := RoleTool; Content := "ok"; ToolCalls := [];
                               ToolCallID := CallID tc |} |}.

Definition exAgent : Agent :=
  {| client := exClient; tools := Some exTools; options := [];
     maxAutoIterations := 2; maxTotalIterations := 5 |}.

Definition exMemory : BufferMemory := NewBufferMemory (NewSystemMessage "context") 0.

(** Iterations 0 and 1 use [auto], iteration 2 uses [none] and settles: three
    calls in the loop after the first, three tool invocations. *)
Example Run_schedule :
  let '(r, x) := Run exAgent "hi" (start exMemory) in
  r = Ok "done"
  /\ map (fun c => (atIteration c, WithToolChoice (chatOptions c))) (chats x)
     = [(None, None); (Some 0, Some "auto"); (Some 1, Some "auto"); (Some 2, Some "none")]
  /\ invocations x = [exEcho; exEcho; exEcho].
Proof. vm_compute. repeat split. Qed.

Lemma exClient_toolsPerCall : toolsPerCall exAgent 1.
Proof.
  intros n messages opts response. cbn. unfold exClient.
  destruct (decide _); intros Heq; inversion Heq; cbn; lia.
Qed.

Lemma Run_calls_bounded_witness :
  exists r x,
    Run exAgent "hi" (start exMemory) = (r, x)
    /\ Z.of_nat (length (chats x)) <= 5 + 1
    /\ Z.of_nat (length (invocations x)) <= (5 + 1) * Z.of_nat 1.
Proof.
  apply (Run_calls_bounded exAgent 1 "hi" exMemory).
  - cbn. lia.
  - exact exClient_toolsPerCall.
Defined.

(** C2 as stated fails: with [maxTotalIterations = -1] a run makes its first
    call to the model, one more than [maxTotalIterations + 1 = 0]. *)
Lemma Run_negative_limit :
  let a := {| client := exClient; tools := Some exTools; options := [];
              maxAutoIterations := 3; maxTotalIterations := -1 |} in
  let '(r, x) := Run a "hi" (start exMemory) in
  r = Err (MaxTotalIterationsExceeded (-1))
  /\ length (chats x) = 1%nat
  /\ ~ (Z.of_nat (length (chats x)) <= maxTotalIterations a + 1).
Proof. vm_compute. repeat split. intros H. apply H. reflexivity. Qed.

Lemma follow_up_tool_choice_witness :
  let call := {| sent := [NewSystemMessage "context"; NewUserMessage "hi";
                          {| Role := RoleAssistant; Content := ""; ToolCalls := [exEcho];
                             ToolCallID := "" |};
                          {| Role := RoleTool; Content := "ok"; ToolCalls := [];
                             ToolCallID := "call-1" |}];
                 chatOptions := {| BaseOptions := []; WithTools := Some (GetTools exTools);
                                   WithToolChoice := Some "auto" |};
                 atIteration := Some 0 |} in
  call ∈ chats (Run exAgent "hi" (start exMemory)).2
  /\ WithTools (chatOptions call) = Some (GetTools exTools)
  /\ (0 < maxAutoIterations exAgent -> WithToolChoice (chatOptions call) = Some "auto")
  /\ (maxAutoIterations exAgent <= 0 -> WithToolChoice (chatOptions call) = Some "none").
Proof.
  intros call.
  assert (Hin : call ∈ chats (Run exAgent "hi" (start exMemory)).2).
  { vm_compute. apply list_elem_of_further, list_elem_of_here. }
  split; [exact Hin|].
  apply (follow_up_tool_choice exAgent exTools "hi" exMemory call 0).
  - reflexivity.
  - discriminate.
  - exact Hin.
  - reflexivity.
Defined.

(** *** A model that ignores the tool choice, and one that just answers *)

Definition lookupCall : ToolCall :=
  {| CallID := "call-7"; FunctionName := "lookup"; Arguments := "{}" |}.

Definition stubbornClient : Client := fun _ _ _ =>
  Ok {| ResponseMessage := {| Role := RoleAssistant; Content := "";
                              ToolCalls := [lookupCall]; ToolCallID := "" |} |}.

Definition lookupTools : ToolxClient :=
  {| GetTools := [{| ToolName := "lookup"; ToolDescription := "looks up" |}];
     Call := fun _ tc => Ok {| Role := RoleTool; Content := "nothing"; ToolCalls := [];
                               ToolCallID := CallID tc |} |}.

Definition stubbornAgent : Agent :=
  {| client := stubbornClient; tools := Some lookupTools; options := [];
     maxAutoIterations := 3; maxTotalIterations := 10 |}.

Definition plainClient : Client := fun _ _ _ =>
  Ok {| ResponseMessage := {| Role := RoleAssistant; Content := "hello";
                              ToolCalls := []; ToolCallID := "" |} |}.

Definition plainAgent : Agent := New plainClient None [].

(** A buffer from the factory, limited to four messages. *)
Definition smallMemory : BufferMemory :=
  BufferMemoryFactoryCreate 4 (NewSystemMessage "context").

Lemma Run_limit_reached_witness :
  exists x,
    Run stubbornAgent "hi" (start smallMemory)
    = (Err (MaxTotalIterationsExceeded 10), x)
    /\ Z.of_nat (length (chats x)) = 10 + 1.
Proof.
  apply (Run_limit_reached stubbornAgent lookupTools "hi" smallMemory).
  - exact BufferMemory_reliable.
  - intros n messages opts. eexists. split; [reflexivity | discriminate].
  - reflexivity.
  - intros n tc. eexists. reflexivity.
  - cbn. lia.
Defined.

Lemma Run_conversation_witness :
  (forall call, chats (Run plainAgent "hi" (start smallMemory)).2 !! 0%nat = Some call ->
     last (sent call) = Some (NewUserMessage "hi")
     /\ chatOptions call = initialOptions plainAgent /\ atIteration call = None)
  /\ (forall s, (Run plainAgent "hi" (start smallMemory)).1 = Ok s ->
        exists messages msg,
          Messages (memory (Run plainAgent "hi" (start smallMemory)).2) = Ok messages
          /\ last messages = Some msg /\ Content msg = s).
Proof.
  apply (Run_conversation plainAgent "hi" smallMemory). exact BufferMemory_appends.
Defined.

End Agentx.


(** ** Package [orchestator]: what the tools of a request see *)

Module Orchestrator.

(** [buildWorkflowContext]: the route and query parameters at the top
    level, then the entries [user], [route] and [backend].  The parameters
    and the query under [route] are stored as the string maps they are. *)
Definition buildWorkflowContext (fullContext : Context.FullContext)
    (routeMatch : Context.RouteMatch) : gmap string any :=
  let workflowContext : gmap string any := AStr <$> Context.Params routeMatch in
  let workflowContext := (AStr <$> Context.Query routeMatch) ∪ workflowContext in
  let workflowContext :=
    match Context.UserOf fullContext with
    | Some u =>
        <["user" := AMap (<["token" := AStr (Context.Token u)]>
                           (<["name" := AStr (Context.UserName u)]>
                              (<["email" := AStr (Context.Email u)]>
                                 {["id" := AStr (Context.ID u)]})))]> workflowContext
    | None => workflowContext
    end in
  let workflowContext :=
    <["route" :=
        AMap (<["query" := AStrMap (Context.RouteQuery (Context.RouteOf fullContext))]>
                (<["params" := AStrMap (Context.RouteParams (Context.RouteOf fullContext))]>
                   (<["path" := AStr (Context.Path (Context.RouteOf fullContext))]>
                      {["name" := AStr (Context.RouteName (Context.RouteOf fullContext))]})))]>
      workflowContext in
  if (0 <? size (Context.Backend fullContext))%nat
  then <["backend" := AMap (Context.Backend fullContext)]> workflowContext
  else workflowContext.

(** The names [buildWorkflowContext] sets itself. *)
Definition reserved (k : string) : Prop := k = "user" \/ k = "route" \/ k = "backend".

Section Paths.

(** [strings.TrimSpace]. *)
Variable TrimSpace : string -> string.

Lemma lookup_route fullContext routeMatch :
  buildWorkflowContext fullContext routeMatch !! "route"
  = Some (AMap (<["query" := AStrMap (Context.RouteQuery (Context.RouteOf fullContext))]>
                  (<["params" := AStrMap (Context.RouteParams (Context.RouteOf fullContext))]>
                     (<["path" := AStr (Context.Path (Context.RouteOf fullContext))]>
                        {["name" := AStr (Context.RouteName (Context.RouteOf fullContext))]})))).
Proof.
  unfold buildWorkflowContext. destruct (0 <? _)%nat.
  - rewrite lookup_insert_ne by done. apply lookup_insert_eq.
  - apply lookup_insert_eq.
Qed.

Lemma lookup_user fullContext routeMatch u :
  Context.UserOf fullContext = Some u ->
  buildWorkflowContext fullContext routeMatch !! "user"
  = Some (AMap (<["token" := AStr (Context.Token u)]>
                  (<["name" := AStr (Context.UserName u)]>
                     (<["email" := AStr (Context.Email u)]>
                        {["id" := AStr (Context.ID u)]})))).
Proof.
  intros Hu. unfold buildWorkflowContext. rewrite Hu.
  destruct (0 <? _)%nat; rewrite ?lookup_insert_ne by done; apply lookup_insert_eq.
Qed.

Lemma lookup_param fullContext routeMatch k :
  ~ reserved k ->
  buildWorkflowContext fullContext routeMatch !! k
  = match Context.Query routeMatch !! k with
    | Some v => Some (AStr v)
    | None => AStr <$> Context.Params routeMatch !! k
    end.
Proof.
  intros Hk. unfold buildWorkflowContext.
  assert (k <> "user" /\ k <> "route" /\ k <> "backend") as (Hu & Hr & Hb).
  { unfold reserved in Hk. repeat split; intros ->; tauto. }
  assert (Hbase : ((AStr <$> Context.Query routeMatch)
                   ∪ (AStr <$> Context.Params routeMatch) : gmap string any) !! k
                  = match Context.Query routeMatch !! k with
                    | Some v => Some (AStr v)
                    | None => AStr <$> Context.Params routeMatch !! k
                    end).
  { rewrite lookup_union, !lookup_fmap.
    destruct (Context.Query routeMatch !! k), (Context.Params routeMatch !! k); done. }
  destruct (0 <? _)%nat, (Context.UserOf fullContext);
    rewrite ?lookup_insert_ne by done; exact Hbase.
Qed.

(** A path without braces, dots or spaces around it is its own single
    segment. *)
Lemma extractFromContext_plain path workflowContext :
  Strings.countc "{" path = O -> Strings.countc "}" path = O ->
  TrimSpace path = path ->
  Tools.extractFromContext TrimSpace path workflowContext
  = Tools.walk TrimSpace (Strings.splitOn "." "" path) 0 (AMap workflowContext).
Proof.
  intros Ho Hc Ht. unfold Tools.extractFromContext. rewrite Ht.
  unfold Strings.TrimPrefix, Strings.TrimSuffix.
  rewrite (Strings.HasPrefix_absent "{" "{" path Ho).
  rewrite (Strings.HasSuffix_absent "}" "}" path Hc). by rewrite Ht.
Qed.

(** X27.  What a context path finds in the workflow context of a request.
    A route parameter is found under its own name at the top level, unless
    a query parameter or one of the entries [user], [route] and [backend]
    has that name.  It is not found under [route.params]: the parameters
    are stored there as a map of strings, which the walk does not enter,
    so that every path through [route.params] fails.  The id of the user is
    found under [user.id]. *)
Theorem workflowContext_paths (fullContext : Context.FullContext)
    (routeMatch : Context.RouteMatch) (k : string) :
  Strings.countc "{" k = O -> Strings.countc "}" k = O -> Strings.countc "." k = O ->
  TrimSpace k = k -> TrimSpace ("route.params." +:+ k) = "route.params." +:+ k ->
  TrimSpace "route" = "route" -> TrimSpace "params" = "params" ->
  TrimSpace "user" = "user" -> TrimSpace "id" = "id" ->
  TrimSpace "user.id" = "user.id" ->
  (forall v, Context.Params routeMatch !! k = Some v ->
     Context.Query routeMatch !! k = None -> ~ reserved k ->
     Tools.extractFromContext TrimSpace k
       (buildWorkflowContext fullContext routeMatch) = Ok (AStr v))
  /\ Tools.extractFromContext TrimSpace ("route.params." +:+ k)
       (buildWorkflowContext fullContext routeMatch) = Err (Tools.NotAMap k)
  /\ (forall u, Context.UserOf fullContext = Some u ->
        Tools.extractFromContext TrimSpace "user.id"
          (buildWorkflowContext fullContext routeMatch) = Ok (AStr (Context.ID u))).
Proof.
  intros Ho Hc Hd Hk Hpath Hroute Hparams Huser Hid Huid. split; [|split].
  - intros v Hv Hq Hres. rewrite extractFromContext_plain by done.
    rewrite Strings.splitOn_absent by done. rewrite Strings.append_nil_l.
    cbn [Tools.walk]. rewrite Hk, lookup_param by done. by rewrite Hq, Hv.
  - rewrite extractFromContext_plain; [| | |done].
    + assert (Hsplit : Strings.splitOn "." "" ("route.params." +:+ k)
                       = ["route"; "params"; k]).
      { change ("route.params." +:+ k)
          with ("route" +:+ String "." ("params" +:+ String "." k)).
        rewrite !Tools.splitOn_app, (Strings.splitOn_absent "." k) by done.
        by rewrite Strings.append_nil_l. }
      rewrite Hsplit. cbn [Tools.walk]. rewrite Hroute, lookup_route. rewrite Hparams.
      rewrite lookup_insert_ne by done. rewrite lookup_insert_eq. by rewrite Hk.
    + rewrite Strings.countc_app. cbn. lia.
    + rewrite Strings.countc_app. cbn. lia.
  - intros u Hu. rewrite extractFromContext_plain by done.
    change (Strings.splitOn "." "" "user.id") with ["user"; "id"]. cbn [Tools.walk].
    rewrite Huser, (lookup_user _ _ u Hu), Hid.
    rewrite !lookup_insert_ne by done. by rewrite lookup_singleton_eq.
Qed.

Lemma validateTool_parameters d :
  Tools.validateTool d = None ->
  Tools.validateParameters ∅ (Manifest.Parameters d) = None.
Proof.
  unfold Tools.validateTool. intros Hv.
  repeat match type of Hv with (if ?b then _ else _) = _ => destruct b end; done.
Qed.

(** X28.  From the request to the tool: in a tool loaded for a request, a
    parameter with the source [route] that is named neither [user], [route]
    nor [backend] resolves to the query parameter of its name when there is
    one, else to the route parameter of its name, and to nothing when there
    is neither.  The arguments of the model have no part in it; the query
    string of the request has the first word. *)
Theorem route_parameter_resolution (route : Manifest.Route)
    (fullContext : Context.FullContext) (routeMatch : Context.RouteMatch)
    (userToken : string) (tools : list Tools.HTTPTool) (t : Tools.HTTPTool)
    (p : Manifest.ToolParameter) (agentParams final : gmap string any) :
  Tools.LoadFromRoute route (buildWorkflowContext fullContext routeMatch) userToken
  = Ok tools ->
  t ∈ tools -> p ∈ Manifest.Parameters (Tools.definition t) ->
  Manifest.Source p = "route" -> ~ reserved (Manifest.ParamName p) ->
  Tools.resolveParameters TrimSpace t agentParams = Ok final ->
  final !! Manifest.ParamName p
  = match Context.Query routeMatch !! Manifest.ParamName p with
    | Some v => Some (AStr v)
    | None => AStr <$> Context.Params routeMatch !! Manifest.ParamName p
    end.
Proof.
  intros Hload Ht Hp Hsrc Hres Hfinal. unfold Tools.LoadFromRoute in Hload.
  pose proof (Tools.loadTools_spec (Manifest.Tools route)
                (buildWorkflowContext fullContext routeMatch) userToken []) as Hspec.
  rewrite Hload in Hspec. destruct Hspec as [-> Hall]. cbn [app] in Ht.
  apply list_elem_of_fmap in Ht as (d & -> & Hd). cbn [Tools.definition] in *.
  destruct (Hall d Hd) as [Hvalid _]. apply validateTool_parameters in Hvalid.
  destruct (Tools.validateParameters_None _ _ Hvalid) as [Hnd _].
  unfold Tools.resolveParameters in Hfinal. cbn [Tools.definition] in Hfinal.
  destruct (Tools.resolveLoop_at TrimSpace _ agentParams _ p final Hnd Hp Hfinal)
    as (acc & acc' & Hstep & Hacc & ->).
  unfold Tools.resolveParameter in Hstep. rewrite Hsrc in Hstep.
  cbn [String.eqb Ascii.eqb Bool.eqb Tools.workflowContext] in Hstep.
  rewrite <- (lookup_param fullContext routeMatch _ Hres).
  destruct (buildWorkflowContext fullContext routeMatch !! Manifest.ParamName p) as [v|].
  - inversion Hstep. apply lookup_insert_eq.
  - destruct (Manifest.Required p); [done|]. inversion Hstep; subst. done.
Qed.

End Paths.

(** *** A request for an item page *)

Definition itemMatch : Context.RouteMatch :=
  {| Context.Route := None; Context.Params := {["id" := "7"]};
     Context.Query := {["page" := "2"]} |}.

Definition itemContext : Context.FullContext :=
  {| Context.RouteOf := {| Context.Path := "/items/:id"; Context.RouteName := "item";
                           Context.RouteParams := {["id" := "7"]};
                           Context.RouteQuery := {["page" := "2"]} |};
     Context.UserOf := Some {| Context.ID := "u1"; Context.Email := "";
                               Context.UserName := "Ada"; Context.Token := "" |};
     Context.Frontend := None; Context.Backend := ∅; Context.Instructions := "";
     Context.AvailableTools := ["stock"] |}.

Definition stockTool : Manifest.Tool :=
  {| Manifest.ToolName := "stock"; Manifest.ToolDescription := "stock of an item";
     Manifest.ToolType := "http";
     Manifest.Config :=
       {| Manifest.ToolMethod := "GET"; Manifest.ToolURL := "https://api/stock/{id}";
          Manifest.ToolHeaders := ∅; Manifest.ToolBody := None;
          Manifest.ToolTimeout := ""; Manifest.ResponsePath := "" |};
     Manifest.Parameters :=
       [{| Manifest.ParamName := "id"; Manifest.ParamType := "string";
           Manifest.ParamDescription := ""; Manifest.Required := true;
           Manifest.Source := "route"; Manifest.ContextPath := "";
           Manifest.Enum := []; Manifest.Default := ANil |}] |}.

Definition itemRoute : Manifest.Route :=
  {| Manifest.Pattern := "/items/:id"; Manifest.RouteName := "item";
     Manifest.Description := ""; Manifest.RouteContext := {| Manifest.Providers := [] |};
     Manifest.Tools := [stockTool]; Manifest.AgentInstructions := "" |}.

(** The paths of the example hold no space. *)
Definition asIs (s : string) : string := s.

Lemma workflowContext_paths_witness :
  Tools.extractFromContext asIs "id" (buildWorkflowContext itemContext itemMatch)
  = Ok (AStr "7")
  /\ Tools.extractFromContext asIs ("route.params." +:+ "id")
       (buildWorkflowContext itemContext itemMatch) = Err (Tools.NotAMap "id")
  /\ Tools.extractFromContext asIs "user.id" (buildWorkflowContext itemContext itemMatch)
     = Ok (AStr "u1").
Proof.
  destruct (workflowContext_paths asIs itemContext itemMatch "id")
    as (Htop & Hnested & Huser); try reflexivity.
  split; [|split; [exact Hnested|]].
  - apply Htop; [reflexivity | reflexivity|].
    unfold reserved. intros [H0|[H0|H0]]; discriminate H0.
  - exact (Huser _ eq_refl).
Defined.

Definition stockLoaded : Tools.HTTPTool :=
  {| Tools.definition := stockTool;
     Tools.workflowContext := buildWorkflowContext itemContext itemMatch;
     Tools.userToken := "" |}.

Lemma route_parameter_resolution_witness :
  Tools.LoadFromRoute itemRoute (buildWorkflowContext itemContext itemMatch) ""
  = Ok [stockLoaded]
  /\ exists final,
       Tools.resolveParameters asIs stockLoaded {["id" := AStr "999"]} = Ok final
       /\ final !! "id" = Some (AStr "7").
Proof.
  split; [reflexivity|].
  destruct (Tools.resolveParameters asIs stockLoaded {["id" := AStr "999"]})
    as [final|e] eqn:Hres; [|vm_compute in Hres; discriminate Hres].
  exists final. split; [done|].
  apply (route_parameter_resolution asIs itemRoute itemContext itemMatch ""
           [stockLoaded] stockLoaded
           {| Manifest.ParamName := "id"; Manifest.ParamType := "string";
              Manifest.ParamDescription := ""; Manifest.Required := true;
              Manifest.Source := "route"; Manifest.ContextPath := "";
              Manifest.Enum := []; Manifest.Default := ANil |}
           {["id" := AStr "999"]} final).
  - reflexivity.
  - apply list_elem_of_here.
  - apply list_elem_of_here.
  - reflexivity.
  - unfold reserved. intros [H0|[H0|H0]]; discriminate H0.
  - exact Hres.
Defined.

End Orchestrator.


(** ** Package [main]: the chat endpoints *)

Module Server.

(** [orchestator.ChatRequest] (dto.go), by the fields the pipeline
    reads. *)
Record ChatRequest := {
  Message : string;
  RoutePath : string;
  RouteQuery : option (gmap string string);
  Frontend : option Context.FrontendContext;
  User : option Context.User;
  SessionID : string;
  BearerToken : string;
  RouteParams : gmap string string;
  ShouldFetchContext : bool
}.

Section Anonymous.

(** What [uuid.New().String()] gives. *)
Variable uuid : string.

Definition generateAnonymousID : string := "anon_" +:+ uuid.

(** [setupAnonymousUser]: the request as both chat endpoints hand it to the
    orchestrator. *)
Definition setupAnonymousUser (req : ChatRequest) : ChatRequest :=
  let frontend :=
    match Frontend req with
    | Some fc => fc
    | None => {| Context.AnonymousID := ""; Context.CustomData := ∅ |}
    end in
  let anonymousID :=
    if String.eqb (Context.AnonymousID frontend) "" then generateAnonymousID
    else Context.AnonymousID frontend in
  let frontend :=
    {| Context.AnonymousID := anonymousID;
       Context.CustomData := Context.CustomData frontend |} in
  let user :=
    match User req with
    | Some u => Some u
    | None =>
        Some {| Context.ID := anonymousID;
                Context.Email := anonymousID +:+ "@anonymous.local";
                Context.UserName := "Anonymous User"; Context.Token := "" |}
    end in
  {| Message := Message req; RoutePath := RoutePath req; RouteQuery := RouteQuery req;
     Frontend := Some frontend; User := user; SessionID := SessionID req;
     BearerToken := ""; RouteParams := RouteParams req;
     ShouldFetchContext := ShouldFetchContext req |}.

(** X29.  What the chat endpoints make of a request before the
    orchestrator sees it.  The bearer token is dropped.  The frontend
    context is there and carries an anonymous id that is not empty, the one
    the frontend sent if it sent one.  A request without a user gets a user
    with that id, who counts as authenticated: for such a request the
    providers with the condition [user.authenticated] run and those with
    [user.guest] do not.  A user that came with the request is kept. *)
Theorem setupAnonymousUser_request (req : ChatRequest) :
  BearerToken (setupAnonymousUser req) = ""
  /\ (exists fc, Frontend (setupAnonymousUser req) = Some fc
                 /\ Context.AnonymousID fc <> ""
                 /\ (forall fc0, Frontend req = Some fc0 ->
                       Context.AnonymousID fc0 <> "" ->
                       Context.AnonymousID fc = Context.AnonymousID fc0)
                 /\ (User req = None ->
                     exists u, User (setupAnonymousUser req) = Some u
                       /\ Context.ID u = Context.AnonymousID fc
                       /\ Context.IsAuthenticated (Some u) = true
                       /\ forall m cfg,
                            Context.dispatched (Context.buildProviderParams m (Some u)) cfg
                            = negb (String.eqb (Manifest.Condition cfg) "user.guest")))
  /\ (forall u, User req = Some u -> User (setupAnonymousUser req) = Some u).
Proof.
  split; [done|]. split; [|by intros u Hu; cbn; rewrite Hu].
  cbn [setupAnonymousUser Frontend User]. eexists. split; [done|].
  cbn [Context.AnonymousID].
  set (frontend := match Frontend req with Some fc => fc | None => _ end).
  assert (Hid : (if String.eqb (Context.AnonymousID frontend) "" then generateAnonymousID
                 else Context.AnonymousID frontend) <> "").
  { destruct (String.eqb_spec (Context.AnonymousID frontend) ""); done. }
  split; [done|]. split.
  - intros fc0 Hfc Hne. unfold frontend. rewrite Hfc.
    apply String.eqb_neq in Hne. by rewrite Hne.
  - intros ->. eexists. split; [done|].
    match goal with
    | |- context [Context.IsAuthenticated (Some ?u)] => set (usr := u)
    end.
    assert (Hauth : Context.IsAuthenticated (Some usr) = true).
    { cbn. apply String.eqb_neq in Hid. by rewrite Hid. }
    split; [done|].
    split; [exact Hauth|]. intros m cfg.
    unfold Context.dispatched, Context.evaluateCondition.
    assert (Hl : forall u, Context.buildProviderParams m (Some u) !! "user_authenticated"
                           = Some (ABool (Context.IsAuthenticated (Some u)))).
    { intros u. unfold Context.buildProviderParams. by rewrite lookup_insert_eq. }
    rewrite Hl, Hauth.
    destruct (String.eqb_spec (Manifest.Condition cfg) "user.authenticated") as [->|];
      [done|].
    destruct (String.eqb_spec (Manifest.Condition cfg) "user.guest") as [->|]; [done|].
    by destruct (String.eqb (Manifest.Condition cfg) "").
Qed.

End Anonymous.

End Server.
